(** * udemy-py: curriculum acquisition and download orchestration

    A shallow embedding of [main.py] (class [Udemy] and [main]) together
    with the properties of its curriculum organizer, paginated fetcher,
    curriculum cache, media-source selection and download orchestrator.

    Conventions of the embedding.
    - Python dictionaries decoded from JSON whose keys the program reads
      are records; a missing key would raise [KeyError], so the records
      describe exactly the well-formed inputs, and a reply of another
      shape is kept apart, with the exception its first read raises.
    - [str] is [string], [int] is [Z], Python lists are [list]; in the
      curriculum cache, where the text of a title matters, a [str] is
      the list of its code points.
    - Everything the program does to the outside world (logging, network
      requests, directory creation, calls of the [utils] collaborators)
      is recorded, in program order, as a list of [Event]s. *)

From stdpp Require Import gmap strings list fin_maps pretty.
From Stdlib Require Import ZArith Lia Ascii.
From Stdlib Require Decimal DecimalPos DecimalN DecimalZ.

Local Open Scope Z_scope.

(** ** Data model *)

(** One entry of a lecture's ["supplementary_assets"] list.  [main.py]
    only takes the length of that list and hands it on. *)
Record Asset := {
  asset_id : Z;
  asset_filename : string
}.

(** RawCurriculumItem: one entry of the ["results"] array of the
    curriculum listing.  ['_class'] is kept as the string the server
    sent: the organizer compares it with string literals and silently
    skips every other tag. *)
Record RawItem := {
  item_class : string;
  item_id : Z;
  item_title : string;
  item_description : string;
  item_is_published : bool;
  item_is_free : bool;
  item_supplementary_assets : list Asset
}.

(** The dictionary built by [organize_curriculum] for a chapter item. *)
Record Chapter := {
  ch_id : Z;
  ch_title : string;
  ch_description : string;
  ch_is_published : bool;
  ch_children : list RawItem
}.

Abbreviation Curriculum := (list Chapter).

(** ** Observable events *)

Inductive Level := INFO | WARNING | ERROR | CRITICAL.

(** The messages [main.py] hands to [logger]; the f-string parameters
    are kept as arguments. *)
Inductive Message :=
| MsgFetchingCurriculum
| MsgCurriculumNotFound
| MsgOrphanItem
| MsgDiscoveredChapters (n : nat)
| MsgDiscoveredLectures (n : nat)
| MsgRequestFailed
| MsgLectureInfoFailed
| MsgDirExists (path : string)
| MsgDirFailed (path : string)
| MsgDownloadingChapter (title : string) (mindex total : nat)
| MsgDownloadingLecture (title : string) (lindex total : nat)
| MsgDownloadingCaptions (n : nat)
| MsgDownloadingAssets (n : nat)
| MsgM3U8Missing (title : string)
| MsgMPDMissing (title : string)
| MsgMp4Unsupported
| MsgDrmProtected
| MsgCacheLoaded (path : string)
| MsgCacheMalformed
| MsgCacheNotFound
| MsgCacheOverwrite
| MsgCacheSaved (path : string).

(** A caption track and a media source of a lecture's asset. *)
Record Caption := {
  cap_locale : string;
  cap_url : string
}.

Record MediaSource := {
  ms_type : string;
  ms_src : string
}.

(** What the program does to the outside world.  The four [Call...]
    events are the calls of the collaborators imported from [utils],
    with the arguments [main.py] passes. *)
Inductive Event :=
| Log (lvl : Level) (msg : Message)
| HttpGet (url : string)
| ProgressAddTask (total : Z)
| ProgressTotal (total : Z)
| ProgressCompleted (completed : nat)
| MakeDirs (path : string)
| CallDownloadCaptions (caps : list Caption) (dir name : string)
    (labels : list string)
| CallProcessAssets (assets : list Asset) (dir : string)
    (course_id lecture_id : Z)
| CallDownloadM3U8 (url dir name : string)
| CallDownloadMPD (url dir name : string) (key : option string)
| WriteFile (path contents : string).

Global Instance Level_eq_dec : EqDecision Level.
Proof. solve_decision. Defined.

Global Instance Message_eq_dec : EqDecision Message.
Proof. solve_decision. Defined.

Global Instance Asset_eq_dec : EqDecision Asset.
Proof. solve_decision. Defined.

Global Instance Caption_eq_dec : EqDecision Caption.
Proof. solve_decision. Defined.

Global Instance MediaSource_eq_dec : EqDecision MediaSource.
Proof. solve_decision. Defined.

Global Instance Event_eq_dec : EqDecision Event.
Proof. solve_decision. Defined.

Global Instance RawItem_eq_dec : EqDecision RawItem.
Proof. solve_decision. Defined.

Global Instance Chapter_eq_dec : EqDecision Chapter.
Proof. solve_decision. Defined.

(** ** Curriculum Organizer: [Udemy.organize_curriculum] *)

Definition is_chapter (item : RawItem) : bool :=
  String.eqb (item_class item) "chapter".

Definition is_lecture (item : RawItem) : bool :=
  String.eqb (item_class item) "lecture".

Definition is_practice (item : RawItem) : bool :=
  String.eqb (item_class item) "practice".

(** [item['_class'] in ['lecture', 'practice']] *)
Definition is_lecture_like (item : RawItem) : bool :=
  is_lecture item || is_practice item.

(** The dictionary literal of lines 117-123. *)
Definition new_chapter (item : RawItem) : Chapter :=
  {| ch_id := item_id item;
     ch_title := item_title item;
     ch_description := item_description item;
     ch_is_published := item_is_published item;
     ch_children := [] |}.

(** [current_chapter['children'].append(item)] *)
Definition append_child (item : RawItem) (c : Chapter) : Chapter :=
  {| ch_id := ch_id c;
     ch_title := ch_title c;
     ch_description := ch_description c;
     ch_is_published := ch_is_published c;
     ch_children := ch_children c ++ [item] |}.

(** [n] successive appends to the children of one chapter. *)
Definition append_children (more : list RawItem) (c : Chapter) : Chapter :=
  foldl (λ c item, append_child item c) c more.

(** The local variables of [organize_curriculum].  In Python
    [current_chapter] is a reference to a dictionary that is also an
    element of [curriculum]; appending to its children changes the list
    element.  The reference is modelled as the position of that element
    in [curriculum], and the append as an in-place update there. *)
Record OrgState := {
  curriculum : Curriculum;
  current_chapter : option nat;
  total_lectures : nat;
  org_log : list Event
}.

Definition org_init : OrgState :=
  {| curriculum := []; current_chapter := None;
     total_lectures := 0%nat; org_log := [] |}.

(** Body of the [for item in results] loop. *)
Definition org_step (st : OrgState) (item : RawItem) : OrgState :=
  if is_chapter item then
    {| curriculum := curriculum st ++ [new_chapter item];
       current_chapter := Some (length (curriculum st));
       total_lectures := total_lectures st;
       org_log := org_log st |}
  else if is_lecture_like item then
    match current_chapter st with
    | Some i =>
      {| curriculum := alter (append_child item) i (curriculum st);
         current_chapter := Some i;
         total_lectures :=
           if is_lecture item then S (total_lectures st) else total_lectures st;
         org_log := org_log st |}
    | None =>
      {| curriculum := curriculum st;
         current_chapter := None;
         total_lectures := total_lectures st;
         org_log := org_log st ++ [Log WARNING MsgOrphanItem] |}
    end
  else st.

Definition org_loop (results : list RawItem) : OrgState :=
  foldl org_step org_init results.

(** [organize_curriculum]: the returned curriculum and what was logged,
    the two counts included. *)
Definition organize_curriculum (results : list RawItem)
  : Curriculum * list Event :=
  let st := org_loop results in
  (curriculum st,
   org_log st ++
     [Log INFO (MsgDiscoveredChapters (length (curriculum st)));
      Log INFO (MsgDiscoveredLectures (total_lectures st))]).

(** The lecture count that [organize_curriculum] reports. *)
Definition reported_lectures (results : list RawItem) : list nat :=
  omap (λ e, match e with
             | Log INFO (MsgDiscoveredLectures n) => Some n
             | _ => None
             end) (organize_curriculum results).2.

(** The anomaly warnings that [organize_curriculum] logs. *)
Definition reported_anomalies (results : list RawItem) : list Event :=
  filter (λ e, e = Log WARNING MsgOrphanItem) (organize_curriculum results).2.

(** *** Reference description of the organizer's output *)

(** The items that precede the first chapter item are the ones for which
    no chapter is open. *)
Fixpoint drop_orphans (items : list RawItem) : list RawItem :=
  match items with
  | [] => []
  | item :: rest => if is_chapter item then items else drop_orphans rest
  end.

(** The lecture and practice items among them: the anomalies. *)
Fixpoint orphan_items (items : list RawItem) : list RawItem :=
  match items with
  | [] => []
  | item :: rest =>
    if is_chapter item then []
    else if is_lecture_like item then item :: orphan_items rest
    else orphan_items rest
  end.

(** Chapter headers and children of a curriculum, in reading order. *)
Definition header (c : Chapter) : Chapter :=
  {| ch_id := ch_id c; ch_title := ch_title c;
     ch_description := ch_description c;
     ch_is_published := ch_is_published c; ch_children := [] |}.

Definition flatten (cur : Curriculum) : list (Chapter + RawItem) :=
  c ← cur; inl (header c) :: (inr <$> ch_children c).

(** What a recognised raw item becomes in the curriculum. *)
Definition classify (item : RawItem) : option (Chapter + RawItem) :=
  if is_chapter item then Some (inl (new_chapter item))
  else if is_lecture_like item then Some (inr item)
  else None.

Definition mk_item (cls : string) (i : Z) (t : string) (free : bool) : RawItem :=
  {| item_class := cls; item_id := i; item_title := t;
     item_description := ""; item_is_published := true;
     item_is_free := free; item_supplementary_assets := [] |}.

Definition ex_A : RawItem := mk_item "chapter" 1 "A" false.
Definition ex_B : RawItem := mk_item "chapter" 2 "B" false.
Definition ex_L0 : RawItem := mk_item "lecture" 10 "L0" false.
Definition ex_L1 : RawItem := mk_item "lecture" 11 "L1" true.
Definition ex_L2 : RawItem := mk_item "lecture" 12 "L2" false.
Definition ex_P1 : RawItem := mk_item "practice" 21 "P1" false.

(** ** Effects: a trace of events and a normal or exceptional outcome *)

Inductive Exn :=
| SystemExit (code : Z)
| PyException (name : string).

Inductive Outcome (A : Type) :=
| Returned (a : A)
| Raised (e : Exn).
Arguments Returned {A} a.
Arguments Raised {A} e.

Global Instance Exn_eq_dec : EqDecision Exn.
Proof. solve_decision. Defined.

Global Instance Outcome_eq_dec `{EqDecision A} : EqDecision (Outcome A).
Proof. solve_decision. Defined.

(** A computation: the events it performs, then how it ends. *)
Definition M (A : Type) : Type := list Event * Outcome A.

Global Instance M_ret : MRet M := λ A a, ([], Returned a).

Global Instance M_bind : MBind M := λ A B f m,
  match m.2 with
  | Returned a => (m.1 ++ (f a).1, (f a).2)
  | Raised e => (m.1, Raised e)
  end.

Definition emit (e : Event) : M unit := ([e], Returned tt).

Definition raise {A} (e : Exn) : M A := ([], Raised e).

Definition log (lvl : Level) (msg : Message) : M unit := emit (Log lvl msg).

(** ** The environment of a run *)

(** What [Udemy.request(url)] followed by [.json()] can give: the
    request raised (caught in [request], which logs and returns [None]),
    the body is not JSON, a decoded body of the shape the caller goes on
    to read, or another JSON value, for which the caller's first read
    raises [exn]: [KeyError] for an object without the key,
    [TypeError] or [AttributeError] for a value that is not an object. *)
Inductive Reply (A : Type) :=
| NoReply
| NotJson
| Json (body : A)
| JsonOther (exn : string).
Arguments NoReply {A}.
Arguments NotJson {A}.
Arguments Json {A} body.
Arguments JsonOther {A} exn.

(** A decoded page of the curriculum listing; each field is [None] when
    the key is absent. *)
Record Page := {
  pg_detail : option string;
  pg_count : option Z;
  pg_results : option (list RawItem);
  pg_next : option string
}.

(** The decoded lecture detail: [lect_info["id"]],
    [lect_info["asset"]["captions"]] and
    [lect_info["asset"]["media_sources"]].  A body from which
    [lect_info["asset"]["captions"]] cannot be read, such as the error
    object the server sends in place of a lecture, is a [JsonOther]
    reply. *)
Record LectureDetail := {
  li_id : Z;
  li_captions : list Caption;
  li_media_sources : list MediaSource
}.

Inductive MkdirOutcome := DirCreated | DirExists | DirFailed.

(** Everything [main.py] takes from outside: the values imported from
    [constants], the globals set by [main], the third-party
    [sanitize_filename], the server, the file system's answer to
    [os.makedirs] and to opening a file for writing, and whether a call
    of a [utils] collaborator raises. *)
Record Env := {
  CURRICULUM_URL : Z → string;
  LECTURE_URL : Z → Z → string;
  COURSE_DIR : string;
  HOME_DIR : string;
  captions : list string;
  sanitize_filename : string → string;
  get_listing : string → Reply Page;
  get_lecture : string → Reply LectureDetail;
  makedirs : string → MkdirOutcome;
  writable : string → bool;
  collaborator : Event → option Exn
}.

(** [os.path.join(a, b)] of [posixpath]. *)
Definition starts_with_sep (s : string) : bool :=
  match s with
  | String c _ => Ascii.eqb c "/"%char
  | EmptyString => false
  end.

Fixpoint ends_with_sep (s : string) : bool :=
  match s with
  | EmptyString => false
  | String c EmptyString => Ascii.eqb c "/"%char
  | String _ rest => ends_with_sep rest
  end.

Definition path_join (a b : string) : string :=
  if starts_with_sep b then b
  else if String.eqb a "" || ends_with_sep a then a +:+ b
  else a +:+ "/" +:+ b.

(** [if x:] for a value that is [None] or a [str]. *)
Definition truthy (x : option string) : bool :=
  match x with
  | Some s => negb (String.eqb s "")
  | None => false
  end.

Section Program.
Variable env : Env.

(** A call of a [utils] collaborator. *)
Definition call (e : Event) : M unit :=
  ([e], match collaborator env e with
        | Some x => Raised x
        | None => Returned tt
        end).

(** ** Curriculum Fetcher: [Udemy.fetch_course_curriculum] *)

(** The [while url:] loop, lines 90-105.  The loop need not terminate
    (the server may send a cycle of cursors), hence the fuel: one unit
    per request.  The result carries [all_results] and [total_count] as
    they are when the loop ends. *)
Fixpoint fetch_loop (fuel : nat) (url : option string)
    (all_results : list RawItem) (total_count : Z) (trace : list Event)
  : option (list Event * Outcome (list RawItem * Z)) :=
  if truthy url then
    match fuel with
    | O => None
    | S fuel' =>
      let u := default "" url in
      match get_listing env u with
      | NoReply =>
        Some (trace ++ [HttpGet u; Log CRITICAL MsgRequestFailed],
              Raised (PyException "AttributeError"))
      | NotJson =>
        Some (trace ++ [HttpGet u], Raised (PyException "JSONDecodeError"))
      | JsonOther exn =>
        Some (trace ++ [HttpGet u], Raised (PyException exn))
      | Json response =>
        if bool_decide (pg_detail response = Some "Not found.") then
          Some (trace ++ [HttpGet u; Log CRITICAL MsgCurriculumNotFound],
                Raised (SystemExit 1))
        else
          let total_count' :=
            if total_count =? 0 then default 0 (pg_count response)
            else total_count in
          let all_results' := all_results ++ default [] (pg_results response) in
          fetch_loop fuel' (pg_next response) all_results' total_count'
            (trace ++ [HttpGet u] ++
             (if total_count =? 0 then [ProgressTotal total_count'] else []) ++
             [ProgressCompleted (length all_results')])
      end
    end
  else Some (trace, Returned (all_results, total_count)).

Definition fetch_course_curriculum (fuel : nat) (course_id : Z)
  : option (M Curriculum) :=
  match fetch_loop fuel (Some (CURRICULUM_URL env course_id)) [] 0
          [Log INFO MsgFetchingCurriculum; ProgressAddTask 0] with
  | None => None
  | Some (trace, Raised e) => Some (trace, Raised e)
  | Some (trace, Returned (all_results, _)) =>
    let (cur, logged) := organize_curriculum all_results in
    Some (trace ++ logged, Returned cur)
  end.

(** ** [Udemy.fetch_lecture_info] and [Udemy.create_directory] *)

(** Whatever [.json()] decoded is returned as it is: the detail, or the
    name of the exception that reading it will raise. *)
Definition fetch_lecture_info (course_id lecture_id : Z)
  : M (LectureDetail + string) :=
  let url := LECTURE_URL env course_id lecture_id in
  emit (HttpGet url) ;;
  match get_lecture env url with
  | NoReply =>
    log CRITICAL MsgRequestFailed ;;
    log CRITICAL MsgLectureInfoFailed ;;
    raise (SystemExit 1)
  | NotJson =>
    log CRITICAL MsgLectureInfoFailed ;;
    raise (SystemExit 1)
  | Json body => mret (inl body)
  | JsonOther exn => mret (inr exn)
  end.

Definition create_directory (path : string) : M unit :=
  emit (MakeDirs path) ;;
  match makedirs env path with
  | DirCreated => mret tt
  | DirExists => log WARNING (MsgDirExists path)
  | DirFailed => log ERROR (MsgDirFailed path) ;; raise (SystemExit 1)
  end.

(** ** Media source selection, lines 177-195 of [process_lecture] *)

Definition HLS_TYPE : string := "application/x-mpegURL".
Definition DASH_TYPE : string := "application/dash+xml".
Definition MP4_TYPE : string := "video/mp4".

(** [next((item['src'] for item in media_sources if item['type'] == ty),
    None)]: the [src] of the first source of the wanted type. *)
Definition first_src (ty : string) (media_sources : list MediaSource)
  : option string :=
  ms_src <$> List.find (λ item, String.eqb (ms_type item) ty) media_sources.

(** [f"{lindex}. {sanitize_filename(lecture['title'])}"] *)
Definition output_name (lindex : nat) (lecture : RawItem) : string :=
  pretty lindex +:+ ". " +:+ sanitize_filename env (item_title lecture).

Definition download_media (lecture : RawItem) (lect_info : LectureDetail)
    (temp_folder_path : string) (lindex : nat) (key : option string) : M unit :=
  if item_is_free lecture then
    let m3u8_url := first_src HLS_TYPE (li_media_sources lect_info) in
    match m3u8_url with
    | None => log ERROR (MsgM3U8Missing (item_title lecture))
    | Some url =>
      call (CallDownloadM3U8 url temp_folder_path (output_name lindex lecture))
    end
  else
    let mpd_url := first_src DASH_TYPE (li_media_sources lect_info) in
    let mp4_url := first_src MP4_TYPE (li_media_sources lect_info) in
    match mpd_url with
    | None =>
      match mp4_url with
      | None => log ERROR (MsgMPDMissing (item_title lecture))
      | Some _ => log ERROR MsgMp4Unsupported
      end
    | Some url =>
      (if key is None then log WARNING MsgDrmProtected else mret tt) ;;
      call (CallDownloadMPD url temp_folder_path
              (output_name lindex lecture) key)
    end.

(** ** [process_lecture], the task run for every child of a chapter *)

(** [n_children] is [len(chapter['children'])]: the closure reads the
    loop variable [chapter] of [download_course], which is the chapter of
    the lecture for as long as the chapter's tasks run. *)
Definition process_lecture (lecture : RawItem) (course_id : Z)
    (folder_path : string) (lindex : nat) (key : option string)
    (n_children : nat) : M unit :=
  let temp_folder_path := path_join folder_path (pretty (item_id lecture)) in
  create_directory temp_folder_path ;;
  if is_lecture lecture then
    decoded ← fetch_lecture_info course_id (item_id lecture) ;
    log INFO (MsgDownloadingLecture (item_title lecture) lindex n_children) ;;
    match decoded with
    | inr exn => raise (PyException exn)
    | inl lect_info =>
      (if (0 <? length (li_captions lect_info))%nat then
         log INFO (MsgDownloadingCaptions (length (li_captions lect_info))) ;;
         call (CallDownloadCaptions (li_captions lect_info) folder_path
                 (output_name lindex lecture) (captions env))
       else mret tt) ;;
      (if (0 <? length (item_supplementary_assets lecture))%nat then
         log INFO (MsgDownloadingAssets
                     (length (item_supplementary_assets lecture))) ;;
         call (CallProcessAssets (item_supplementary_assets lecture)
                 folder_path course_id (li_id lect_info))
       else mret tt) ;;
      download_media lecture lect_info temp_folder_path lindex key
    end
  else mret tt.

(** ** Download Orchestrator: [Udemy.download_course] *)

(** [ThreadPoolExecutor(max_workers=1)], line 200. *)
Definition max_workers : nat := 1.

(** The first exception among the outcomes of the futures, in the order
    of [for future in futures: future.result()]. *)
Fixpoint first_raised (outcomes : list (Outcome unit)) : option Exn :=
  match outcomes with
  | [] => None
  | Raised e :: _ => Some e
  | Returned _ :: rest => first_raised rest
  end.

(** The tasks of one chapter on the pool of one worker.  The worker runs
    the submitted tasks one after the other in submission order; an
    exception raised by a task (a [SystemExit] too) is stored in the
    task's future and the worker goes on with the next task.  The main
    thread then asks every future for its result, in order, and the first
    stored exception is raised there; leaving the [with] block waits for
    the tasks still queued, so every submitted task has run when the
    exception leaves [download_course]. *)
Definition run_on_pool (tasks : list (M unit)) : M unit :=
  (concat (fst <$> tasks),
   match first_raised (snd <$> tasks) with
   | Some e => Raised e
   | None => Returned tt
   end).

(** [os.path.join(COURSE_DIR,
    f"{mindex}. {sanitize_filename(chapter['title'])}")] *)
Definition chapter_folder (mindex : nat) (chapter : Chapter) : string :=
  path_join (COURSE_DIR env)
    (pretty mindex +:+ ". " +:+ sanitize_filename env (ch_title chapter)).

(** The tasks submitted for one chapter, [lindex] counting from 1. *)
Definition chapter_tasks (course_id : Z) (key : option string)
    (mindex : nat) (chapter : Chapter) : list (M unit) :=
  imap (λ i lecture,
          process_lecture lecture course_id (chapter_folder mindex chapter)
            (S i) key (length (ch_children chapter)))
       (ch_children chapter).

Definition download_chapter (course_id : Z) (key : option string)
    (mindex total : nat) (chapter : Chapter) : M unit :=
  log INFO (MsgDownloadingChapter (ch_title chapter) mindex total) ;;
  run_on_pool (chapter_tasks course_id key mindex chapter).

(** The [for chapter in curriculum] loop from [mindex] on. *)
Fixpoint download_chapters (course_id : Z) (key : option string)
    (mindex total : nat) (chapters : list Chapter) : M unit :=
  match chapters with
  | [] => mret tt
  | chapter :: rest =>
    download_chapter course_id key mindex total chapter ;;
    download_chapters course_id key (S mindex) total rest
  end.

Definition download_course (course_id : Z) (key : option string)
    (cur : Curriculum) : M unit :=
  download_chapters course_id key 1 (length cur) cur.

End Program.

(** ** Reference policy of the Media Source Selector

    Written from the specification (section 4.5), to be compared with
    [download_media]. *)

Inductive Selection :=
| SelectedHLS (url : string)
| SelectedDASH (url : string)
| MissingSourceError
| UnsupportedFormatError.

Definition has_type (ty : string) (sources : list MediaSource) : Prop :=
  ∃ m, m ∈ sources ∧ ms_type m = ty.

Inductive select_source_policy (is_free : bool) (sources : list MediaSource)
  : Selection → Prop :=
| policy_free_hls m :
    is_free = true → m ∈ sources → ms_type m = "application/x-mpegURL" →
    select_source_policy is_free sources (SelectedHLS (ms_src m))
| policy_free_missing :
    is_free = true → ¬ has_type "application/x-mpegURL" sources →
    select_source_policy is_free sources MissingSourceError
| policy_paid_dash m :
    is_free = false → m ∈ sources → ms_type m = "application/dash+xml" →
    select_source_policy is_free sources (SelectedDASH (ms_src m))
| policy_paid_mp4 :
    is_free = false → ¬ has_type "application/dash+xml" sources →
    has_type "video/mp4" sources →
    select_source_policy is_free sources UnsupportedFormatError
| policy_paid_missing :
    is_free = false → ¬ has_type "application/dash+xml" sources →
    ¬ has_type "video/mp4" sources →
    select_source_policy is_free sources MissingSourceError.

(** A download is attempted when a stream collaborator is called. *)
Definition is_download (e : Event) : bool :=
  match e with
  | CallDownloadM3U8 _ _ _ | CallDownloadMPD _ _ _ _ => true
  | _ => false
  end.

(** An environment for the examples: every request is answered by
    [lecture_of], directories are created, collaborators return. *)
Definition ex_env (lecture_of : string → Reply LectureDetail) : Env :=
  {| CURRICULUM_URL := λ c,
       "https://api/courses/" +:+ pretty c +:+ "/curriculum";
     LECTURE_URL := λ c l,
       "https://api/courses/" +:+ pretty c +:+ "/lectures/" +:+ pretty l;
     COURSE_DIR := "out/Course";
     HOME_DIR := "home";
     captions := ["en_US"];
     sanitize_filename := λ s, s;
     get_listing := λ _, NoReply;
     get_lecture := lecture_of;
     makedirs := λ _, DirCreated;
     writable := λ _, true;
     collaborator := λ _, None |}.

Definition ex_detail (sources : list MediaSource) : LectureDetail :=
  {| li_id := 11; li_captions := []; li_media_sources := sources |}.

Definition ex_dash : MediaSource :=
  {| ms_type := "application/dash+xml"; ms_src := "https://cdn/a.mpd" |}.
Definition ex_dash2 : MediaSource :=
  {| ms_type := "application/dash+xml"; ms_src := "https://cdn/b.mpd" |}.
Definition ex_mp4 : MediaSource :=
  {| ms_type := "video/mp4"; ms_src := "https://cdn/a.mp4" |}.
Definition ex_hls : MediaSource :=
  {| ms_type := "application/x-mpegURL"; ms_src := "https://cdn/a.m3u8" |}.

(** ** Chains of pages

    A chain is what the server holds: the listing URLs in the order the
    cursors link them, each with the page served there.  Every page but
    the last names the next URL; the last one has no usable cursor. *)
Fixpoint page_chain (env : Env) (chain : list (string * Page)) : Prop :=
  match chain with
  | [] => False
  | (u, p) :: rest =>
    truthy (Some u) = true ∧
    get_listing env u = Json p ∧
    pg_detail p ≠ Some "Not found." ∧
    match rest with
    | [] => truthy (pg_next p) = false
    | (u', _) :: _ => pg_next p = Some u' ∧ page_chain env rest
    end
  end.

Definition page_items (p : Page) : list RawItem := default [] (pg_results p).

Definition page_total (p : Page) : Z := default 0 (pg_count p).

(** The requests and the progress totals recorded in a trace. *)
Definition requests (trace : list Event) : list string :=
  omap (λ e, match e with HttpGet u => Some u | _ => None end) trace.

Definition progress_totals (trace : list Event) : list Z :=
  omap (λ e, match e with ProgressTotal t => Some t | _ => None end) trace.

(** The value of [total_count] after the pages: each page's total is
    taken for as long as the value held is 0. *)
Definition total_after (total_count : Z) (pages : list Page) : Z :=
  foldl (λ t p, if t =? 0 then page_total p else t) total_count pages.

Definition ex_page1 : Page :=
  {| pg_detail := None; pg_count := Some 0;
     pg_results := Some [ex_A]; pg_next := Some "https://api/page2" |}.
Definition ex_page2 : Page :=
  {| pg_detail := None; pg_count := Some 7;
     pg_results := Some [ex_L1]; pg_next := None |}.

Definition ex_listing (url : string) : Reply Page :=
  if String.eqb url "https://api/page1" then Json ex_page1
  else if String.eqb url "https://api/page2" then Json ex_page2
  else NoReply.

Definition ex_listing_env : Env :=
  {| CURRICULUM_URL := λ _, "https://api/page1";
     LECTURE_URL := λ c l, "https://api/lectures/" +:+ pretty l;
     COURSE_DIR := "out/Course";
     HOME_DIR := "home";
     captions := ["en_US"];
     sanitize_filename := λ s, s;
     get_listing := ex_listing;
     get_lecture := λ _, NoReply;
     makedirs := λ _, DirCreated;
     writable := λ _, true;
     collaborator := λ _, None |}.

(** ** Where a task writes *)

(** Modelled from the spec: the collaborators imported from [utils]
    ([download_captions], [process_supplementary_assets],
    [download_and_merge_m3u8], [download_and_merge_mpd]) are not part of
    the sources; by their contract (specification, section 6) each
    writes into the target directory it is handed.  [os.makedirs]
    writes the directory it is given. *)
Definition write_target (e : Event) : option string :=
  match e with
  | MakeDirs path => Some path
  | CallDownloadCaptions _ dir _ _ => Some dir
  | CallProcessAssets _ dir _ _ => Some dir
  | CallDownloadM3U8 _ dir _ => Some dir
  | CallDownloadMPD _ dir _ _ => Some dir
  | _ => None
  end.

(** The directories handed out by [process_lecture]: the per-item
    directory to [os.makedirs] and to the stream collaborators, the
    chapter directory to the caption and asset collaborators. *)
Definition targets_as_coded (folder_path temp_folder_path : string)
    (e : Event) : Prop :=
  match e with
  | MakeDirs path => path = temp_folder_path
  | CallDownloadM3U8 _ dir _ => dir = temp_folder_path
  | CallDownloadMPD _ dir _ _ => dir = temp_folder_path
  | CallDownloadCaptions _ dir _ _ => dir = folder_path
  | CallProcessAssets _ dir _ _ => dir = folder_path
  | _ => True
  end.

(** ** What a run of [download_course] leaves in the trace *)

Definition chapter_events (env : Env) (course_id : Z) (key : option string)
    (mindex total : nat) (chapter : Chapter) : list Event :=
  Log INFO (MsgDownloadingChapter (ch_title chapter) mindex total)
  :: concat (fst <$> chapter_tasks env course_id key mindex chapter).

Fixpoint chapters_events (env : Env) (course_id : Z) (key : option string)
    (mindex total : nat) (chapters : list Chapter) : list Event :=
  match chapters with
  | [] => []
  | chapter :: rest =>
    chapter_events env course_id key mindex total chapter ++
    chapters_events env course_id key (S mindex) total rest
  end.


Definition ex_caption : Caption :=
  {| cap_locale := "en_US"; cap_url := "https://cdn/a.vtt" |}.

Definition ex_detail_captions : LectureDetail :=
  {| li_id := 11; li_captions := [ex_caption]; li_media_sources := [ex_hls] |}.


(** The lecture detail of lecture 11 cannot be fetched; every other
    lecture has an HLS source only. *)
Definition ex_failing_env : Env :=
  ex_env (λ url, if String.eqb url "https://api/courses/7/lectures/11"
                 then NoReply else Json (ex_detail [ex_hls])).

(** The server answers every request for a lecture detail with an error
    object, which has no ["asset"]. *)
Definition ex_denied_env : Env :=
  ex_env (λ _, JsonOther "KeyError").

(** ** Curriculum Cache: the JSON text written by [json.dump] and read
    by [json.load]

    Python's [json] module on the values and the texts the model holds:
    [None], booleans, integers, strings of code points, lists,
    dictionaries with string keys, and the floats that [repr] writes
    without an exponent and with at most 15 significant digits.  On any
    other text the parser answers [Beyond] and the model says nothing.
    The limits an interpreter sets (recursion depth, the digits of an
    integer) are not part of the model. *)

(** A Python [str]: its code points. *)
Abbreviation pystr := (list N).

(** The code points of a string whose characters are below 256. *)
Definition code_points (s : string) : pystr :=
  N_of_ascii <$> String.list_ascii_of_string s.

(** The Python values that [json] writes and reads back.  A [float] is
    held as the digits of its [repr]: sign, integer part, fraction. *)
#[local] Unset Elimination Schemes.
Inductive json :=
| JNull
| JBool (b : bool)
| JInt (z : Z)
| JFloat (negative : bool) (int_part frac_part : Decimal.uint)
| JStr (s : pystr)
| JList (items : list json)
| JDict (members : list (pystr * json)).
#[local] Set Elimination Schemes.

Abbreviation text := (list ascii).

Definition DQUOTE : ascii := "034"%char.
Definition BACKSLASH : ascii := "092"%char.
Definition NEWLINE : ascii := "010"%char.
Definition SPACE : ascii := " "%char.

(** *** [json.dump(value, f, indent=4)] *)

Definition hex_digit (n : N) : ascii :=
  match n with
  | 0 => "0" | 1 => "1" | 2 => "2" | 3 => "3" | 4 => "4" | 5 => "5"
  | 6 => "6" | 7 => "7" | 8 => "8" | 9 => "9" | 10 => "a" | 11 => "b"
  | 12 => "c" | 13 => "d" | 14 => "e" | _ => "f"
  end%N%char.

(** [backslash u] and four hexadecimal digits, for a number below
    65536. *)
Definition escape_u (n : N) : text :=
  [BACKSLASH; "u"%char;
   hex_digit (n / 4096); hex_digit (n / 256 mod 16);
   hex_digit (n / 16 mod 16); hex_digit (n mod 16)]%N.

(** [ensure_ascii] is on: quote, backslash and everything outside
    [' '..'~'] is escaped, control characters with their short form when
    they have one, a code point from 65536 on as a surrogate pair. *)
Definition escape_code (n : N) : text :=
  if (n =? 34)%N then [BACKSLASH; DQUOTE]
  else if (n =? 92)%N then [BACKSLASH; BACKSLASH]
  else if (n =? 8)%N then [BACKSLASH; "b"%char]
  else if (n =? 12)%N then [BACKSLASH; "f"%char]
  else if (n =? 10)%N then [BACKSLASH; "n"%char]
  else if (n =? 13)%N then [BACKSLASH; "r"%char]
  else if (n =? 9)%N then [BACKSLASH; "t"%char]
  else if (32 <=? n)%N && (n <=? 126)%N then [ascii_of_N n]
  else if (n <? 65536)%N then escape_u n
  else escape_u (55296 + (n - 65536) / 1024)
       ++ escape_u (56320 + (n - 65536) mod 1024).

Definition escape (s : pystr) : text := s ≫= escape_code.

Definition encode_str (s : pystr) : text :=
  DQUOTE :: escape s ++ [DQUOTE].

Fixpoint digits_of_uint (d : Decimal.uint) : text :=
  match d with
  | Decimal.Nil => []
  | Decimal.D0 d => "0"%char :: digits_of_uint d
  | Decimal.D1 d => "1"%char :: digits_of_uint d
  | Decimal.D2 d => "2"%char :: digits_of_uint d
  | Decimal.D3 d => "3"%char :: digits_of_uint d
  | Decimal.D4 d => "4"%char :: digits_of_uint d
  | Decimal.D5 d => "5"%char :: digits_of_uint d
  | Decimal.D6 d => "6"%char :: digits_of_uint d
  | Decimal.D7 d => "7"%char :: digits_of_uint d
  | Decimal.D8 d => "8"%char :: digits_of_uint d
  | Decimal.D9 d => "9"%char :: digits_of_uint d
  end.

(** [int.__repr__] *)
Definition encode_int (z : Z) : text :=
  match Z.to_int z with
  | Decimal.Pos d => digits_of_uint d
  | Decimal.Neg d => "-"%char :: digits_of_uint d
  end.

(** [float.__repr__], for the floats the model holds. *)
Definition encode_float (negative : bool) (int_part frac_part : Decimal.uint)
  : text :=
  (if negative then ["-"%char] else []) ++
  digits_of_uint int_part ++ "."%char :: digits_of_uint frac_part.

(** A line break followed by the indentation of the nesting level. *)
Definition newline_indent (level : nat) : text :=
  NEWLINE :: replicate (4 * level) SPACE.

(** The elements after the first, each after a comma on a line of its
    own, and likewise the members of a dictionary. *)
Definition encode_elements (enc : json → text) (level : nat)
  : list json → text :=
  fix rest l :=
    match l with
    | [] => []
    | y :: ys => [","%char] ++ newline_indent level ++ enc y ++ rest ys
    end.

Definition encode_member (enc : json → text) (m : pystr * json) : text :=
  encode_str m.1 ++ [":"%char; SPACE] ++ enc m.2.

Definition encode_members (enc : json → text) (level : nat)
  : list (pystr * json) → text :=
  fix rest l :=
    match l with
    | [] => []
    | m :: ms =>
      [","%char] ++ newline_indent level ++ encode_member enc m ++ rest ms
    end.

Fixpoint encode (level : nat) (v : json) : text :=
  match v with
  | JNull => ["n"; "u"; "l"; "l"]%char
  | JBool true => ["t"; "r"; "u"; "e"]%char
  | JBool false => ["f"; "a"; "l"; "s"; "e"]%char
  | JInt z => encode_int z
  | JFloat negative int_part frac_part =>
    encode_float negative int_part frac_part
  | JStr s => encode_str s
  | JList [] => ["["; "]"]%char
  | JList (x :: xs) =>
    ["["%char] ++ newline_indent (S level) ++ encode (S level) x ++
    encode_elements (encode (S level)) (S level) xs ++
    newline_indent level ++ ["]"%char]
  | JDict [] => ["{"; "}"]%char
  | JDict (m :: ms) =>
    ["{"%char] ++ newline_indent (S level) ++
    encode_member (encode (S level)) m ++
    encode_members (encode (S level)) (S level) ms ++
    newline_indent level ++ ["}"%char]
  end.

(** *** [json.load(f)] *)

(** What the model says of a text: the value [json.load] returns; [Bad]
    when [json.load] raises [JSONDecodeError]; [Beyond] when the text
    holds what the model has no value for, so that the model says
    nothing: a float that is not written the way [repr] writes a float
    of at most 15 significant digits, [NaN], [Infinity], a byte from 128
    on, which is read through the encoding of the locale. *)
Inductive Parsed (A : Type) :=
| Ok (a : A)
| Bad
| Beyond.
Arguments Ok {A} a.
Arguments Bad {A}.
Arguments Beyond {A}.

(** A character of the file that every encoding of text reads in the
    same way. *)
Definition is_ascii (c : ascii) : bool := (N_of_ascii c <? 128)%N.

Definition is_ws (c : ascii) : bool :=
  Ascii.eqb c SPACE || Ascii.eqb c "009"%char || Ascii.eqb c NEWLINE ||
  Ascii.eqb c "013"%char.

Fixpoint skip_ws (s : text) : text :=
  match s with
  | c :: rest => if is_ws c then skip_ws rest else s
  | [] => []
  end.

Definition hex_value (c : ascii) : option N :=
  let n := N_of_ascii c in
  if (48 <=? n)%N && (n <=? 57)%N then Some (n - 48)%N
  else if (97 <=? n)%N && (n <=? 102)%N then Some (n - 87)%N
  else if (65 <=? n)%N && (n <=? 70)%N then Some (n - 55)%N
  else None.

(** The number written by four hexadecimal digits. *)
Definition hex4_value (h1 h2 h3 h4 : ascii) : option N :=
  match hex_value h1, hex_value h2, hex_value h3, hex_value h4 with
  | Some a, Some b, Some c, Some d => Some (4096 * a + 256 * b + 16 * c + d)%N
  | _, _, _, _ => None
  end.

(** The two halves of a surrogate pair. *)
Definition is_high (u : N) : bool := (55296 <=? u)%N && (u <=? 56319)%N.
Definition is_low (u : N) : bool := (56320 <=? u)%N && (u <=? 57343)%N.

Definition join_surrogates (u u2 : N) : N :=
  (65536 + ((u - 55296) * 1024 + (u2 - 56320)))%N.

Definition unescape (c : ascii) : option N :=
  if Ascii.eqb c DQUOTE then Some 34%N
  else if Ascii.eqb c BACKSLASH then Some 92%N
  else if Ascii.eqb c "/"%char then Some 47%N
  else if Ascii.eqb c "b"%char then Some 8%N
  else if Ascii.eqb c "f"%char then Some 12%N
  else if Ascii.eqb c "n"%char then Some 10%N
  else if Ascii.eqb c "r"%char then Some 13%N
  else if Ascii.eqb c "t"%char then Some 9%N
  else None.

Definition prepend (c : N) (r : Parsed (pystr * text))
  : Parsed (pystr * text) :=
  match r with
  | Ok (s, rest) => Ok (c :: s, rest)
  | Bad => Bad
  | Beyond => Beyond
  end.

(** The characters of a string literal after the opening quote.  After
    the escape of the first half of a surrogate pair, an escape of a
    second half that follows at once is joined with it; an escape of
    anything else is left for the next turn. *)
Fixpoint parse_string_body (s : text) : Parsed (pystr * text) :=
  match s with
  | [] => Bad
  | c :: r =>
    if Ascii.eqb c DQUOTE then Ok ([], r)
    else if Ascii.eqb c BACKSLASH then
      match r with
      | [] => Bad
      | e :: r' =>
        if Ascii.eqb e "u"%char then
          match r' with
          | h1 :: h2 :: h3 :: h4 :: r2 =>
            match hex4_value h1 h2 h3 h4 with
            | None => Bad
            | Some u =>
              if is_high u then
                match r2 with
                | b :: r3 =>
                  if Ascii.eqb b BACKSLASH then
                    match r3 with
                    | e2 :: r4 =>
                      if Ascii.eqb e2 "u"%char then
                        match r4 with
                        | k1 :: k2 :: k3 :: k4 :: r5 =>
                          match hex4_value k1 k2 k3 k4 with
                          | None => Bad
                          | Some u2 =>
                            if is_low u2
                            then prepend (join_surrogates u u2)
                                   (parse_string_body r5)
                            else prepend u (parse_string_body r2)
                          end
                        | _ => prepend u (parse_string_body r2)
                        end
                      else prepend u (parse_string_body r2)
                    | [] => prepend u (parse_string_body r2)
                    end
                  else prepend u (parse_string_body r2)
                | [] => prepend u (parse_string_body r2)
                end
              else prepend u (parse_string_body r2)
            end
          | _ => Bad
          end
        else
          match unescape e with
          | Some c' => prepend c' (parse_string_body r')
          | None => Bad
          end
      end
    else if (N_of_ascii c <? 32)%N then Bad
    else if is_ascii c then prepend (N_of_ascii c) (parse_string_body r)
    else Beyond
  end.

Definition digit_of_char (c : ascii)
  : option (Decimal.uint → Decimal.uint) :=
  match c with
  | "0" => Some Decimal.D0 | "1" => Some Decimal.D1 | "2" => Some Decimal.D2
  | "3" => Some Decimal.D3 | "4" => Some Decimal.D4 | "5" => Some Decimal.D5
  | "6" => Some Decimal.D6 | "7" => Some Decimal.D7 | "8" => Some Decimal.D8
  | "9" => Some Decimal.D9 | _ => None
  end%char.

Definition is_digit (c : ascii) : bool :=
  match digit_of_char c with Some _ => true | None => false end.

Fixpoint take_digits (s : text) : Decimal.uint * text :=
  match s with
  | c :: r =>
    match digit_of_char c with
    | Some k => let (d, rest) := take_digits r in (k d, rest)
    | None => (Decimal.Nil, s)
    end
  | [] => (Decimal.Nil, [])
  end.

(** A full stop followed by a digit starts a fraction. *)
Definition starts_fraction (s : text) : bool :=
  match s with
  | c :: d :: _ => Ascii.eqb c "."%char && is_digit d
  | _ => false
  end.

(** The letter e, an optional sign and a digit start an exponent. *)
Definition starts_exponent (s : text) : bool :=
  match s with
  | c :: r =>
    (Ascii.eqb c "e"%char || Ascii.eqb c "E"%char) &&
    match r with
    | d :: r' =>
      is_digit d ||
      ((Ascii.eqb d "+"%char || Ascii.eqb d "-"%char) &&
       match r' with
       | d' :: _ => is_digit d'
       | [] => false
       end)
    | [] => false
    end
  | [] => false
  end.

(** The floats the model holds are those that [repr] writes without an
    exponent and with at most 15 significant digits, which are the
    digits of the float: an integer part of at most 16 digits without a
    superfluous zero in front, a fraction without a superfluous zero at
    the end, and at most three zeros after the full stop when the
    integer part is zero. *)
Definition int_part_ok (i : Decimal.uint) : bool :=
  match i with
  | Decimal.Nil => false
  | Decimal.D0 Decimal.Nil => true
  | Decimal.D0 _ => false
  | _ => true
  end.

Definition is_zero (d : Decimal.uint) : bool :=
  Decimal.uint_beq d (Decimal.D0 Decimal.Nil).

Definition ends_with_zero (d : Decimal.uint) : bool :=
  match Decimal.rev d with
  | Decimal.D0 _ => true
  | _ => false
  end.

Definition significant_digits (i f : Decimal.uint) : nat :=
  Decimal.nb_digits
    (Decimal.nzhead (Decimal.rev (Decimal.nzhead (Decimal.rev (Decimal.app i f))))).

Definition canonical_float (i f : Decimal.uint) : bool :=
  int_part_ok i &&
  negb (Decimal.uint_beq f Decimal.Nil) &&
  (is_zero f || negb (ends_with_zero f)) &&
  (Decimal.nb_digits i <=? 16)%nat &&
  (significant_digits i f <=? 15)%nat &&
  (negb (is_zero i) || is_zero f ||
   (Decimal.nb_digits f - Decimal.nb_digits (Decimal.nzhead f) <=? 3)%nat).

(** What follows the integer part of a number: a fraction and an
    exponent when they are there.  Without either the number is an
    [int]. *)
Definition number_tail (negative : bool) (i : Decimal.uint) (s2 : text)
  : Parsed (json * text) :=
  if starts_fraction s2 then
    let (f, s3) := take_digits (tail s2) in
    if starts_exponent s3 then Beyond
    else if canonical_float i f then Ok (JFloat negative i f, s3)
    else Beyond
  else if starts_exponent s2 then Beyond
  else Ok (JInt (Z.of_int (if negative then Decimal.Neg i
                           else Decimal.Pos i)), s2).

(** A number at the head of the text: an optional minus sign, then a
    single 0 or a run of digits that does not start with 0. *)
Definition parse_number (s : text) : Parsed (json * text) :=
  let (negative, s1) :=
    match s with
    | c :: r => if Ascii.eqb c "-"%char then (true, r) else (false, s)
    | [] => (false, s)
    end in
  let (i, s2) :=
    match s1 with
    | c :: r =>
      if Ascii.eqb c "0"%char then (Decimal.D0 Decimal.Nil, r)
      else take_digits s1
    | [] => (Decimal.Nil, s1)
    end in
  match i with
  | Decimal.Nil => Bad
  | _ => number_tail negative i s2
  end.

(** A dictionary keeps one value per key: a later member with the same
    key replaces the value and keeps the place. *)
Fixpoint dict_set (k : pystr) (v : json) (members : list (pystr * json))
  : list (pystr * json) :=
  match members with
  | [] => [(k, v)]
  | (k', v') :: rest =>
    if bool_decide (k = k') then (k, v) :: rest
    else (k', v') :: dict_set k v rest
  end.

Definition dict_of_pairs (pairs : list (pystr * json))
  : list (pystr * json) :=
  foldl (λ d kv, dict_set kv.1 kv.2 d) [] pairs.

(** The elements of an array after the first, up to the closing bracket. *)
Fixpoint parse_elements (value : text → Parsed (json * text)) (fuel : nat)
    (s : text) : Parsed (list json * text) :=
  match fuel with
  | O => Bad
  | S fuel' =>
    match skip_ws s with
    | c :: r =>
      if Ascii.eqb c "]"%char then Ok ([], r)
      else if Ascii.eqb c ","%char then
        match value (skip_ws r) with
        | Ok (v, s') =>
          match parse_elements value fuel' s' with
          | Ok (vs, rest) => Ok (v :: vs, rest)
          | Bad => Bad
          | Beyond => Beyond
          end
        | Bad => Bad
        | Beyond => Beyond
        end
      else Bad
    | [] => Bad
    end
  end.

(** A member of an object: key, colon, value. *)
Definition parse_member (value : text → Parsed (json * text)) (s : text)
  : Parsed ((pystr * json) * text) :=
  match s with
  | c :: r =>
    if Ascii.eqb c DQUOTE then
      match parse_string_body r with
      | Ok (k, s1) =>
        match skip_ws s1 with
        | c' :: r' =>
          if Ascii.eqb c' ":"%char then
            match value (skip_ws r') with
            | Ok (v, rest) => Ok ((k, v), rest)
            | Bad => Bad
            | Beyond => Beyond
            end
          else Bad
        | [] => Bad
        end
      | Bad => Bad
      | Beyond => Beyond
      end
    else Bad
  | [] => Bad
  end.

Fixpoint parse_members (value : text → Parsed (json * text)) (fuel : nat)
    (s : text) : Parsed (list (pystr * json) * text) :=
  match fuel with
  | O => Bad
  | S fuel' =>
    match skip_ws s with
    | c :: r =>
      if Ascii.eqb c "}"%char then Ok ([], r)
      else if Ascii.eqb c ","%char then
        match parse_member value (skip_ws r) with
        | Ok (m, s') =>
          match parse_members value fuel' s' with
          | Ok (ms, rest) => Ok (m :: ms, rest)
          | Bad => Bad
          | Beyond => Beyond
          end
        | Bad => Bad
        | Beyond => Beyond
        end
      else Bad
    | [] => Bad
    end
  end.

(** The constants that stand for floats without digits. *)
Fixpoint starts_with (word s : text) : bool :=
  match word, s with
  | [], _ => true
  | w :: word', c :: r => Ascii.eqb w c && starts_with word' r
  | _ :: _, [] => false
  end.

Definition float_constant (s : text) : bool :=
  starts_with ["N"; "a"; "N"]%char s ||
  starts_with ["I"; "n"; "f"; "i"; "n"; "i"; "t"; "y"]%char s ||
  starts_with ["-"; "I"; "n"; "f"; "i"; "n"; "i"; "t"; "y"]%char s.

(** One value at the head of the text.  The fuel bounds the nesting
    depth and the number of elements of a container. *)
Fixpoint parse_value (fuel : nat) (s : text) : Parsed (json * text) :=
  match fuel with
  | O => Bad
  | S fuel' =>
    match s with
    | [] => Bad
    | c :: r =>
      if Ascii.eqb c DQUOTE then
        match parse_string_body r with
        | Ok (str, rest) => Ok (JStr str, rest)
        | Bad => Bad
        | Beyond => Beyond
        end
      else if Ascii.eqb c "["%char then
        match skip_ws r with
        | c' :: r' =>
          if Ascii.eqb c' "]"%char then Ok (JList [], r')
          else
            match parse_value fuel' (skip_ws r) with
            | Ok (v, s') =>
              match parse_elements (parse_value fuel') fuel' s' with
              | Ok (vs, rest) => Ok (JList (v :: vs), rest)
              | Bad => Bad
              | Beyond => Beyond
              end
            | Bad => Bad
            | Beyond => Beyond
            end
        | [] => Bad
        end
      else if Ascii.eqb c "{"%char then
        match skip_ws r with
        | c' :: r' =>
          if Ascii.eqb c' "}"%char then Ok (JDict [], r')
          else
            match parse_member (parse_value fuel') (skip_ws r) with
            | Ok (m, s') =>
              match parse_members (parse_value fuel') fuel' s' with
              | Ok (ms, rest) => Ok (JDict (dict_of_pairs (m :: ms)), rest)
              | Bad => Bad
              | Beyond => Beyond
              end
            | Bad => Bad
            | Beyond => Beyond
            end
        | [] => Bad
        end
      else
        match s with
        | "n" :: "u" :: "l" :: "l" :: rest => Ok (JNull, rest)
        | "t" :: "r" :: "u" :: "e" :: rest => Ok (JBool true, rest)
        | "f" :: "a" :: "l" :: "s" :: "e" :: rest => Ok (JBool false, rest)
        | _ => if float_constant s then Beyond else parse_number s
        end%char
    end
  end.

(** [json.dumps(value, indent=4)] and [json.loads(s)]: leading and
    trailing white space is skipped, anything else after the value is an
    error. *)
Definition dumps (v : json) : string :=
  String.string_of_list_ascii (encode 0 v).

Definition loads (s : string) : Parsed json :=
  if forallb is_ascii (String.list_ascii_of_string s) then
    let t := skip_ws (String.list_ascii_of_string s) in
    match parse_value (S (length t)) t with
    | Ok (v, rest) => if bool_decide (skip_ws rest = []) then Ok v else Bad
    | Bad => Bad
    | Beyond => Beyond
    end
  else Beyond.

(** A string as a JSON parser gives it: code points up to 1114111, and
    no first half of a surrogate pair followed at once by a second half,
    which the parser has joined. *)
Fixpoint wf_str (s : pystr) : Prop :=
  match s with
  | [] => True
  | c :: r =>
    (c < 1114112)%N ∧
    (is_high c = true →
     match r with
     | c2 :: _ => is_low c2 = false
     | [] => True
     end) ∧
    wf_str r
  end.

(** Well-formed values: strings as above, floats among those the model
    holds, the keys of a dictionary distinct. *)
#[local] Unset Elimination Schemes.
Inductive wf_json : json → Prop :=
| wf_null : wf_json JNull
| wf_bool b : wf_json (JBool b)
| wf_int z : wf_json (JInt z)
| wf_float negative i f :
    canonical_float i f = true → wf_json (JFloat negative i f)
| wf_string s : wf_str s → wf_json (JStr s)
| wf_list l : Forall wf_json l → wf_json (JList l)
| wf_dict ms :
    NoDup ms.*1 → Forall (λ m, wf_str m.1 ∧ wf_json m.2) ms →
    wf_json (JDict ms).
#[local] Set Elimination Schemes.

(** *** The curriculum as a JSON value *)

(** [value[key]] *)
Definition field (key : string) (v : json) : option json :=
  match v with
  | JDict members =>
    snd <$> List.find (λ m, bool_decide (m.1 = code_points key)) members
  | _ => None
  end.

(** The chapters, as [for chapter in curriculum] of line 201 meets
    them. *)
Definition chapters_of (course_curriculum : json) : list json :=
  match course_curriculum with
  | JList chapters => chapters
  | _ => []
  end.

(** [chapter['children']], as line 208 enumerates it. *)
Definition children_of (chapter : json) : list json :=
  match field "children" chapter with
  | Some (JList children) => children
  | _ => []
  end.

(** The dictionary that [organize_curriculum] makes for a chapter, lines
    117-123, with the items appended to its children since, line 127:
    the items are what the server sent. *)
Definition chapter_json (id title description is_published : json)
    (children : list json) : json :=
  JDict [(code_points "id", id);
         (code_points "title", title);
         (code_points "description", description);
         (code_points "is_published", is_published);
         (code_points "children", JList children)].

(** *** The cache file: lines 303-324 and 332-344 of [main] *)

(** The value of [args.load] and of [args.save]: [None] when the option
    is not given, [True] when it is given without a value, else the
    path. *)
Inductive PathArg :=
| ArgAbsent
| ArgFlag
| ArgPath (path : string).

(** [if args.save:] *)
Definition arg_truthy (a : PathArg) : bool :=
  match a with
  | ArgAbsent => false
  | ArgFlag => true
  | ArgPath path => negb (String.eqb path "")
  end.

(** The parsed command line. *)
Record Args := {
  arg_id : option Z;
  arg_url : option string;
  arg_key : option string;
  arg_cookies : string;
  arg_load : PathArg;
  arg_save : PathArg;
  arg_threads : Z;
  arg_captions : option string
}.

(** The regular files and their contents. *)
Abbreviation Files := (gmap string string).

(** [os.path.isfile(path)] *)
Definition isfile (fs : Files) (path : string) : bool :=
  bool_decide (is_Some (fs !! path)).

Definition default_cache (env : Env) : string :=
  path_join (HOME_DIR env) "course.json".

(** [with open(path, "w") as f: json.dump(course_curriculum, f, indent=4)],
    after the warning about an existing file.  Opening fails when the
    environment says the path cannot be written. *)
Definition save_to (env : Env) (fs : Files) (path shown : string)
    (course_curriculum : json) : M unit * Files :=
  ((if isfile fs path then log WARNING MsgCacheOverwrite else mret tt) ;;
   (if writable env path then
      emit (WriteFile path (dumps course_curriculum)) ;;
      log INFO (MsgCacheSaved shown)
    else raise (PyException "OSError")),
   if writable env path then <[path := dumps course_curriculum]> fs else fs).

(** Lines 332-344. *)
Definition main_save (env : Env) (fs : Files) (save : PathArg)
    (course_curriculum : json) : M unit * Files :=
  if arg_truthy save then
    match save with
    | ArgPath path => save_to env fs path path course_curriculum
    | _ => save_to env fs (default_cache env) "course.json" course_curriculum
    end
  else (mret tt, fs).

(** What [main] does about [--load]. *)
Inductive Loading :=
| Fetches
| Loads (run : M json)
| Unmodelled.

(** [json.load(open(path, "r"))] inside [try ... except JSONDecodeError],
    for a regular file that can be read. *)
Definition load_from (fs : Files) (path shown : string) : Loading :=
  match loads (default "" (fs !! path)) with
  | Ok v => Loads (log INFO (MsgCacheLoaded shown) ;; mret v)
  | Bad => Loads (log ERROR MsgCacheMalformed ;; raise (SystemExit 1))
  | Beyond => Unmodelled
  end.

(** Lines 303-324: [Fetches] when [args.load] is not set, in which case
    the curriculum is fetched.  With [--load] alone and no default file,
    line 312 is [os.path.isfile(True)], which asks about file descriptor
    1: when the standard output is a regular file, line 314 reads it,
    and the model says nothing. *)
Definition main_load (env : Env) (stdout_is_file : bool) (fs : Files)
    (load : PathArg) : Loading :=
  if arg_truthy load then
    match load with
    | ArgPath path =>
      if isfile fs path then load_from fs path path
      else Loads (log ERROR MsgCacheNotFound ;; raise (SystemExit 1))
    | _ =>
      if isfile fs (default_cache env)
      then load_from fs (default_cache env) "course.json"
      else if stdout_is_file then Unmodelled
      else Loads (log ERROR MsgCacheNotFound ;; raise (SystemExit 1))
    end
  else Fetches.

(** A curriculum as the fetcher leaves it: two chapters, the first with
    a lecture whose title holds an accented letter, a dash and a
    character beyond the basic plane, and whose dictionary holds a float
    and a nested dictionary, as the server sends them. *)
Definition ex_lecture_json : json :=
  JDict [(code_points "_class", JStr (code_points "lecture"));
         (code_points "id", JInt 12);
         (code_points "title",
          JStr [67; 97; 102; 233; 32; 8211; 32; 128512]%N);
         (code_points "rating",
          JFloat false (Decimal.D4 Decimal.Nil) (Decimal.D5 Decimal.Nil));
         (code_points "asset",
          JDict [(code_points "time_estimation", JInt 300)])].

Definition ex_cache : json :=
  JList [chapter_json (JInt 1) (JStr (code_points "A")) (JStr []) (JBool true)
           [ex_lecture_json];
         chapter_json (JInt 2) (JStr (code_points "B")) JNull (JBool false)
           []].

(** The text of a cache file: a float, a string with three escapes, of
    which the last two are the halves of one character, and a dictionary
    with a repeated key. *)
Definition ex_cache_text : string :=
  let q := String DQUOTE EmptyString in
  "[1.5, " +:+ q +:+ "caf\u00e9 \ud83d\ude00" +:+ q +:+
  ", {" +:+ q +:+ "a" +:+ q +:+ ": 1, " +:+ q +:+ "a" +:+ q +:+ ": -2}]".

(** ** The worker pool

    [ThreadPoolExecutor(max_workers=w)] as a transition system over
    task identifiers: a submitted task waits in the queue, a waiting
    task is started when fewer than [w] tasks are running, a running
    task finishes. *)
Record PoolState := {
  queued : list nat;
  running : list nat;
  finished : list nat
}.

Definition pool_empty : PoolState :=
  {| queued := []; running := []; finished := [] |}.

Inductive pool_step (w : nat) : PoolState → PoolState → Prop :=
| pool_submit st t :
    pool_step w st
      {| queued := queued st ++ [t]; running := running st;
         finished := finished st |}
| pool_start st t rest :
    queued st = t :: rest →
    (length (running st) < w)%nat →
    pool_step w st
      {| queued := rest; running := running st ++ [t];
         finished := finished st |}
| pool_finish st before t after :
    running st = before ++ t :: after →
    pool_step w st
      {| queued := queued st; running := before ++ after;
         finished := finished st ++ [t] |}.

(** The states the pool of [download_course] can be in. *)
Definition pool_reachable (st : PoolState) : Prop :=
  rtc (pool_step max_workers) pool_empty st.

(** Finished, running and waiting tasks, in this order. *)
Definition pool_order (st : PoolState) : list nat :=
  finished st ++ running st ++ queued st.

Definition ex_args : Args :=
  {| arg_id := Some 7; arg_url := None; arg_key := None;
     arg_cookies := "cookies.txt"; arg_load := ArgAbsent;
     arg_save := ArgAbsent; arg_threads := 4; arg_captions := None |}.

(** ** Notions used in the proofs *)

(** The loop invariant: a chapter is open exactly when the curriculum is
    not empty, and the open chapter is the last one. *)
Definition org_open (st : OrgState) : Prop :=
  ∃ cs c, curriculum st = cs ++ [c] ∧ current_chapter st = Some (length cs).

(** No chapter has been met yet. *)
Definition org_closed (st : OrgState) : Prop :=
  curriculum st = [] ∧ current_chapter st = None.

(** The two kinds of entries of a flattened curriculum. *)
Definition get_chapter (n : Chapter + RawItem) : option Chapter :=
  match n with inl c => Some c | inr _ => None end.

Definition get_child (n : Chapter + RawItem) : option RawItem :=
  match n with inl _ => None | inr i => Some i end.

(** Induction on a value with the hypothesis for every element of a
    list and every member of a dictionary. *)
Fixpoint json_ind (P : json → Prop)
    (Hnull : P JNull) (Hbool : ∀ b, P (JBool b)) (Hint : ∀ z, P (JInt z))
    (Hfloat : ∀ negative i f, P (JFloat negative i f))
    (Hstr : ∀ s, P (JStr s))
    (Hlist : ∀ l, Forall P l → P (JList l))
    (Hdict : ∀ ms, Forall (λ m, P m.2) ms → P (JDict ms))
    (v : json) : P v :=
  match v with
  | JNull => Hnull
  | JBool b => Hbool b
  | JInt z => Hint z
  | JFloat negative i f => Hfloat negative i f
  | JStr s => Hstr s
  | JList l =>
    Hlist l ((fix go l : Forall P l :=
                match l with
                | [] => Forall_nil_2 P
                | x :: r =>
                  Forall_cons_2 P x r
                    (json_ind P Hnull Hbool Hint Hfloat Hstr Hlist Hdict x)
                    (go r)
                end) l)
  | JDict ms =>
    Hdict ms ((fix go l : Forall (λ m, P m.2) l :=
                 match l with
                 | [] => Forall_nil_2 _
                 | m :: r =>
                   Forall_cons_2 (λ m, P m.2) m r
                     (json_ind P Hnull Hbool Hint Hfloat Hstr Hlist Hdict m.2)
                     (go r)
                 end) ms)
  end.

(** What may follow a run of digits: no digit. *)
Definition digits_end (rest : text) : Prop :=
  match rest with
  | [] => True
  | c :: _ => digit_of_char c = None
  end.

(** The characters a number may start with. *)
Definition number_start (c : ascii) : bool :=
  Ascii.eqb c "-"%char || is_digit c.

(** What an encoding starts with: never white space, never a closing
    bracket. *)
Definition value_start (c : ascii) : bool :=
  Ascii.eqb c DQUOTE || Ascii.eqb c "["%char || Ascii.eqb c "{"%char ||
  Ascii.eqb c "n"%char || Ascii.eqb c "t"%char || Ascii.eqb c "f"%char ||
  number_start c.

(** What may follow a value in an encoding: nothing, a comma, or the
    line break before a closing bracket. *)
Definition value_end (rest : text) : Prop :=
  match rest with
  | [] => True
  | c :: _ => c = ","%char ∨ c = NEWLINE
  end.

(** [pv] reads back what [encode level] wrote, for the value [y]. *)
Definition reads_back (pv : text → Parsed (json * text)) (level : nat)
    (y : json) : Prop :=
  ∀ rest, value_end rest → pv (encode level y ++ rest) = Ok (y, rest).

(** The text does not start with the escape of the second half of a
    surrogate pair, and when it starts with the escape of a number, the
    four digits are hexadecimal digits. *)
Definition no_low_escape (t : text) : Prop :=
  match t with
  | b :: e :: k1 :: k2 :: k3 :: k4 :: _ =>
    b = BACKSLASH → e = "u"%char →
    ∃ u2, hex4_value k1 k2 k3 k4 = Some u2 ∧ is_low u2 = false
  | _ => True
  end.

(** The first code point of a string is not the second half of a
    surrogate pair. *)
Definition head_not_low (s : pystr) : Prop :=
  match s with
  | c :: _ => is_low c = false
  | [] => True
  end.

(** The start of a number: a digit, or a minus sign and a digit. *)
Definition number_text (s : text) : Prop :=
  match s with
  | c :: r =>
    is_digit c = true ∨
    (c = "-"%char ∧
     match r with d :: _ => is_digit d = true | [] => False end)
  | [] => False
  end.

(** ** Further notions for the organizer *)

(** The class tags the organizer acts on. *)
Definition recognised (item : RawItem) : bool :=
  is_chapter item || is_lecture_like item.

(** The chapter count that [organize_curriculum] reports. *)
Definition reported_chapters (results : list RawItem) : list nat :=
  omap (λ e, match e with
             | Log INFO (MsgDiscoveredChapters n) => Some n
             | _ => None
             end) (organize_curriculum results).2.

(** ** Further notions for the fetcher *)

(** The URL requested first when the pages of [chain] are followed by
    the cursor [stop]. *)
Definition first_url (chain : list (string * Page)) (stop : option string)
  : option string :=
  match chain with
  | (u, _) :: _ => Some u
  | [] => stop
  end.

(** Pages served without error, each naming the next one; the last one
    names [stop]. *)
Fixpoint linked_pages (env : Env) (chain : list (string * Page))
    (stop : option string) : Prop :=
  match chain with
  | [] => True
  | (u, p) :: rest =>
    truthy (Some u) = true ∧
    get_listing env u = Json p ∧
    pg_detail p ≠ Some "Not found." ∧
    pg_next p = first_url rest stop ∧
    linked_pages env rest stop
  end.

(** A set of listing URLs that the cursors never leave: every page
    served there names a next URL of the set.  A cycle of cursors is
    such a set. *)
Definition cursors_never_end (env : Env) (urls : string → Prop) : Prop :=
  ∀ u, urls u →
    truthy (Some u) = true ∧
    ∃ p u', get_listing env u = Json p ∧
            pg_detail p ≠ Some "Not found." ∧
            pg_next p = Some u' ∧ urls u'.

Definition ex_page_loop : Page :=
  {| pg_detail := None; pg_count := Some 1;
     pg_results := Some [ex_A]; pg_next := Some "https://api/loop" |}.

Definition ex_page_gone : Page :=
  {| pg_detail := Some "Not found."; pg_count := None;
     pg_results := None; pg_next := None |}.

Definition ex_page0 : Page :=
  {| pg_detail := None; pg_count := Some 5;
     pg_results := Some [ex_A]; pg_next := Some "https://api/missing" |}.

(** For course 7 the first page is served and names a second one, which
    is gone; for course 8 the first page names a URL that cannot be
    reached; for any other course the listing URL names itself. *)
Definition ex_broken_env : Env :=
  {| CURRICULUM_URL := λ c,
       if (c =? 7) then "https://api/page1"
       else if (c =? 8) then "https://api/page0"
       else "https://api/loop";
     LECTURE_URL := λ c l, "https://api/lectures/" +:+ pretty l;
     COURSE_DIR := "out/Course";
     HOME_DIR := "home";
     captions := ["en_US"];
     sanitize_filename := λ s, s;
     get_listing := λ url,
       if String.eqb url "https://api/page1" then Json ex_page1
       else if String.eqb url "https://api/page2" then Json ex_page_gone
       else if String.eqb url "https://api/page0" then Json ex_page0
       else if String.eqb url "https://api/loop" then Json ex_page_loop
       else NoReply;
     get_lecture := λ _, NoReply;
     makedirs := λ _, DirCreated;
     writable := λ _, true;
     collaborator := λ _, None |}.

(** ** Further notions for the tasks and the orchestrator *)

(** The directories a trace creates. *)
Definition made_directories (trace : list Event) : list string :=
  omap (λ e, match e with MakeDirs path => Some path | _ => None end) trace.

(** The chapter announcements of a trace: title, ordinal and total. *)
Definition chapter_announcements (trace : list Event)
  : list (string * nat * nat) :=
  omap (λ e, match e with
             | Log INFO (MsgDownloadingChapter t i n) => Some (t, i, n)
             | _ => None
             end) trace.

(** Events that are neither a directory creation nor a request. *)
Definition quiet (e : Event) : Prop :=
  match e with
  | MakeDirs _ | HttpGet _ => False
  | _ => True
  end.

(** Events other than a chapter announcement. *)
Definition no_announcement (e : Event) : Prop :=
  match e with
  | Log _ (MsgDownloadingChapter _ _ _) => False
  | _ => True
  end.

(** A collaborator is never handed an empty list of captions or of
    supplementary assets. *)
Definition nonempty_payload (e : Event) : Prop :=
  match e with
  | CallDownloadCaptions caps _ _ _ => caps ≠ []
  | CallProcessAssets assets _ _ _ => assets ≠ []
  | _ => True
  end.

Definition ex_asset : Asset :=
  {| asset_id := 5; asset_filename := "notes.pdf" |}.

(** The caption collaborator fails; everything else works. *)
Definition ex_captions_fail_env : Env :=
  {| CURRICULUM_URL := λ _, "https://api/page1";
     LECTURE_URL := λ c l, "https://api/lectures/" +:+ pretty l;
     COURSE_DIR := "out/Course";
     HOME_DIR := "home";
     captions := ["en_US"];
     sanitize_filename := λ s, s;
     get_listing := λ _, NoReply;
     get_lecture := λ _, Json ex_detail_captions;
     makedirs := λ _, DirCreated;
     writable := λ _, true;
     collaborator := λ e,
       match e with
       | CallDownloadCaptions _ _ _ _ => Some (PyException "HTTPError")
       | _ => None
       end |}.

(** ** The start of [main]: lines 217-294 and 326-330

    The messages of these lines, kept apart from those of the parts
    above. *)
Inductive Notice :=
| MsgNeedIdOrUrl
| MsgBothIdAndUrl
| MsgBadKey
| MsgNoCookieOption
| MsgCookieMissing
| MsgNoFfmpeg
| MsgNoDownloader
| MsgCookiesUnreadable
| MsgCourseIdExtracted (number : string)
| MsgNoNumberInImage
| MsgNoImageTag
| MsgCurriculumFailed (e : string).

(** What [main] does before the download: a message, the help text, an
    external program run by [subprocess.run], the cookie file read by
    [Udemy()], or an event of the parts above. *)
Inductive Act :=
| Note (lvl : Level) (n : Notice)
| PrintHelp
| RunTool (argv : list string)
| LoadCookies (path : option string)
| Did (e : Event).

Global Instance Notice_eq_dec : EqDecision Notice.
Proof. solve_decision. Defined.

Global Instance Act_eq_dec : EqDecision Act.
Proof. solve_decision. Defined.

Definition Start (A : Type) : Type := list Act * Outcome A.

(** [subprocess.run(argv, ..., check=True)]: the exit status of the
    program, or the exception raised when the program could not be
    started ([FileNotFoundError] when there is no such executable). *)
Inductive ToolOutcome :=
| Exited (status : Z)
| NotStarted (exn : string).

(** What these lines take from outside: the programs on the machine,
    whether [MozillaCookieJar(cookie_path).load()] succeeds, and the
    value [constants] gives to [cookie_path]. *)
Record Host := {
  run_tool : list string → ToolOutcome;
  cookies_load : option string → bool;
  initial_cookie_path : option string
}.

Definition FFMPEG : list string := ["ffmpeg"; "-version"].
Definition N_M3U8DL_RE : list string := ["n_m3u8dl-re"; "--version"].

(** [check_prerequisites], lines 217-239.  Only [CalledProcessError],
    raised for an exit status other than 0, is caught. *)
Definition check_prerequisites (env : Env) (host : Host) (fs : Files)
    (cookie_path : option string) : Start bool :=
  if negb (truthy cookie_path) &&
     negb (isfile fs (path_join (HOME_DIR env) "cookies.txt"))
  then ([Note ERROR MsgNoCookieOption], Returned false)
  else if truthy cookie_path && negb (isfile fs (default "" cookie_path))
  then ([Note ERROR MsgCookieMissing], Returned false)
  else
    match run_tool host FFMPEG with
    | NotStarted exn => ([RunTool FFMPEG], Raised (PyException exn))
    | Exited status =>
      if negb (status =? 0)
      then ([RunTool FFMPEG; Note ERROR MsgNoFfmpeg], Returned false)
      else
        match run_tool host N_M3U8DL_RE with
        | NotStarted exn =>
          ([RunTool FFMPEG; RunTool N_M3U8DL_RE], Raised (PyException exn))
        | Exited status' =>
          if negb (status' =? 0)
          then ([RunTool FFMPEG; RunTool N_M3U8DL_RE;
                 Note ERROR MsgNoDownloader], Returned false)
          else ([RunTool FFMPEG; RunTool N_M3U8DL_RE], Returned true)
        end
    end.

(** [if args.id:] for an [int] or [None]. *)
Definition id_given (args : Args) : bool :=
  match arg_id args with
  | Some i => negb (i =? 0)
  | None => false
  end.

(** [":" in key] *)
Definition has_colon (key : string) : bool :=
  existsb (Ascii.eqb ":"%char) (String.list_ascii_of_string key).

(** [key is not None and not ":" in key] *)
Definition key_malformed (args : Args) : bool :=
  match arg_key args with
  | Some key => negb (has_colon key)
  | None => false
  end.

(** [cookie_path] after lines 275-276. *)
Definition cookie_path_of (host : Host) (args : Args) : option string :=
  if negb (String.eqb (arg_cookies args) "") then Some (arg_cookies args)
  else initial_cookie_path host.

(** Lines 258-281 of [main], from the parsed command line to the
    [Udemy()] object; [argc] is [len(sys.argv)].  The result is [false]
    when [main] returns at one of its checks, [true] when it goes on. *)
Definition main_start (env : Env) (host : Host) (fs : Files) (argc : nat)
    (args : Args) : Start bool :=
  if (argc =? 1)%nat then ([PrintHelp], Raised (SystemExit 0))
  else if negb (truthy (arg_url args)) && negb (id_given args)
  then ([Note ERROR MsgNeedIdOrUrl], Returned false)
  else
    let warned :=
      if truthy (arg_url args) && id_given args
      then [Note WARNING MsgBothIdAndUrl] else [] in
    if key_malformed args
    then (warned ++ [Note ERROR MsgBadKey], Returned false)
    else
      let cookie_path := cookie_path_of host args in
      let checked := check_prerequisites env host fs cookie_path in
      match checked.2 with
      | Returned true =>
        if cookies_load host cookie_path
        then (warned ++ checked.1 ++ [LoadCookies cookie_path], Returned true)
        else (warned ++ checked.1 ++
              [LoadCookies cookie_path; Note CRITICAL MsgCookiesUnreadable],
              Raised (SystemExit 1))
      | Returned false => (warned ++ checked.1, Returned false)
      | Raised e => (warned ++ checked.1, Raised e)
      end.

(** Lines 283-286: where the course id comes from. *)
Inductive IdSource :=
| FromId (course_id : Z)
| FromUrl (course_url : option string).

Definition course_id_source (args : Args) : IdSource :=
  if id_given args then FromId (default 0 (arg_id args))
  else FromUrl (arg_url args).

(** [s.split(",")]: the text before the first comma and the fields
    after it. *)
Fixpoint split_commas (s : string) : string * list string :=
  match s with
  | EmptyString => (EmptyString, [])
  | String c rest =>
    let (first, others) := split_commas rest in
    if Ascii.eqb c ","%char then (EmptyString, first :: others)
    else (String c first, others)
  end.

Definition str_split (s : string) : list string :=
  let (first, others) := split_commas s in first :: others.

(** Lines 288-294.  [str.split] does not raise on a string, the
    [except] branch has nothing to catch. *)
Definition main_captions (args : Args) : list string :=
  if truthy (arg_captions args) then str_split (default "" (arg_captions args))
  else ["en_US"].

(** Lines 325-330: the curriculum fetch inside
    [try ... except Exception], which lets [SystemExit] through. *)
Definition main_fetch (env : Env) (fuel : nat) (course_id : Z)
  : option (Start Curriculum) :=
  match fetch_course_curriculum env fuel course_id with
  | None => None
  | Some (trace, Returned course_curriculum) =>
    Some (Did <$> trace, Returned course_curriculum)
  | Some (trace, Raised (PyException e)) =>
    Some ((Did <$> trace) ++ [Note CRITICAL (MsgCurriculumFailed e)],
          Raised (SystemExit 1))
  | Some (trace, Raised (SystemExit code)) =>
    Some (Did <$> trace, Raised (SystemExit code))
  end.

(** ** Course id from the course page: [Udemy.extract_course_id]

    The two regular expressions of lines 46 and 50 are sequences of
    literal characters and of greedy repetitions of a character class,
    one of which is the group in parentheses. *)
Inductive Atom :=
| Chr (c : ascii)
| Plus (cls : ascii → bool) (group : bool).

Abbreviation Pattern := (list Atom).

Definition lit (s : string) : Pattern :=
  Chr <$> String.list_ascii_of_string s.

(** The backtracking match of a pattern at the head of a text: a
    repetition first tries one more character and gives characters back
    only when the rest of the pattern does not match.  The result is the
    text of the group. *)
Fixpoint match_here (pat : Pattern) : text → option text :=
  match pat with
  | [] => λ _, Some []
  | Chr c :: pat' => λ s,
    match s with
    | x :: r => if Ascii.eqb x c then match_here pat' r else None
    | [] => None
    end
  | Plus cls group :: pat' =>
    fix more (s : text) : option text :=
      match s with
      | x :: r =>
        if cls x then
          match more r with
          | Some g => Some (if group then x :: g else g)
          | None =>
            match match_here pat' r with
            | Some g => Some (if group then x :: g else g)
            | None => None
            end
          end
        else None
      | [] => None
      end
  end.

(** [re.search(pat, s).group(1)]: the match at the first position that
    has one. *)
Fixpoint search (pat : Pattern) (s : text) : option text :=
  match match_here pat s with
  | Some g => Some g
  | None =>
    match s with
    | [] => None
    | _ :: r => search pat r
    end
  end.

(** The class of white space on a [str], among the code points below
    256, and the class of decimal digits there. *)
Definition is_space (c : ascii) : bool :=
  let n := N_of_ascii c in
  ((9 <=? n) && (n <=? 13) || (28 <=? n) && (n <=? 32) ||
   (n =? 133) || (n =? 160))%N.

Definition is_decimal (c : ascii) : bool :=
  let n := N_of_ascii c in ((48 <=? n) && (n <=? 57))%N.

Definition not_quote (c : ascii) : bool := negb (Ascii.eqb c DQUOTE).

(** Line 46: the [og:image] tag with its content in the group. *)
Definition META : Pattern :=
  lit "<meta" ++ [Plus is_space false] ++ lit "property=" ++ [Chr DQUOTE] ++
  lit "og:image" ++ [Chr DQUOTE; Plus is_space false] ++ lit "content=" ++
  [Chr DQUOTE; Plus not_quote true; Chr DQUOTE].

(** Line 50: a slash, digits in the group, an underscore. *)
Definition NUMBER : Pattern :=
  [Chr "/"%char; Plus is_decimal true; Chr "_"%char].

(** Lines 46-60, from the decoded page [content_str] on. *)
Definition extract_course_id (content_str : string) : Start string :=
  let meta_match := search META (String.list_ascii_of_string content_str) in
  match meta_match with
  | Some url =>
    let number_match := search NUMBER url in
    match number_match with
    | Some number =>
      ([Note INFO (MsgCourseIdExtracted (String.string_of_list_ascii number))],
       Returned (String.string_of_list_ascii number))
    | None => ([Note CRITICAL MsgNoNumberInImage], Raised (SystemExit 1))
    end
  | None => ([Note CRITICAL MsgNoImageTag], Raised (SystemExit 1))
  end.

(** The [og:image] tag with the given white space and content. *)
Definition og_image_tag (ws1 ws2 url : text) : text :=
  String.list_ascii_of_string "<meta" ++ ws1 ++
  String.list_ascii_of_string "property=" ++ [DQUOTE] ++
  String.list_ascii_of_string "og:image" ++ [DQUOTE] ++ ws2 ++
  String.list_ascii_of_string "content=" ++ [DQUOTE] ++ url ++ [DQUOTE].

(** Non-empty runs of white space, of digits. *)
Definition blank (ws : text) : Prop := ws ≠ [] ∧ Forall (λ c, is_space c) ws.

Definition digits (ds : text) : Prop := ds ≠ [] ∧ Forall (λ c, is_decimal c) ds.

(** ** Notions for the start of [main] *)

Definition tools_run (trace : list Act) : list (list string) :=
  omap (λ a, match a with RunTool argv => Some argv | _ => None end) trace.

Definition notes (trace : list Act) : list (Level * Notice) :=
  omap (λ a, match a with Note lvl n => Some (lvl, n) | _ => None end) trace.

(** An act that reaches outside the program. *)
Definition outward (a : Act) : bool :=
  match a with
  | RunTool _ | LoadCookies _ | Did _ => true
  | Note _ _ | PrintHelp => false
  end.

(** A CRITICAL message of either kind. *)
Definition is_critical (a : Act) : bool :=
  match a with
  | Note CRITICAL _ | Did (Log CRITICAL _) => true
  | _ => false
  end.

Definition comma_free (s : string) : Prop :=
  ","%char ∉ String.list_ascii_of_string s.

Definition commas (s : string) : nat :=
  length (filter (λ c, c = ","%char) (String.list_ascii_of_string s)).

Definition ex_host : Host :=
  {| run_tool := λ _, Exited 0;
     cookies_load := λ _, true;
     initial_cookie_path := None |}.

(** [ffmpeg] is not installed. *)
Definition ex_bare_host : Host :=
  {| run_tool := λ argv,
       if bool_decide (argv = FFMPEG) then NotStarted "FileNotFoundError"
       else Exited 0;
     cookies_load := λ _, true;
     initial_cookie_path := None |}.

Definition ex_course_page : string :=
  String.string_of_list_ascii
    (String.list_ascii_of_string "<html><head>" ++
     og_image_tag [SPACE] [NEWLINE; SPACE]
       (String.list_ascii_of_string
          "https://img-c.udemycdn.com/course/480x270/567828_67d0.jpg") ++
     String.list_ascii_of_string "></head></html>").

(** The text after a repetition does not go on with the class. *)
Definition stops (cls : ascii → bool) (r : text) : Prop :=
  match r with
  | [] => True
  | y :: _ => cls y = false
  end.

(** The text starts with an [og:image] tag of content [url]; it starts
    with a slash, the digits [ds] and an underscore. *)
Definition tag_at (url : text) (s : text) : Prop :=
  ∃ ws1 ws2 after,
    s = og_image_tag ws1 ws2 url ++ after ∧ blank ws1 ∧ blank ws2 ∧
    url ≠ [] ∧ DQUOTE ∉ url.

Definition number_at (ds : text) (s : text) : Prop :=
  ∃ q, s = "/"%char :: ds ++ "_"%char :: q ∧ digits ds.

(** [g] is what [P] finds at the first place of [s] where it finds
    anything. *)
Definition first_match (P : text → text → Prop) (s : text) (g : text)
  : Prop :=
  ∃ before rest,
    s = before ++ rest ∧ P g rest ∧
    ∀ pre r g', before = pre ++ r → r ≠ [] → ¬ P g' (r ++ rest).

(** The file [check_prerequisites] looks for. *)
Definition cookie_file (env : Env) (cookie_path : option string) : string :=
  if truthy cookie_path then default "" cookie_path
  else path_join (HOME_DIR env) "cookies.txt".

(** What [os.path.join] puts between its arguments. *)
Definition sep_after (a : string) : string :=
  if String.eqb a "" || ends_with_sep a then "" else "/".

(** The directory of a child of the chapter numbered [mindex]. *)
Definition child_directory (env : Env) (mindex : nat) (chapter : Chapter)
    (child : RawItem) : string :=
  path_join (chapter_folder env mindex chapter) (pretty (item_id child)).

(** A collaborator call. *)
Definition is_call (e : Event) : bool :=
  match e with
  | CallDownloadCaptions _ _ _ _ | CallProcessAssets _ _ _ _
  | CallDownloadM3U8 _ _ _ | CallDownloadMPD _ _ _ _ => true
  | _ => false
  end.

(** The three ways a task ends with the exception [e], told apart by
    the last event of its trace: an ERROR or CRITICAL message before
    [sys.exit(1)]; the collaborator call that raised [e]; or the INFO
    line of the lecture, when the server's reply is a JSON value from
    which the captions cannot be read and reading it raises [e]. *)
Definition culprit (env : Env) (e : Exn) (trace : list Event) : Prop :=
  (e = SystemExit 1 ∧
   ∃ msg, last trace = Some (Log ERROR msg) ∨
          last trace = Some (Log CRITICAL msg)) ∨
  (∃ c, is_call c = true ∧ last trace = Some c ∧
        collaborator env c = Some e) ∨
  (∃ url exn title lindex n,
     get_lecture env url = JsonOther exn ∧ e = PyException exn ∧
     HttpGet url ∈ trace ∧
     last trace = Some (Log INFO (MsgDownloadingLecture title lindex n))).

Definition accountable {A} (env : Env) (m : M A) : Prop :=
  ∀ e, m.2 = Raised e → culprit env e m.1.

(** A line break or a printable ASCII character. *)
Definition plain (c : ascii) : bool :=
  Ascii.eqb c NEWLINE ||
  ((32 <=? N_of_ascii c)%N && (N_of_ascii c <=? 126)%N).

Definition files_written (trace : list Event) : list (string * string) :=
  omap (λ e, match e with
             | WriteFile path contents => Some (path, contents)
             | _ => None
             end) trace.

(** The program ran and exited with status 0. *)
Definition succeeded (outcome : ToolOutcome) : bool :=
  match outcome with
  | Exited status => status =? 0
  | NotStarted _ => false
  end.

(** * Properties *)

(** ** Organizer *)

Example organize_scenario_two_chapters :
  organize_curriculum [ex_A; ex_L1; ex_P1; ex_B; ex_L2] =
  ([append_child ex_P1 (append_child ex_L1 (new_chapter ex_A));
    append_child ex_L2 (new_chapter ex_B)],
   [Log INFO (MsgDiscoveredChapters 2); Log INFO (MsgDiscoveredLectures 2)]).
Proof. reflexivity. Qed.

Example organize_scenario_orphan :
  organize_curriculum [ex_L0; ex_A] =
  ([new_chapter ex_A],
   [Log WARNING MsgOrphanItem;
    Log INFO (MsgDiscoveredChapters 1); Log INFO (MsgDiscoveredLectures 0)]).
Proof. reflexivity. Qed.

Lemma chapter_not_lecture_like item :
  is_chapter item = true → is_lecture_like item = false.
Proof.
  unfold is_chapter, is_lecture_like, is_lecture, is_practice.
  intros H%String.eqb_eq. by rewrite H.
Qed.

Lemma flatten_snoc cur c :
  flatten (cur ++ [c]) = flatten cur ++ inl (header c) :: (inr <$> ch_children c).
Proof.
  unfold flatten. rewrite bind_app. simpl. by rewrite app_nil_r.
Qed.

Lemma alter_last (f : Chapter → Chapter) cs c :
  alter f (length cs) (cs ++ [c]) = cs ++ [f c].
Proof.
  induction cs as [|c' cs IH]; simpl; [done|]. f_equal. exact IH.
Qed.

Lemma lecture_filter_singleton item :
  length (filter (λ i, is_lecture i) [item]) = if is_lecture item then 1%nat else 0%nat.
Proof.
  rewrite filter_cons, filter_nil. destruct (is_lecture item); done.
Qed.

Lemma org_step_open st item :
  org_open st →
  org_open (org_step st item) ∧
  flatten (curriculum (org_step st item)) =
    flatten (curriculum st) ++ option_list (classify item) ∧
  total_lectures (org_step st item) =
    (total_lectures st + length (filter (λ i, is_lecture i) [item]))%nat ∧
  org_log (org_step st item) = org_log st.
Proof.
  intros (cs & c & Hcur & Hcc). rewrite lecture_filter_singleton.
  unfold org_step, classify.
  destruct (is_chapter item) eqn:Hch.
  - cbn [curriculum current_chapter total_lectures org_log].
    pose proof (chapter_not_lecture_like _ Hch) as Hll.
    unfold is_lecture_like in Hll. apply orb_false_iff in Hll as [Hl _].
    rewrite Hl, flatten_snoc. split_and!; [|done|lia|done].
    by exists (curriculum st), (new_chapter item).
  - destruct (is_lecture_like item) eqn:Hll.
    + rewrite Hcc. cbn [curriculum current_chapter total_lectures org_log].
      rewrite Hcur, alter_last. split_and!; [| | |done].
      * by exists cs, (append_child item c).
      * rewrite !flatten_snoc. simpl. rewrite fmap_app. simpl.
        by rewrite <- app_assoc.
      * destruct (is_lecture item); lia.
    + unfold is_lecture_like in Hll. apply orb_false_iff in Hll as [Hl _].
      rewrite Hl. simpl. rewrite app_nil_r.
      split_and!; [by exists cs, c|done|lia|done].
Qed.

Lemma lecture_filter_cons item items :
  length (filter (λ i, is_lecture i) (item :: items)) =
  (length (filter (λ i, is_lecture i) [item]) +
   length (filter (λ i, is_lecture i) items))%nat.
Proof.
  change (item :: items) with ([item] ++ items).
  by rewrite filter_app, length_app.
Qed.

Lemma org_loop_open items : ∀ st,
  org_open st →
  org_open (foldl org_step st items) ∧
  flatten (curriculum (foldl org_step st items)) =
    flatten (curriculum st) ++ omap classify items ∧
  total_lectures (foldl org_step st items) =
    (total_lectures st + length (filter (λ i, is_lecture i) items))%nat ∧
  org_log (foldl org_step st items) = org_log st.
Proof.
  induction items as [|item items IH]; intros st Hst.
  - simpl. rewrite app_nil_r. split_and!; [done..|lia|done].
  - destruct (org_step_open st item Hst) as (Ho & Hf & Ht & Hl).
    destruct (IH _ Ho) as (Ho' & Hf' & Ht' & Hl').
    rewrite lecture_filter_cons. cbn [foldl].
    split_and!; [done| |lia|congruence].
    rewrite Hf', Hf, <- app_assoc. f_equal. simpl.
    destruct (classify item); done.
Qed.

Lemma org_loop_closed items : ∀ st,
  org_closed st →
  flatten (curriculum (foldl org_step st items)) =
    omap classify (drop_orphans items) ∧
  total_lectures (foldl org_step st items) =
    (total_lectures st +
     length (filter (λ i, is_lecture i) (drop_orphans items)))%nat ∧
  org_log (foldl org_step st items) =
    org_log st ++ ((λ _, Log WARNING MsgOrphanItem) <$> orphan_items items) ∧
  (existsb is_chapter items = false → org_closed (foldl org_step st items)) ∧
  (existsb is_chapter items = true → org_open (foldl org_step st items)).
Proof.
  induction items as [|item items IH]; intros st [Hcur Hcc].
  - simpl. rewrite Hcur, app_nil_r. split_and!; [done|lia|done|done|done].
  - cbn [foldl drop_orphans orphan_items existsb].
    destruct (is_chapter item) eqn:Hch.
    + pose proof (chapter_not_lecture_like _ Hch) as Hll.
      unfold is_lecture_like in Hll. apply orb_false_iff in Hll as [Hlec _].
      assert (org_step st item =
              {| curriculum := [new_chapter item]; current_chapter := Some 0%nat;
                 total_lectures := total_lectures st; org_log := org_log st |})
        as Hstep.
      { unfold org_step. by rewrite Hch, Hcur. }
      assert (org_open (org_step st item)) as Ho.
      { rewrite Hstep. by exists [], (new_chapter item). }
      destruct (org_loop_open items _ Ho) as (Ho' & Hf & Ht & Hl).
      rewrite Hf, Ht, Hl, lecture_filter_cons, lecture_filter_singleton.
      rewrite Hstep, Hlec. cbn [curriculum total_lectures org_log omap list_omap].
      unfold classify at 2. rewrite Hch, app_nil_r.
      split_and!; [done|lia|done|done|].
      intros _. by rewrite <- Hstep.
    + assert (org_closed (org_step st item) ∧
              total_lectures (org_step st item) = total_lectures st ∧
              org_log (org_step st item) =
                org_log st ++ (if is_lecture_like item
                               then [Log WARNING MsgOrphanItem] else [])) as (Hc & Ht & Hl).
      { unfold org_step. rewrite Hch. destruct (is_lecture_like item).
        - rewrite Hcc. done.
        - by rewrite app_nil_r. }
      destruct (IH _ Hc) as (IH1 & IH2 & IH3 & IH4 & IH5).
      rewrite IH1, IH2, IH3, Ht, Hl. simpl. split_and!; [done..| | |].
      * destruct (is_lecture_like item); simpl; by rewrite <- ?app_assoc, ?app_nil_r.
      * done.
      * done.
Qed.

(** Only the curriculum and the cursor decide how the curriculum grows;
    the counter and the log are write-only. *)
Lemma org_loop_cur_indep items : ∀ st st',
  curriculum st = curriculum st' →
  current_chapter st = current_chapter st' →
  curriculum (foldl org_step st items) = curriculum (foldl org_step st' items).
Proof.
  induction items as [|item items IH]; intros st st' Hc Hi; [done|].
  cbn [foldl]. apply IH; unfold org_step;
    destruct (is_chapter item), (is_lecture_like item);
    rewrite <- ?Hc, <- ?Hi; try done;
    destruct (current_chapter st); done.
Qed.

Lemma org_loop_from_open post : ∀ st cs c,
  curriculum st = cs ++ [c] →
  current_chapter st = Some (length cs) →
  curriculum (foldl org_step st post) =
    cs ++ append_children (orphan_items post) c
       :: curriculum (org_loop (drop_orphans post)).
Proof.
  induction post as [|item post IH]; intros st cs c Hcur Hcc; [done|].
  cbn [foldl orphan_items drop_orphans].
  destruct (is_chapter item) eqn:Hch.
  - rewrite (IH (org_step st item) (cs ++ [c]) (new_chapter item)).
    + unfold org_loop at 2. cbn [foldl].
      rewrite (IH (org_step org_init item) [] (new_chapter item)).
      * by rewrite <- app_assoc.
      * unfold org_step. by rewrite Hch.
      * unfold org_step. by rewrite Hch.
    + unfold org_step. rewrite Hch. cbn [curriculum]. by rewrite Hcur.
    + unfold org_step. rewrite Hch. cbn [current_chapter].
      by rewrite Hcur, length_app, Nat.add_1_r.
  - destruct (is_lecture_like item) eqn:Hll.
    + rewrite (IH (org_step st item) cs (append_child item c)); [done| |].
      * unfold org_step. rewrite Hch, Hll, Hcc. cbn [curriculum].
        by rewrite Hcur, alter_last.
      * unfold org_step. by rewrite Hch, Hll, Hcc.
    + apply IH; unfold org_step; by rewrite Hch, Hll.
Qed.

Lemma org_loop_closed_cur post st :
  org_closed st →
  curriculum (foldl org_step st post) = curriculum (org_loop post).
Proof.
  intros [Hc Hi]. apply org_loop_cur_indep; by rewrite ?Hc, ?Hi.
Qed.

Lemma org_log_orphans items :
  org_log (org_loop items) =
  (λ _, Log WARNING MsgOrphanItem) <$> orphan_items items.
Proof.
  destruct (org_loop_closed items org_init) as (_ & _ & Hl & _); [done|].
  exact Hl.
Qed.

Lemma orphan_items_app pre post :
  existsb is_chapter pre = false →
  orphan_items (pre ++ post) = orphan_items pre ++ orphan_items post.
Proof.
  induction pre as [|x pre IH]; [done|]. cbn [existsb app orphan_items].
  intros [Hx Hpre]%orb_false_iff. rewrite Hx.
  destruct (is_lecture_like x); rewrite IH; done.
Qed.

Lemma drop_orphans_app pre post :
  existsb is_chapter pre = false →
  drop_orphans (pre ++ post) = drop_orphans post.
Proof.
  induction pre as [|x pre IH]; [done|]. cbn [existsb app drop_orphans].
  intros [Hx Hpre]%orb_false_iff. rewrite Hx. by apply IH.
Qed.

Lemma filter_chapter_drop_orphans items :
  filter (λ i, is_chapter i) (drop_orphans items) =
  filter (λ i, is_chapter i) items.
Proof.
  induction items as [|x items IH]; [done|]. cbn [drop_orphans].
  destruct (is_chapter x) eqn:Hx; [done|].
  rewrite IH, (filter_cons _ x). rewrite Hx. done.
Qed.

Lemma orphan_items_lecture_like items :
  existsb is_chapter items = false →
  orphan_items items = filter (λ i, is_lecture_like i) items.
Proof.
  induction items as [|x items IH]; [done|]. cbn [existsb orphan_items].
  intros [Hx Hpre]%orb_false_iff. rewrite Hx, filter_cons.
  destruct (is_lecture_like x); simpl; by rewrite IH.
Qed.

Lemma flatten_chapters cur : omap get_chapter (flatten cur) = header <$> cur.
Proof.
  induction cur as [|c cur IH]; [done|].
  change (flatten (c :: cur))
    with ((inl (header c) :: (inr <$> ch_children c)) ++ flatten cur).
  rewrite omap_app, IH. cbn. f_equal.
  induction (ch_children c) as [|i l IHl]; [done|]. exact IHl.
Qed.

Lemma flatten_children cur :
  omap get_child (flatten cur) = concat (ch_children <$> cur).
Proof.
  induction cur as [|c cur IH]; [done|].
  change (flatten (c :: cur))
    with ((inl (header c) :: (inr <$> ch_children c)) ++ flatten cur).
  rewrite omap_app, IH. cbn. f_equal.
  induction (ch_children c) as [|i l IHl]; [done|]. cbn. by rewrite IHl.
Qed.

Lemma classify_chapters (items : list RawItem) :
  omap get_chapter (omap classify items) =
  new_chapter <$> filter (λ i, is_chapter i) items.
Proof.
  induction items as [|x items IH]; [done|].
  change (x :: items) with ([x] ++ items).
  rewrite !omap_app, filter_app, fmap_app, IH. f_equal.
  cbn. unfold classify.
  destruct (is_chapter x); [done|]. destruct (is_lecture_like x); done.
Qed.

Lemma classify_children (items : list RawItem) :
  omap get_child (omap classify items) =
  filter (λ i, is_lecture_like i && negb (is_chapter i)) items.
Proof.
  induction items as [|x items IH]; [done|].
  change (x :: items) with ([x] ++ items).
  rewrite !omap_app, filter_app, IH. f_equal.
  cbn. unfold classify.
  destruct (is_chapter x); [by rewrite andb_false_r|].
  destruct (is_lecture_like x); done.
Qed.

Lemma lecture_like_not_chapter item :
  is_lecture_like item = true → is_chapter item = false.
Proof.
  intros H. destruct (is_chapter item) eqn:Hch; [|done].
  apply chapter_not_lecture_like in Hch. congruence.
Qed.

Lemma filter_ext_bool (f g : RawItem → bool) (l : list RawItem) :
  (∀ x, f x = g x) → filter (λ i, f i) l = filter (λ i, g i) l.
Proof.
  intros Hfg. apply list_filter_iff. intros x. by rewrite Hfg.
Qed.

Lemma filter_lecture_of_lecture_like (l : list RawItem) :
  filter (λ i, is_lecture i) (filter (λ i, is_lecture_like i) l) =
  filter (λ i, is_lecture i) l.
Proof.
  apply list_filter_filter_l. intros x Hx. unfold is_lecture_like.
  destruct (is_lecture x); done.
Qed.

Lemma reported_lectures_total items :
  reported_lectures items = [total_lectures (org_loop items)].
Proof.
  unfold reported_lectures, organize_curriculum. cbn [snd].
  rewrite org_log_orphans, omap_app. cbn.
  induction (orphan_items items) as [|x l IH]; [done|]. exact IH.
Qed.

Lemma reported_anomalies_orphans items :
  reported_anomalies items =
  (λ _, Log WARNING MsgOrphanItem) <$> orphan_items items.
Proof.
  unfold reported_anomalies, organize_curriculum. cbn [snd].
  rewrite org_log_orphans, filter_app.
  rewrite !filter_cons_False, filter_nil, app_nil_r by done.
  induction (orphan_items items) as [|x l IH]; [done|].
  rewrite fmap_cons, filter_cons_True by done. by rewrite IH.
Qed.

Lemma organize_flatten items :
  flatten (organize_curriculum items).1 = omap classify (drop_orphans items).
Proof.
  destruct (org_loop_closed items org_init) as (Hf & _); [done|]. exact Hf.
Qed.

Lemma organize_headers items :
  header <$> (organize_curriculum items).1 =
  new_chapter <$> filter (λ i, is_chapter i) items.
Proof.
  by rewrite <- flatten_chapters, organize_flatten, classify_chapters,
    filter_chapter_drop_orphans.
Qed.

Lemma organize_children items :
  concat (ch_children <$> (organize_curriculum items).1) =
  filter (λ i, is_lecture_like i) (drop_orphans items).
Proof.
  rewrite <- flatten_children, organize_flatten, classify_children.
  apply filter_ext_bool. intros x.
  destruct (is_lecture_like x) eqn:Hx; [|done].
  by rewrite (lecture_like_not_chapter _ Hx).
Qed.

Lemma org_loop_total items :
  total_lectures (org_loop items) =
  length (filter (λ i, is_lecture i) (drop_orphans items)).
Proof.
  destruct (org_loop_closed items org_init) as (_ & Ht & _); [done|]. exact Ht.
Qed.

(** C2, as the code has it.  The chapters of the output are the chapter
    items of the input, in input order; reading the output chapter by
    chapter, header then children, gives back exactly the recognised
    items of the input from the first chapter item on, in input order;
    and the reported lecture count is the number of lecture-class items
    from the first chapter item on, which is the number of lecture-class
    children in the output (practice items and items that precede every
    chapter are not counted). *)
Theorem organize_preserves_order_and_counts_attached (items : list RawItem) :
  let cur := (organize_curriculum items).1 in
  flatten cur = omap classify (drop_orphans items) ∧
  header <$> cur = new_chapter <$> filter (λ i, is_chapter i) items ∧
  concat (ch_children <$> cur) =
    filter (λ i, is_lecture_like i) (drop_orphans items) ∧
  reported_lectures items =
    [length (filter (λ i, is_lecture i) (drop_orphans items))] ∧
  reported_lectures items =
    [length (filter (λ i, is_lecture i) (concat (ch_children <$> cur)))].
Proof.
  intros cur. split_and!.
  - apply organize_flatten.
  - apply organize_headers.
  - apply organize_children.
  - by rewrite reported_lectures_total, org_loop_total.
  - unfold cur.
    by rewrite reported_lectures_total, org_loop_total, organize_children,
      filter_lecture_of_lecture_like.
Qed.

(** C2 as stated fails: an orphan lecture is a lecture-class item of the
    input but is not counted. *)
Lemma organize_lecture_count_counterexample :
  reported_lectures [ex_L0; ex_A] = [0%nat] ∧
  length (filter (λ i, is_lecture i) [ex_L0; ex_A]) = 1%nat ∧
  reported_lectures [ex_L0; ex_A] ≠
    [length (filter (λ i, is_lecture i) [ex_L0; ex_A])].
Proof. split_and!; [reflexivity|reflexivity|]. intros [=]. Qed.

Lemma org_loop_app pre post :
  org_loop (pre ++ post) = foldl org_step (org_loop pre) post.
Proof. unfold org_loop. by rewrite foldl_app. Qed.

Lemma org_loop_pre_closed pre :
  existsb is_chapter pre = false → org_closed (org_loop pre).
Proof.
  intros H. destruct (org_loop_closed pre org_init) as (_ & _ & _ & Hc & _);
    [done|]. by apply Hc.
Qed.

Lemma org_step_orphan st item :
  org_closed st → is_lecture_like item = true →
  org_step st item =
  {| curriculum := curriculum st; current_chapter := None;
     total_lectures := total_lectures st;
     org_log := org_log st ++ [Log WARNING MsgOrphanItem] |}.
Proof.
  intros [Hc Hi] Hll. unfold org_step.
  by rewrite (lecture_like_not_chapter _ Hll), Hll, Hi.
Qed.

Lemma warnings_insert (A B : list RawItem) (x : RawItem) :
  (λ _, Log WARNING MsgOrphanItem) <$> (A ++ x :: B) =
  Log WARNING MsgOrphanItem :: ((λ _, Log WARNING MsgOrphanItem) <$> (A ++ B)).
Proof.
  induction A as [|a A IH]; [done|]. cbn [app]. rewrite !fmap_cons, IH. done.
Qed.

Lemma append_children_eq more c :
  append_children more c =
  {| ch_id := ch_id c; ch_title := ch_title c;
     ch_description := ch_description c;
     ch_is_published := ch_is_published c;
     ch_children := ch_children c ++ more |}.
Proof.
  revert c. induction more as [|x more IH]; intros c.
  - destruct c. cbn. by rewrite app_nil_r.
  - cbn [append_children foldl]. fold (append_children more (append_child x c)).
    rewrite IH. cbn. by rewrite <- app_assoc.
Qed.

(** The chapter opened by [chap], with the lecture and practice items
    that follow it up to the next chapter item as its children. *)
Lemma organize_at_chapter pre1 chap rest :
  is_chapter chap = true →
  (organize_curriculum (pre1 ++ chap :: rest)).1 =
  (organize_curriculum pre1).1 ++
  {| ch_id := item_id chap; ch_title := item_title chap;
     ch_description := item_description chap;
     ch_is_published := item_is_published chap;
     ch_children := orphan_items rest |}
  :: (organize_curriculum (drop_orphans rest)).1.
Proof.
  intros Hch. unfold organize_curriculum. cbn [fst].
  rewrite org_loop_app. cbn [foldl].
  rewrite (org_loop_from_open _ _ (curriculum (org_loop pre1))
             (new_chapter chap)).
  - by rewrite append_children_eq.
  - unfold org_step. by rewrite Hch.
  - unfold org_step. by rewrite Hch.
Qed.

(** C3.  A lecture or practice item met while no chapter is open is
    dropped: the output curriculum is the one obtained without the item,
    no chapter is made up for it, it is not counted, and one more anomaly
    warning is logged.  A lecture or practice item met after a chapter
    item [chap], with no other chapter item in between, becomes a child
    of the chapter opened by [chap] and of no other: the children of that
    chapter are the lecture and practice items between [chap] and the
    item, the item, and those that follow it up to the next chapter item;
    without the item the curriculum is the same but for this one child;
    the chapters opened before [chap] and the ones opened after the item
    are what they are without the item, and nothing is reported. *)
Theorem organize_attaches_to_open_chapter_or_drops
    (pre post : list RawItem) (item : RawItem) :
  is_lecture_like item = true →
  (existsb is_chapter pre = false →
     (organize_curriculum (pre ++ item :: post)).1 =
       (organize_curriculum (pre ++ post)).1 ∧
     length (organize_curriculum (pre ++ item :: post)).1 =
       length (filter (λ i, is_chapter i) (pre ++ item :: post)) ∧
     reported_lectures (pre ++ item :: post) = reported_lectures (pre ++ post) ∧
     reported_anomalies (pre ++ item :: post) =
       Log WARNING MsgOrphanItem :: reported_anomalies (pre ++ post))
  ∧
  (∀ pre1 chap pre2,
     pre = pre1 ++ chap :: pre2 →
     is_chapter chap = true →
     existsb is_chapter pre2 = false →
     (organize_curriculum (pre ++ item :: post)).1 =
       (organize_curriculum pre1).1 ++
       {| ch_id := item_id chap; ch_title := item_title chap;
          ch_description := item_description chap;
          ch_is_published := item_is_published chap;
          ch_children :=
            filter (λ i, is_lecture_like i) pre2 ++ item :: orphan_items post |}
       :: (organize_curriculum (drop_orphans post)).1 ∧
     (organize_curriculum (pre ++ post)).1 =
       (organize_curriculum pre1).1 ++
       {| ch_id := item_id chap; ch_title := item_title chap;
          ch_description := item_description chap;
          ch_is_published := item_is_published chap;
          ch_children :=
            filter (λ i, is_lecture_like i) pre2 ++ orphan_items post |}
       :: (organize_curriculum (drop_orphans post)).1 ∧
     reported_anomalies (pre ++ item :: post) = reported_anomalies pre).
Proof.
  intros Hll. pose proof (lecture_like_not_chapter _ Hll) as Hnc. split.
  - intros Hpre. pose proof (org_loop_pre_closed _ Hpre) as Hclosed.
    split_and!.
    + unfold organize_curriculum. cbn [fst].
      rewrite !org_loop_app. cbn [foldl].
      rewrite (org_loop_closed_cur post (org_loop pre)) by done.
      rewrite org_loop_closed_cur; [done|].
      rewrite org_step_orphan by done. by destruct Hclosed.
    + pose proof (organize_headers (pre ++ item :: post)) as Hh.
      apply (f_equal length) in Hh. by rewrite !length_fmap in Hh.
    + rewrite !reported_lectures_total, !org_loop_total.
      rewrite !drop_orphans_app by done. cbn [drop_orphans].
      by rewrite Hnc.
    + rewrite !reported_anomalies_orphans, !orphan_items_app by done.
      cbn [orphan_items]. rewrite Hnc, Hll.
      rewrite <- orphan_items_app by done. rewrite orphan_items_app by done.
      apply warnings_insert.
  - intros pre1 chap pre2 -> Hch Hpre2. split_and!.
    + rewrite <- app_assoc. cbn [app]. rewrite organize_at_chapter by done.
      rewrite orphan_items_app, drop_orphans_app by done.
      cbn [orphan_items drop_orphans]. rewrite Hnc, Hll.
      by rewrite orphan_items_lecture_like.
    + rewrite <- app_assoc. cbn [app]. rewrite organize_at_chapter by done.
      rewrite orphan_items_app, drop_orphans_app by done.
      by rewrite orphan_items_lecture_like.
    + rewrite !reported_anomalies_orphans. f_equal.
      assert (∀ l1 l2, is_chapter chap = true →
                orphan_items (l1 ++ chap :: l2) = orphan_items l1) as Hcut.
      { intros l1 l2 Hc. induction l1 as [|a l1 IH]; cbn [app orphan_items].
        - by rewrite Hc.
        - rewrite IH. done. }
      rewrite <- app_assoc. cbn [app]. by rewrite !Hcut.
Qed.

Lemma organize_attaches_to_open_chapter_or_drops_witness :
  is_lecture_like ex_P1 = true ∧
  ch_children <$> (organize_curriculum ([ex_A; ex_L1] ++ ex_P1 :: [ex_B; ex_L2])).1 =
    [[ex_L1; ex_P1]; [ex_L2]] ∧
  ch_children <$> (organize_curriculum ([ex_A; ex_L1] ++ [ex_B; ex_L2])).1 =
    [[ex_L1]; [ex_L2]].
Proof.
  split; [reflexivity|].
  destruct (proj2 (organize_attaches_to_open_chapter_or_drops
                     [ex_A; ex_L1] [ex_B; ex_L2] ex_P1 eq_refl)
              [] ex_A [ex_L1] eq_refl eq_refl eq_refl) as (Hwith & Hwithout & _).
  rewrite Hwith, Hwithout. split; reflexivity.
Defined.

(** ** Media source selection *)

Section Selector.
Variable env : Env.

Lemma first_src_none ty sources :
  first_src ty sources = None ↔ ¬ has_type ty sources.
Proof.
  unfold first_src, has_type. induction sources as [|m l IH]; simpl.
  - split; [|done]. intros _ (m & Hm & _). by apply elem_of_nil in Hm.
  - destruct (String.eqb (ms_type m) ty) eqn:Hty; simpl.
    + split; [done|]. intros H. exfalso. apply H. exists m.
      split; [left|]. by apply String.eqb_eq.
    + rewrite IH. apply String.eqb_neq in Hty. split.
      * intros H (m' & [->|Hin]%elem_of_cons & Ht); [done|].
        apply H. by exists m'.
      * intros H (m' & Hin & Ht). apply H. exists m'. split; [by right|done].
Qed.

Lemma first_src_some ty sources url :
  first_src ty sources = Some url →
  ∃ m, m ∈ sources ∧ ms_type m = ty ∧ ms_src m = url.
Proof.
  unfold first_src. destruct (List.find _ sources) as [m|] eqn:Hf; [|done].
  intros [= <-]. apply List.find_some in Hf as [Hin Hty].
  exists m. split_and!; [by apply list_elem_of_In|by apply String.eqb_eq|done].
Qed.

Lemma first_src_first ty pre m post :
  ms_type m = ty → (∀ x, x ∈ pre → ms_type x ≠ ty) →
  first_src ty (pre ++ m :: post) = Some (ms_src m).
Proof.
  intros Hm Hpre. unfold first_src.
  induction pre as [|x pre IH]; simpl.
  - apply String.eqb_eq in Hm. by rewrite Hm.
  - assert (String.eqb (ms_type x) ty = false) as ->.
    { apply String.eqb_neq, Hpre. left. }
    apply IH. intros y Hy. apply Hpre. by right.
Qed.

(** C1.  What [download_media] does is what the reference policy
    selects: for a free lecture, an HLS source is handed to the HLS
    collaborator, and when there is none a missing-source error is
    logged and nothing else happens; for a paid lecture, a DASH source is
    handed to the DASH collaborator when there is one; otherwise an MP4
    source leads to the unsupported-format report and no download, and
    no source of either type to a missing-source error. *)
Theorem media_selection_follows_policy
    (lecture : RawItem) (lect_info : LectureDetail) (dir : string)
    (lindex : nat) (key : option string) :
  let r := download_media env lecture lect_info dir lindex key in
  ∃ sel,
    select_source_policy (item_is_free lecture)
      (li_media_sources lect_info) sel ∧
    match sel with
    | SelectedHLS url =>
      r = call env (CallDownloadM3U8 url dir (output_name env lindex lecture))
    | SelectedDASH url =>
      filter (λ e, is_download e) r.1 =
        [CallDownloadMPD url dir (output_name env lindex lecture) key] ∧
      r.2 = (call env (CallDownloadMPD url dir
                         (output_name env lindex lecture) key)).2
    | MissingSourceError =>
      r = ([Log ERROR (if item_is_free lecture
                       then MsgM3U8Missing (item_title lecture)
                       else MsgMPDMissing (item_title lecture))],
           Returned tt)
    | UnsupportedFormatError =>
      r = ([Log ERROR MsgMp4Unsupported], Returned tt)
    end.
Proof.
  intros r. unfold download_media in r.
  destruct (item_is_free lecture) eqn:Hfree.
  - destruct (first_src HLS_TYPE (li_media_sources lect_info)) as [url|] eqn:Hs.
    + apply first_src_some in Hs as (m & Hin & Hty & <-).
      exists (SelectedHLS (ms_src m)). split; [|done].
      by apply policy_free_hls.
    + apply first_src_none in Hs. exists MissingSourceError. split; [|done].
      by apply policy_free_missing.
  - destruct (first_src DASH_TYPE (li_media_sources lect_info)) as [url|] eqn:Hs.
    + apply first_src_some in Hs as (m & Hin & Hty & <-).
      exists (SelectedDASH (ms_src m)). split; [by apply policy_paid_dash|].
      unfold r, call. destruct key as [k|]; cbn;
        destruct (collaborator env _); done.
    + apply first_src_none in Hs.
      destruct (first_src MP4_TYPE (li_media_sources lect_info)) as [u|] eqn:Hm.
      * apply first_src_some in Hm as (m & Hin & Hty & _).
        exists UnsupportedFormatError. split; [|done].
        apply policy_paid_mp4; [done..|]. by exists m.
      * apply first_src_none in Hm. exists MissingSourceError.
        split; [|done]. by apply policy_paid_missing.
Qed.

(** The three scenarios of the specification. *)
Example free_lecture_with_only_dash_is_missing :
  download_media (ex_env (λ _, NoReply)) ex_L1 (ex_detail [ex_dash])
    "out/Course/1. A/11" 1 None =
  ([Log ERROR (MsgM3U8Missing "L1")], Returned tt).
Proof. reflexivity. Qed.

Example paid_lecture_with_only_mp4_is_unsupported :
  download_media (ex_env (λ _, NoReply)) ex_L2 (ex_detail [ex_mp4])
    "out/Course/1. A/12" 1 (Some "kid:key") =
  ([Log ERROR MsgMp4Unsupported], Returned tt).
Proof. reflexivity. Qed.

Example paid_lecture_with_dash_and_mp4_selects_dash :
  download_media (ex_env (λ _, NoReply)) ex_L2 (ex_detail [ex_mp4; ex_dash])
    "out/Course/1. A/12" 1 (Some "kid:key") =
  ([CallDownloadMPD "https://cdn/a.mpd" "out/Course/1. A/12" "1. L2"
      (Some "kid:key")], Returned tt).
Proof. vm_compute. reflexivity. Qed.

(** C10.  Of several sources of the wanted type the first one in list
    order is taken: its [src] is what [next(...)] returns for each of the
    three types, and it is the URL handed to the HLS collaborator for a
    free lecture and to the DASH collaborator for a paid one.  The
    selection is a function of the lecture detail, so two runs over the
    same detail select the same source. *)
Theorem first_matching_source_is_selected
    (lecture : RawItem) (lect_info : LectureDetail) (dir : string)
    (lindex : nat) (key : option string)
    (ty : string) (pre post : list MediaSource) (m : MediaSource) :
  li_media_sources lect_info = pre ++ m :: post →
  ms_type m = ty →
  (∀ x, x ∈ pre → ms_type x ≠ ty) →
  first_src ty (li_media_sources lect_info) = Some (ms_src m) ∧
  (ty = HLS_TYPE → item_is_free lecture = true →
     download_media env lecture lect_info dir lindex key =
     call env (CallDownloadM3U8 (ms_src m) dir (output_name env lindex lecture))) ∧
  (ty = DASH_TYPE → item_is_free lecture = false →
     filter (λ e, is_download e)
       (download_media env lecture lect_info dir lindex key).1 =
     [CallDownloadMPD (ms_src m) dir (output_name env lindex lecture) key]) ∧
  (ty = MP4_TYPE → item_is_free lecture = false →
     ¬ has_type DASH_TYPE (li_media_sources lect_info) →
     download_media env lecture lect_info dir lindex key =
     ([Log ERROR MsgMp4Unsupported], Returned tt)).
Proof.
  intros Hsrc Hm Hpre.
  assert (first_src ty (li_media_sources lect_info) = Some (ms_src m)) as Hfirst.
  { rewrite Hsrc. by apply first_src_first. }
  split_and!; [done|..].
  - intros -> Hfree. unfold download_media. by rewrite Hfree, Hfirst.
  - intros -> Hfree. unfold download_media. rewrite Hfree, Hfirst.
    unfold call. destruct key; reflexivity.
  - intros -> Hfree Hnodash. apply first_src_none in Hnodash.
    unfold download_media. by rewrite Hfree, Hnodash, Hfirst.
Qed.

(** C8.  For a paid lecture with a DASH source and no decryption key,
    the task logs the DRM warning and then calls the DASH collaborator
    with that source and a null key; nothing else happens, and the task
    ends as the collaborator's call ends. *)
Theorem missing_key_warns_and_still_downloads
    (lecture : RawItem) (lect_info : LectureDetail) (dir : string)
    (lindex : nat) (url : string) :
  item_is_free lecture = false →
  first_src DASH_TYPE (li_media_sources lect_info) = Some url →
  download_media env lecture lect_info dir lindex None =
  ([Log WARNING MsgDrmProtected;
    CallDownloadMPD url dir (output_name env lindex lecture) None],
   (call env (CallDownloadMPD url dir (output_name env lindex lecture) None)).2).
Proof.
  intros Hfree Hdash. unfold download_media. rewrite Hfree, Hdash.
  unfold call. cbn. destruct (collaborator env _); done.
Qed.

End Selector.

Lemma first_matching_source_is_selected_witness :
  first_src DASH_TYPE [ex_mp4; ex_dash; ex_dash2] = Some "https://cdn/a.mpd".
Proof.
  exact (proj1 (first_matching_source_is_selected (ex_env (λ _, NoReply))
                  ex_L2 (ex_detail [ex_mp4; ex_dash; ex_dash2]) "d" 1 None
                  DASH_TYPE [ex_mp4] [ex_dash2] ex_dash eq_refl eq_refl
                  ltac:(intros x [->|[]%elem_of_nil]%elem_of_cons; done))).
Defined.

Lemma missing_key_warns_and_still_downloads_witness :
  download_media (ex_env (λ _, NoReply)) ex_L2 (ex_detail [ex_mp4; ex_dash])
    "out/Course/1. A/12" 1 None =
  ([Log WARNING MsgDrmProtected;
    CallDownloadMPD "https://cdn/a.mpd" "out/Course/1. A/12"
      (output_name (ex_env (λ _, NoReply)) 1 ex_L2) None],
   Returned tt).
Proof.
  exact (missing_key_warns_and_still_downloads (ex_env (λ _, NoReply))
           ex_L2 (ex_detail [ex_mp4; ex_dash]) "out/Course/1. A/12" 1
           "https://cdn/a.mpd" eq_refl eq_refl).
Defined.

(** ** Curriculum fetcher *)

Section Fetcher.
Variable env : Env.

Lemma requests_app t1 t2 : requests (t1 ++ t2) = requests t1 ++ requests t2.
Proof. apply omap_app. Qed.

Lemma progress_totals_app t1 t2 :
  progress_totals (t1 ++ t2) = progress_totals t1 ++ progress_totals t2.
Proof. apply omap_app. Qed.

Lemma fetch_loop_stop fuel url all_results total_count trace :
  truthy url = false →
  fetch_loop env fuel url all_results total_count trace =
  Some (trace, Returned (all_results, total_count)).
Proof. intros H. destruct fuel; simpl; by rewrite H. Qed.

Lemma fetch_loop_step fuel u p all_results total_count trace :
  truthy (Some u) = true →
  get_listing env u = Json p →
  pg_detail p ≠ Some "Not found." →
  fetch_loop env (S fuel) (Some u) all_results total_count trace =
  fetch_loop env fuel (pg_next p) (all_results ++ page_items p)
    (if total_count =? 0 then page_total p else total_count)
    (trace ++ [HttpGet u] ++
     (if total_count =? 0
      then [ProgressTotal (if total_count =? 0 then page_total p
                           else total_count)]
      else []) ++
     [ProgressCompleted (length (all_results ++ page_items p))]).
Proof.
  intros Hu Hget Hdetail. cbn [fetch_loop]. rewrite Hu.
  change (default "" (Some u)) with u. rewrite Hget.
  by rewrite bool_decide_eq_false_2.
Qed.

(** The loop along a chain, from any state of its local variables. *)
Lemma fetch_loop_chain chain : ∀ fuel all_results total_count trace,
  page_chain env chain →
  (length chain ≤ fuel)%nat →
  ∃ trace',
    fetch_loop env fuel (fst <$> head chain) all_results total_count trace =
      Some (trace ++ trace',
            Returned (all_results ++ concat (page_items <$> chain.*2),
                      total_after total_count chain.*2)) ∧
    requests trace' = chain.*1 ∧
    (total_count ≠ 0 → progress_totals trace' = []) ∧
    (total_count = 0 → ∀ p, snd <$> head chain = Some p → page_total p ≠ 0 →
       progress_totals trace' = [page_total p]).
Proof.
  induction chain as [|[u p] rest IH]; intros fuel acc total trace Hchain Hfuel;
    [done|].
  destruct Hchain as (Hu & Hget & Hdetail & Hrest).
  destruct fuel as [|fuel]; [simpl in Hfuel; lia|].
  change (fst <$> head ((u, p) :: rest)) with (Some u).
  rewrite (fetch_loop_step _ _ p) by done.
  cbn [fmap list_fmap concat snd fst total_after foldl].
  destruct rest as [|[u' p'] rest'].
  - rewrite fetch_loop_stop by done.
    cbn [fmap list_fmap concat snd fst total_after foldl]. rewrite app_nil_r.
    eexists. split; [reflexivity|].
    split_and!.
    + by destruct (total =? 0).
    + intros Hne%Z.eqb_neq. by rewrite Hne.
    + intros -> q [= <-] Hq. done.
  - destruct Hrest as [Hnext Hchain']. rewrite Hnext.
    edestruct (IH fuel) as (trace' & Hrun & Hreq & Htot0 & Htot1);
      [exact Hchain'|simpl in Hfuel |- *; lia|].
    change (fst <$> head ((u', p') :: rest')) with (Some u') in Hrun.
    rewrite Hrun. cbn [fmap list_fmap concat snd fst total_after foldl].
    rewrite <- !app_assoc.
    eexists. split; [reflexivity|].
    split_and!.
    + rewrite !requests_app, Hreq. by destruct (total =? 0).
    + intros Hne. pose proof Hne as Hne'%Z.eqb_neq.
      rewrite Hne' in Htot0. rewrite !progress_totals_app, (Htot0 Hne).
      by rewrite Hne'.
    + intros -> q [= <-] Hq. rewrite !progress_totals_app.
      change (0 =? 0) with true in *. cbn beta iota in *.
      by rewrite (Htot0 Hq).
Qed.

End Fetcher.

Lemma total_after_nonzero t pages : t ≠ 0 → total_after t pages = t.
Proof.
  intros Ht%Z.eqb_neq. induction pages as [|p pages IH]; [done|].
  unfold total_after in *. cbn [foldl]. by rewrite Ht.
Qed.

Lemma total_after_first p pages :
  total_after 0 (p :: pages) = total_after (page_total p) pages.
Proof. done. Qed.

Lemma total_after_stable c pages :
  pages ≠ [] → (∀ p, p ∈ pages → page_total p = c) →
  total_after 0 pages = c.
Proof.
  induction pages as [|p pages IH]; [done|]. intros _ Hall.
  rewrite total_after_first, (Hall p) by left.
  destruct (decide (c = 0)) as [->|Hc]; [|by apply total_after_nonzero].
  destruct pages as [|p' pages']; [done|].
  apply IH; [done|]. intros q Hq. apply Hall. by right.
Qed.

Section FetcherClaims.
Variable env : Env.

(** C6, as the code has it.  Along a chain of pages the fetch requests
    exactly the chain's URLs in order, one request per page, and stops
    after the page without cursor; it returns the pages' items
    concatenated in order (so the final count is the sum of the page
    sizes) and hands them to the organizer.  The total used for progress
    is taken from the first page and taken again from each later page for
    as long as the value held is 0: when the first page's total is not 0
    it is read exactly once, and when every page reports the same total
    the value used is the first page's. *)
Theorem fetch_follows_chain (course_id : Z) (chain : list (string * Page))
    (fuel : nat) :
  page_chain env chain →
  fst <$> head chain = Some (CURRICULUM_URL env course_id) →
  (length chain ≤ fuel)%nat →
  let start := [Log INFO MsgFetchingCurriculum; ProgressAddTask 0] in
  let items := concat (page_items <$> chain.*2) in
  ∃ trace,
    fetch_loop env fuel (Some (CURRICULUM_URL env course_id)) [] 0 start =
      Some (start ++ trace, Returned (items, total_after 0 chain.*2)) ∧
    fetch_course_curriculum env fuel course_id =
      Some (start ++ trace ++ (organize_curriculum items).2,
            Returned (organize_curriculum items).1) ∧
    requests trace = chain.*1 ∧
    length items = sum_list (length <$> (page_items <$> chain.*2)) ∧
    (∀ p, snd <$> head chain = Some p → page_total p ≠ 0 →
       progress_totals trace = [page_total p] ∧
       total_after 0 chain.*2 = page_total p) ∧
    (∀ c, (∀ p, p ∈ chain.*2 → page_total p = c) →
       total_after 0 chain.*2 = c).
Proof.
  intros Hchain Hhead Hfuel start items.
  destruct (fetch_loop_chain env chain fuel [] 0 start Hchain Hfuel)
    as (trace & Hrun & Hreq & _ & Htot).
  rewrite Hhead in Hrun. cbn [app] in Hrun.
  exists trace. split_and!.
  - exact Hrun.
  - unfold fetch_course_curriculum. fold start. rewrite Hrun.
    fold items. destruct (organize_curriculum items) as [cur logged].
    cbn [fst snd]. by rewrite <- app_assoc.
  - exact Hreq.
  - unfold items. apply length_concat.
  - intros p Hp Hne. split; [by apply Htot|].
    destruct chain as [|[u q] rest]; [done|]. injection Hp as ->.
    cbn [fmap list_fmap snd]. rewrite total_after_first.
    by apply total_after_nonzero.
  - intros c Hall. apply total_after_stable; [|done].
    destruct chain; [done|]. done.
Qed.

End FetcherClaims.

Lemma ex_listing_chain :
  page_chain ex_listing_env
    [("https://api/page1", ex_page1); ("https://api/page2", ex_page2)].
Proof. cbn. split_and!; done. Qed.

Lemma fetch_follows_chain_witness :
  ∃ trace,
    fetch_course_curriculum ex_listing_env 2 7 =
    Some ([Log INFO MsgFetchingCurriculum; ProgressAddTask 0] ++ trace ++
          (organize_curriculum [ex_A; ex_L1]).2,
          Returned [append_child ex_L1 (new_chapter ex_A)]) ∧
    requests trace = ["https://api/page1"; "https://api/page2"].
Proof.
  destruct (fetch_follows_chain ex_listing_env 7
              [("https://api/page1", ex_page1); ("https://api/page2", ex_page2)]
              2 ex_listing_chain eq_refl (le_n 2))
    as (trace & _ & Hfetch & Hreq & _).
  exists trace. split; [exact Hfetch|exact Hreq].
Defined.

(** C6 as stated fails: when the first page reports a total of 0 the
    total is read again from the second page. *)
Lemma fetch_total_read_twice_counterexample :
  page_chain ex_listing_env
    [("https://api/page1", ex_page1); ("https://api/page2", ex_page2)] ∧
  ∃ trace,
    fetch_loop ex_listing_env 2 (Some "https://api/page1") [] 0 [] =
      Some (trace, Returned ([ex_A; ex_L1], 7)) ∧
    progress_totals trace = [0; 7] ∧
    progress_totals trace ≠ [page_total ex_page1] ∧
    7 ≠ page_total ex_page1.
Proof.
  split; [exact ex_listing_chain|].
  eexists. split; [vm_compute; reflexivity|]. split_and!; done.
Qed.

(** ** Tasks and their directories *)



Lemma bind_events_Forall {A B} (P : Event → Prop) (m : M A) (f : A → M B) :
  Forall P m.1 → (∀ a, Forall P (f a).1) → Forall P (m ≫= f).1.
Proof.
  intros Hm Hf. unfold mbind, M_bind. destruct m.2; cbn [fst]; [|done].
  apply Forall_app. split; [done|apply Hf].
Qed.

Lemma pretty_N_char_not_sep n : Ascii.eqb (pretty_N_char n) "/" = false.
Proof. unfold pretty_N_char. repeat case_match; done. Qed.

Lemma pretty_N_go_not_sep (x : N) : ∀ s,
  starts_with_sep s = false → starts_with_sep (pretty_N_go x s) = false.
Proof.
  induction (N.lt_wf_0 x) as [x _ IH]. intros s Hs.
  destruct (decide (x = 0%N)) as [->|Hx]; [by rewrite pretty_N_go_0|].
  rewrite pretty_N_go_step by lia.
  apply IH; [apply N.div_lt; lia|]. apply pretty_N_char_not_sep.
Qed.

Lemma pretty_N_not_sep (x : N) : starts_with_sep (pretty x) = false.
Proof.
  unfold pretty, pretty_N. case_decide; [done|].
  destruct (decide (x = 0%N)) as [->|Hx]; [done|].
  rewrite pretty_N_go_step by lia.
  apply pretty_N_go_not_sep, pretty_N_char_not_sep.
Qed.

Lemma pretty_Z_not_sep (z : Z) : starts_with_sep (pretty z) = false.
Proof.
  unfold pretty, pretty_Z. destruct z; [done| |done].
  apply pretty_N_not_sep.
Qed.

Lemma path_join_inj a b1 b2 :
  starts_with_sep b1 = false → starts_with_sep b2 = false →
  path_join a b1 = path_join a b2 → b1 = b2.
Proof.
  unfold path_join. intros -> ->.
  destruct (String.eqb a "" || ends_with_sep a); intros H.
  - by apply (inj (String.app a)) in H.
  - apply (inj (String.app a)) in H. by injection H.
Qed.

Section Tasks.
Variable env : Env.

Ltac targets_step :=
  first
    [ apply bind_events_Forall; [|intros ?]
    | case_match
    | progress (cbn [fst mret M_ret emit raise log call])
    | apply Forall_nil_2
    | apply Forall_cons; split; [done|] ].

Lemma bind_events_prefix {A B} (m : M A) (f : A → M B) :
  ∃ rest, (m ≫= f).1 = m.1 ++ rest.
Proof.
  unfold mbind, M_bind. destruct m.2; cbn [fst]; [by eexists|].
  exists []. by rewrite app_nil_r.
Qed.

Lemma create_directory_starts path :
  ∃ rest, (create_directory env path).1 = MakeDirs path :: rest.
Proof.
  unfold create_directory.
  match goal with
  | |- ∃ _, (?m ≫= ?f).1 = _ =>
    destruct (bind_events_prefix m f) as [rest ->]
  end.
  by exists rest.
Qed.

Lemma create_directory_targets folder_path path :
  Forall (targets_as_coded folder_path path) (create_directory env path).1.
Proof. unfold create_directory. repeat targets_step. Qed.

Lemma fetch_lecture_info_targets folder_path path course_id lecture_id :
  Forall (targets_as_coded folder_path path)
    (fetch_lecture_info env course_id lecture_id).1.
Proof. unfold fetch_lecture_info. repeat targets_step. Qed.

Lemma download_media_targets folder_path path lecture lect_info lindex key :
  Forall (targets_as_coded folder_path path)
    (download_media env lecture lect_info path lindex key).1.
Proof. unfold download_media. repeat targets_step. Qed.

Lemma process_lecture_targets lecture course_id folder_path lindex key n :
  Forall (targets_as_coded folder_path
            (path_join folder_path (pretty (item_id lecture))))
    (process_lecture env lecture course_id folder_path lindex key n).1.
Proof.
  unfold process_lecture.
  apply bind_events_Forall; [apply create_directory_targets|intros _].
  case_match; [|apply Forall_nil_2].
  apply bind_events_Forall; [apply fetch_lecture_info_targets|intros decoded].
  apply bind_events_Forall; [repeat targets_step|intros _].
  destruct decoded as [lect_info|exn]; [|apply Forall_nil_2].
  apply bind_events_Forall; [repeat targets_step|intros _].
  apply bind_events_Forall; [repeat targets_step|intros _].
  apply download_media_targets.
Qed.

(** C9, as the code has it.  Every task creates the per-item
    subdirectory named by the item's id inside the chapter directory and
    hands it, and nothing else, to the stream collaborators; lectures
    with different ids get different subdirectories.  The caption and
    supplementary-asset collaborators are handed the chapter directory,
    which the tasks of a chapter share. *)
Theorem task_directories (lecture : RawItem) (course_id : Z)
    (folder_path : string) (lindex : nat) (key : option string) (n : nat) :
  let temp_folder_path := path_join folder_path (pretty (item_id lecture)) in
  (∀ e, e ∈ (process_lecture env lecture course_id folder_path lindex key n).1 →
     targets_as_coded folder_path temp_folder_path e) ∧
  (∃ rest, (process_lecture env lecture course_id folder_path lindex key n).1 =
             MakeDirs temp_folder_path :: rest) ∧
  (∀ other : RawItem,
     item_id other ≠ item_id lecture →
     path_join folder_path (pretty (item_id other)) ≠ temp_folder_path).
Proof.
  intros temp. split_and!.
  - apply Forall_forall, process_lecture_targets.
  - unfold process_lecture. fold temp.
    match goal with
    | |- ∃ _, (?m ≫= ?f).1 = _ =>
      destruct (bind_events_prefix m f) as [rest ->]
    end.
    destruct (create_directory_starts temp) as [rest' ->]. by eexists.
  - intros other Hne Heq. apply Hne.
    apply path_join_inj in Heq; [|apply pretty_Z_not_sep..].
    by apply (inj pretty) in Heq.
Qed.

End Tasks.

Lemma task_directories_witness :
  targets_as_coded "out/Course/1. A" "out/Course/1. A/11"
    (CallDownloadCaptions [ex_caption] "out/Course/1. A" "1. L1" ["en_US"]).
Proof.
  apply (proj1 (task_directories (ex_env (λ _, Json ex_detail_captions))
                  ex_L1 7 "out/Course/1. A" 1 None 2)).
  vm_compute. do 4 right. left.
Defined.

(** C9 as stated fails: the caption files of a lecture are written to
    the chapter directory, not to the lecture's own subdirectory. *)
Lemma task_writes_outside_item_directory_counterexample :
  process_lecture (ex_env (λ _, Json ex_detail_captions)) ex_L1 7
    "out/Course/1. A" 1 None 2 =
  ([MakeDirs "out/Course/1. A/11";
    HttpGet "https://api/courses/7/lectures/11";
    Log INFO (MsgDownloadingLecture "L1" 1 2);
    Log INFO (MsgDownloadingCaptions 1);
    CallDownloadCaptions [ex_caption] "out/Course/1. A" "1. L1" ["en_US"];
    CallDownloadM3U8 "https://cdn/a.m3u8" "out/Course/1. A/11" "1. L1"],
   Returned tt) ∧
  write_target
    (CallDownloadCaptions [ex_caption] "out/Course/1. A" "1. L1" ["en_US"]) =
    Some "out/Course/1. A" ∧
  "out/Course/1. A" ≠ path_join "out/Course/1. A" (pretty (item_id ex_L1)).
Proof. split_and!; [vm_compute; reflexivity|reflexivity|]. by vm_compute. Qed.

(** ** Orchestrator *)

Section Orchestrator.
Variable env : Env.




Lemma create_directory_returns path :
  makedirs env path ≠ DirFailed →
  (create_directory env path).2 = Returned tt.
Proof.
  unfold create_directory. intros H.
  destruct (makedirs env path); done.
Qed.






End Orchestrator.



(** ** Curriculum cache *)

(** **** Strings *)

Lemma hex_value_digit d : (d < 16)%N → hex_value (hex_digit d) = Some d.
Proof.
  intros Hd. destruct d as [|p]; [done|].
  do 4 (destruct p as [p|p|]; try done); lia.
Qed.

Lemma hex4_value_escape n :
  (n < 65536)%N →
  hex4_value (hex_digit (n / 4096)) (hex_digit (n / 256 mod 16))
    (hex_digit (n / 16 mod 16)) (hex_digit (n mod 16)) = Some n.
Proof.
  intros Hn. unfold hex4_value.
  assert (n / 4096 < 16)%N by (apply N.Div0.div_lt_upper_bound; lia).
  assert (n / 256 mod 16 < 16)%N by (by apply N.mod_lt).
  assert (n / 16 mod 16 < 16)%N by (by apply N.mod_lt).
  assert (n mod 16 < 16)%N by (by apply N.mod_lt).
  rewrite !hex_value_digit by done. f_equal.
  pose proof (N.div_mod n 16 ltac:(done)) as H16.
  pose proof (N.div_mod (n / 16) 16 ltac:(done)) as H256.
  pose proof (N.div_mod (n / 256) 16 ltac:(done)) as H4096.
  rewrite !N.Div0.div_div in H256, H4096.
  change (16 * 16)%N with 256%N in *. change (256 * 16)%N with 4096%N in *.
  set (a := (n / 4096)%N) in *. set (b := (n / 256 mod 16)%N) in *.
  set (c := (n / 16 mod 16)%N) in *. set (d := (n mod 16)%N) in *.
  set (e := (n / 256)%N) in *. set (f := (n / 16)%N) in *.
  clearbody a b c d e f. lia.
Qed.

(** The parser at an escape of a number. *)
Lemma parse_string_escape_u h1 h2 h3 h4 u t :
  hex4_value h1 h2 h3 h4 = Some u →
  (is_high u = true → no_low_escape t) →
  parse_string_body (BACKSLASH :: "u"%char :: h1 :: h2 :: h3 :: h4 :: t) =
  prepend u (parse_string_body t).
Proof.
  intros Hu Ht. cbn [parse_string_body].
  change (Ascii.eqb BACKSLASH DQUOTE) with false.
  change (Ascii.eqb BACKSLASH BACKSLASH) with true.
  change (Ascii.eqb "u" "u") with true. cbn iota. rewrite Hu.
  destruct (is_high u); [|done]. specialize (Ht eq_refl).
  destruct t as [|b [|e [|k1 [|k2 [|k3 [|k4 r5]]]]]]; try done;
    try (by destruct (Ascii.eqb b BACKSLASH));
    try (by destruct (Ascii.eqb b BACKSLASH), (Ascii.eqb e "u")).
  destruct (Ascii.eqb_spec b BACKSLASH) as [->|]; [|done].
  destruct (Ascii.eqb_spec e "u"%char) as [->|]; [|done].
  destruct (Ht eq_refl eq_refl) as (u2 & -> & ->). done.
Qed.

Lemma parse_string_pair h1 h2 h3 h4 k1 k2 k3 k4 u u2 t :
  hex4_value h1 h2 h3 h4 = Some u → is_high u = true →
  hex4_value k1 k2 k3 k4 = Some u2 → is_low u2 = true →
  parse_string_body
    (BACKSLASH :: "u"%char :: h1 :: h2 :: h3 :: h4 ::
     BACKSLASH :: "u"%char :: k1 :: k2 :: k3 :: k4 :: t) =
  prepend (join_surrogates u u2) (parse_string_body t).
Proof.
  intros Hu Hhigh Hu2 Hlow. cbn [parse_string_body].
  change (Ascii.eqb BACKSLASH DQUOTE) with false.
  change (Ascii.eqb BACKSLASH BACKSLASH) with true.
  change (Ascii.eqb "u" "u") with true. cbn iota.
  by rewrite Hu, Hhigh, Hu2, Hlow.
Qed.

Lemma parse_string_short x c t :
  unescape x = Some c → Ascii.eqb x "u"%char = false →
  parse_string_body (BACKSLASH :: x :: t) = prepend c (parse_string_body t).
Proof.
  intros Hx Hu. cbn [parse_string_body].
  change (Ascii.eqb BACKSLASH DQUOTE) with false.
  change (Ascii.eqb BACKSLASH BACKSLASH) with true. cbn iota.
  by rewrite Hu, Hx.
Qed.

Lemma parse_string_plain c t :
  (32 ≤ c)%N → (c ≤ 126)%N → c ≠ 34%N → c ≠ 92%N →
  parse_string_body (ascii_of_N c :: t) = prepend c (parse_string_body t).
Proof.
  intros H1 H2 Hq Hb.
  assert (N_of_ascii (ascii_of_N c) = c) as Hc
    by (apply N_ascii_embedding; lia).
  cbn [parse_string_body].
  destruct (Ascii.eqb_spec (ascii_of_N c) DQUOTE) as [Heq|_].
  { rewrite Heq in Hc. by cbn in Hc. }
  destruct (Ascii.eqb_spec (ascii_of_N c) BACKSLASH) as [Heq|_].
  { rewrite Heq in Hc. by cbn in Hc. }
  unfold is_ascii. rewrite Hc.
  destruct (N.ltb_spec c 32); [lia|].
  by destruct (N.ltb_spec c 128); [|lia].
Qed.

Lemma is_high_bounds u : is_high u = true → (55296 ≤ u ≤ 56319)%N.
Proof. intros [?%N.leb_le ?%N.leb_le]%andb_true_iff. lia. Qed.

Lemma is_low_bounds u : is_low u = true → (56320 ≤ u ≤ 57343)%N.
Proof. intros [?%N.leb_le ?%N.leb_le]%andb_true_iff. lia. Qed.

Lemma not_low_outside u : (u < 56320 ∨ 57343 < u)%N → is_low u = false.
Proof.
  intros Hu. apply andb_false_iff.
  destruct Hu; [left; apply N.leb_gt|right; apply N.leb_gt]; lia.
Qed.

Lemma not_high_outside u : (u < 55296 ∨ 56319 < u)%N → is_high u = false.
Proof.
  intros Hu. apply andb_false_iff.
  destruct Hu; [left; apply N.leb_gt|right; apply N.leb_gt]; lia.
Qed.

Lemma is_ascii_bound c : is_ascii c = true → (N_of_ascii c < 128)%N.
Proof. apply N.ltb_lt. Qed.

Lemma is_high_not_low u : is_high u = true → is_low u = false.
Proof.
  unfold is_high, is_low. intros [_ ?%N.leb_le]%andb_true_iff.
  apply andb_false_iff. left. apply N.leb_gt. lia.
Qed.

Lemma surrogate_halves c :
  (65536 ≤ c)%N → (c < 1114112)%N →
  ((c - 65536) / 1024 < 1024)%N ∧ ((c - 65536) mod 1024 < 1024)%N ∧
  (65536 + 1024 * ((c - 65536) / 1024) + (c - 65536) mod 1024 = c)%N.
Proof.
  intros Hlo Hhi.
  assert ((c - 65536) / 1024 < 1024)%N
    by (apply N.Div0.div_lt_upper_bound; lia).
  assert ((c - 65536) mod 1024 < 1024)%N by (by apply N.mod_lt).
  pose proof (N.div_mod (c - 65536) 1024 ltac:(done)) as Hdm.
  set (h := ((c - 65536) / 1024)%N) in *.
  set (l := ((c - 65536) mod 1024)%N) in *.
  clearbody h l. lia.
Qed.

(** What the escape of a code point starts with. *)
Lemma no_low_escape_short b e t : e ≠ "u"%char → no_low_escape (b :: e :: t).
Proof.
  intros He. destruct t as [|? [|? [|? [|? ?]]]]; try done.
  by intros _ ?.
Qed.

Lemma no_low_escape_plain b t : b ≠ BACKSLASH → no_low_escape (b :: t).
Proof.
  intros Hb. destruct t as [|? [|? [|? [|? [|? ?]]]]]; try done.
  by intros ?.
Qed.

Lemma no_low_escape_code c t :
  (c < 1114112)%N → is_low c = false → no_low_escape (escape_code c ++ t).
Proof.
  intros Hc Hlow. unfold escape_code.
  repeat (case_match; [by apply no_low_escape_short|]).
  case_match eqn:Hplain.
  { apply andb_true_iff in Hplain as [?%N.leb_le ?%N.leb_le].
    apply no_low_escape_plain. intros Heq.
    assert (N_of_ascii (ascii_of_N c) = c) as Hn
      by (apply N_ascii_embedding; lia).
    rewrite Heq in Hn. cbn in Hn. by subst c. }
  case_match eqn:Hsmall.
  - apply N.ltb_lt in Hsmall.
    cbn [escape_u app no_low_escape]. intros _ _. exists c.
    split; [apply hex4_value_escape; lia|done].
  - apply N.ltb_ge in Hsmall.
    cbn [escape_u app no_low_escape]. intros _ _.
    destruct (surrogate_halves c) as (Hh & _ & _); [done..|].
    set (h := ((c - 65536) / 1024)%N) in *. clearbody h.
    exists (55296 + h)%N.
    split; [apply hex4_value_escape; lia|].
    apply is_high_not_low, andb_true_iff. split; apply N.leb_le; lia.
Qed.

Lemma no_low_escape_string s rest :
  wf_str s → head_not_low s →
  no_low_escape (escape s ++ DQUOTE :: rest).
Proof.
  destruct s as [|c s]; [intros _ _; by apply no_low_escape_plain|].
  intros (Hc & _ & _) Hlow. cbn [escape mbind list_bind]. rewrite <- app_assoc.
  by apply no_low_escape_code.
Qed.

Lemma parse_string_escape s : ∀ rest,
  wf_str s →
  parse_string_body (escape s ++ DQUOTE :: rest) = Ok (s, rest).
Proof.
  induction s as [|c s IH]; intros rest Hwf; [done|].
  destruct Hwf as (Hc & Hpair & Hwf).
  change (escape (c :: s)) with (escape_code c ++ escape s).
  rewrite <- app_assoc. specialize (IH rest Hwf).
  assert (is_high c = true → no_low_escape (escape s ++ DQUOTE :: rest))
    as Hnext.
  { intros Hhigh. apply no_low_escape_string; [done|].
    specialize (Hpair Hhigh). by destruct s. }
  unfold escape_code.
  destruct (N.eqb_spec c 34) as [->|?];
    [cbn [app]; by rewrite (parse_string_short DQUOTE 34), IH|].
  destruct (N.eqb_spec c 92) as [->|?];
    [cbn [app]; by rewrite (parse_string_short BACKSLASH 92), IH|].
  destruct (N.eqb_spec c 8) as [->|?];
    [cbn [app]; by rewrite (parse_string_short "b" 8), IH|].
  destruct (N.eqb_spec c 12) as [->|?];
    [cbn [app]; by rewrite (parse_string_short "f" 12), IH|].
  destruct (N.eqb_spec c 10) as [->|?];
    [cbn [app]; by rewrite (parse_string_short "n" 10), IH|].
  destruct (N.eqb_spec c 13) as [->|?];
    [cbn [app]; by rewrite (parse_string_short "r" 13), IH|].
  destruct (N.eqb_spec c 9) as [->|?];
    [cbn [app]; by rewrite (parse_string_short "t" 9), IH|].
  destruct ((32 <=? c)%N && (c <=? 126)%N) eqn:Hplain.
  { apply andb_true_iff in Hplain as [?%N.leb_le ?%N.leb_le].
    cbn [app]. rewrite parse_string_plain by done. by rewrite IH. }
  destruct (N.ltb_spec c 65536) as [Hsmall|Hbig].
  - cbn [escape_u app].
    rewrite (parse_string_escape_u _ _ _ _ c);
      [by rewrite IH|by apply hex4_value_escape|done].
  - cbn [escape_u app].
    destruct (surrogate_halves c) as (Hh & Hl & Hjoin); [done..|].
    set (h := ((c - 65536) / 1024)%N) in *.
    set (l := ((c - 65536) mod 1024)%N) in *. clearbody h l.
    rewrite (parse_string_pair _ _ _ _ _ _ _ _ (55296 + h) (56320 + l));
      [|apply hex4_value_escape; lia
       |apply andb_true_iff; split; apply N.leb_le; lia
       |apply hex4_value_escape; lia
       |apply andb_true_iff; split; apply N.leb_le; lia].
    rewrite IH. cbn [prepend]. do 3 f_equal. unfold join_surrogates. lia.
Qed.

Lemma parse_encode_str s rest :
  wf_str s →
  ∃ r, encode_str s ++ rest = DQUOTE :: r ∧
       parse_string_body r = Ok (s, rest).
Proof.
  intros Hwf. exists (escape s ++ DQUOTE :: rest). split.
  - unfold encode_str. rewrite <- app_comm_cons, <- app_assoc. done.
  - by apply parse_string_escape.
Qed.

(** **** Numbers *)

Lemma take_digits_digits d rest :
  digits_end rest → take_digits (digits_of_uint d ++ rest) = (d, rest).
Proof.
  intros Hrest. induction d; simpl; rewrite ?IHd; try done.
  destruct rest as [|c r]; [done|]. simpl. by rewrite Hrest.
Qed.

Lemma unorm_head d :
  Decimal.unorm d = Decimal.D0 Decimal.Nil ∨
  match Decimal.unorm d with
  | Decimal.Nil | Decimal.D0 _ => False
  | _ => True
  end.
Proof. induction d; cbn; auto. Qed.

Lemma pos_to_uint_head p :
  match Pos.to_uint p with
  | Decimal.Nil | Decimal.D0 _ => False
  | _ => True
  end.
Proof.
  pose proof (DecimalPos.Unsigned.of_to p) as Hof.
  pose proof (DecimalPos.Unsigned.to_of (Pos.to_uint p)) as Hto.
  rewrite Hof in Hto. cbn [N.to_uint] in Hto.
  destruct (unorm_head (Pos.to_uint p)) as [H0|H]; rewrite <- Hto in *.
  - rewrite H0 in Hof. done.
  - done.
Qed.

(** The integer part of a number that is written without a superfluous
    zero is read as it is. *)
Lemma parse_number_int_part (negative : bool) i rest :
  int_part_ok i = true → digits_end rest →
  parse_number ((if negative then ["-"%char] else []) ++
                digits_of_uint i ++ rest) =
  number_tail negative i rest.
Proof.
  intros Hi Hrest.
  destruct negative, i as [|[]| | | | | | | | |]; try done;
    unfold parse_number; simpl; rewrite ?take_digits_digits by done; done.
Qed.

Lemma value_end_digits_end rest : value_end rest → digits_end rest.
Proof. destruct rest as [|c r]; [done|]. by intros [->| ->]. Qed.

Lemma value_end_no_fraction rest : value_end rest → starts_fraction rest = false.
Proof. destruct rest as [|c [|d r]]; [done|by intros [->| ->]..]. Qed.

Lemma value_end_no_exponent rest : value_end rest → starts_exponent rest = false.
Proof. destruct rest as [|c r]; [done|]. by intros [->| ->]. Qed.

Lemma pos_to_uint_ok p : int_part_ok (Pos.to_uint p) = true.
Proof. pose proof (pos_to_uint_head p). by destruct (Pos.to_uint p). Qed.

Lemma parse_number_encode z rest :
  value_end rest →
  parse_number (encode_int z ++ rest) = Ok (JInt z, rest).
Proof.
  intros Hrest.
  pose proof (DecimalZ.of_to z) as Hz.
  assert (∀ negative i,
            number_tail negative i rest =
            Ok (JInt (Z.of_int (if negative then Decimal.Neg i
                                else Decimal.Pos i)), rest)) as Htail.
  { intros negative i. unfold number_tail.
    by rewrite value_end_no_fraction, value_end_no_exponent. }
  pose proof (value_end_digits_end _ Hrest) as Hend.
  unfold encode_int. destruct z as [|p|p]; cbn [Z.to_int] in *.
  - etrans; [by apply (parse_number_int_part false (Decimal.D0 Decimal.Nil))|].
    by rewrite Htail.
  - etrans; [apply (parse_number_int_part false);
             [apply pos_to_uint_ok|done]|].
    by rewrite Htail, Hz.
  - etrans; [apply (parse_number_int_part true);
             [apply pos_to_uint_ok|done]|].
    by rewrite Htail, Hz.
Qed.

Lemma digits_head d :
  d ≠ Decimal.Nil → ∃ c r, digits_of_uint d = c :: r ∧ is_digit c = true.
Proof. destruct d; try done; intros _; by eexists _, _. Qed.

Lemma canonical_float_parts i f :
  canonical_float i f = true → int_part_ok i = true ∧ f ≠ Decimal.Nil.
Proof.
  unfold canonical_float. intros H.
  do 4 (apply andb_true_iff in H as [H _]).
  apply andb_true_iff in H as [Hi Hf]. split; [done|].
  intros ->. done.
Qed.

Lemma parse_number_float negative i f rest :
  canonical_float i f = true →
  value_end rest →
  parse_number (encode_float negative i f ++ rest) =
  Ok (JFloat negative i f, rest).
Proof.
  intros Hcan Hrest.
  destruct (canonical_float_parts i f Hcan) as [Hi Hf].
  destruct (digits_head f Hf) as (c & r & Hdigits & Hc).
  unfold encode_float. rewrite <- !app_assoc.
  rewrite parse_number_int_part;
    [|done|by rewrite <- app_comm_cons].
  unfold number_tail. rewrite <- app_comm_cons.
  assert (starts_fraction ("."%char :: digits_of_uint f ++ rest) = true)
    as -> by (by rewrite Hdigits; cbn; rewrite Hc).
  cbn [tail]. rewrite take_digits_digits by by apply value_end_digits_end.
  by rewrite value_end_no_exponent, Hcan.
Qed.

(** **** White space and the first character of an encoding *)

Lemma skip_ws_visible c r : is_ws c = false → skip_ws (c :: r) = c :: r.
Proof. intros H. simpl. by rewrite H. Qed.

Lemma skip_ws_newline_indent level t :
  skip_ws (newline_indent level ++ t) = skip_ws t.
Proof.
  unfold newline_indent.
  change (skip_ws (replicate (4 * level) SPACE ++ t) = skip_ws t).
  induction (4 * level)%nat as [|n IH]; [done|]. exact IH.
Qed.

Lemma value_start_visible c :
  value_start c = true →
  is_ws c = false ∧ Ascii.eqb c "]"%char = false ∧
  Ascii.eqb c "}"%char = false.
Proof. destruct c as [[] [] [] [] [] [] [] []]; done. Qed.

Lemma int_part_head i :
  int_part_ok i = true → ∃ c r, digits_of_uint i = c :: r ∧ is_digit c = true.
Proof. intros Hi. apply digits_head. by intros ->. Qed.

Lemma encode_int_number z rest : number_text (encode_int z ++ rest).
Proof.
  unfold encode_int. destruct z as [|p|p]; cbn [Z.to_int].
  - by left.
  - destruct (int_part_head _ (pos_to_uint_ok p)) as (c & r & -> & Hc).
    by left.
  - destruct (int_part_head _ (pos_to_uint_ok p)) as (c & r & -> & Hc).
    by right.
Qed.

Lemma encode_float_number negative i f rest :
  canonical_float i f = true →
  number_text (encode_float negative i f ++ rest).
Proof.
  intros [Hi _]%canonical_float_parts. unfold encode_float.
  destruct (int_part_head _ Hi) as (c & r & -> & Hc).
  destruct negative; [by right|by left].
Qed.

Lemma number_text_start s :
  number_text s → ∃ c r, s = c :: r ∧ number_start c = true.
Proof.
  destruct s as [|c r]; [done|]. intros [Hc|[Hc _]]; exists c, r.
  - split; [done|]. unfold number_start. by rewrite Hc, orb_true_r.
  - by rewrite Hc.
Qed.

Lemma parse_value_number fuel s :
  number_text s → parse_value (S fuel) s = parse_number s.
Proof.
  destruct s as [|c r]; [done|]. intros [Hc|[-> Hd]].
  - destruct c as [[] [] [] [] [] [] [] []]; done.
  - destruct r as [|d r]; [done|].
    destruct d as [[] [] [] [] [] [] [] []]; done.
Qed.

Lemma encode_head level v :
  wf_json v → ∃ c r, encode level v = c :: r ∧ value_start c = true.
Proof.
  intros Hwf.
  destruct v as [|[]|z|negative i f|s|[|x xs]|[|m ms]];
    try (by eexists _, _).
  - pose proof (encode_int_number z []) as Hz. rewrite app_nil_r in Hz.
    destruct (number_text_start _ Hz) as (c & r & Heq & Hc).
    exists c, r. split; [done|]. unfold value_start. rewrite Hc.
    by rewrite !orb_true_r.
  - inversion Hwf as [| | |? ? ? Hcan| | |]; subst.
    pose proof (encode_float_number negative i f [] Hcan) as Hz.
    rewrite app_nil_r in Hz.
    destruct (number_text_start _ Hz) as (c & r & Heq & Hc).
    exists c, r. split; [done|]. unfold value_start. rewrite Hc.
    by rewrite !orb_true_r.
Qed.

Lemma skip_ws_encode level v t :
  wf_json v → skip_ws (encode level v ++ t) = encode level v ++ t.
Proof.
  intros Hwf. destruct (encode_head level v Hwf) as (c & r & -> & Hc).
  apply value_start_visible in Hc as (Hws & _). by apply skip_ws_visible.
Qed.

Lemma value_end_elements enc level xs k t :
  value_end (encode_elements enc level xs ++ newline_indent k ++ t).
Proof. destruct xs; [by right|by left]. Qed.

Lemma value_end_members enc level ms k t :
  value_end (encode_members enc level ms ++ newline_indent k ++ t).
Proof. destruct ms; [by right|by left]. Qed.

(** **** Containers *)

Lemma parse_elements_close pv fuel k rest :
  parse_elements pv (S fuel) (newline_indent k ++ "]"%char :: rest) =
  Ok ([], rest).
Proof. cbn [parse_elements]. by rewrite skip_ws_newline_indent. Qed.

Lemma parse_elements_comma pv fuel level t :
  parse_elements pv (S fuel) (","%char :: newline_indent level ++ t) =
  match pv (skip_ws t) with
  | Ok (v, s') =>
    match parse_elements pv fuel s' with
    | Ok (vs, rest) => Ok (v :: vs, rest)
    | Bad => Bad
    | Beyond => Beyond
    end
  | Bad => Bad
  | Beyond => Beyond
  end.
Proof.
  cbn [parse_elements]. rewrite skip_ws_visible by done.
  change (Ascii.eqb "," "]") with false. change (Ascii.eqb "," ",") with true.
  cbn iota. by rewrite skip_ws_newline_indent.
Qed.

Lemma parse_encode_elements pv level k rest xs : ∀ fuel,
  Forall wf_json xs →
  Forall (reads_back pv level) xs →
  (length xs < fuel)%nat →
  parse_elements pv fuel
    (encode_elements (encode level) level xs ++
     newline_indent k ++ "]"%char :: rest) =
  Ok (xs, rest).
Proof.
  induction xs as [|y ys IH]; intros fuel Hwf Hall Hfuel;
    (destruct fuel as [|fuel]; [simpl in Hfuel; lia|]).
  - apply parse_elements_close.
  - apply Forall_cons in Hall as [Hy Hys].
    apply Forall_cons in Hwf as [Hwfy Hwfys].
    change (encode_elements (encode level) level (y :: ys))
      with ([","%char] ++ newline_indent level ++ encode level y ++
            encode_elements (encode level) level ys).
    rewrite <- !app_assoc.
    change ([","%char] ++ ?t) with (","%char :: t).
    rewrite parse_elements_comma, skip_ws_encode by done.
    rewrite Hy by apply value_end_elements.
    rewrite IH; [done|done|done|]. simpl in Hfuel. lia.
Qed.

Lemma parse_encode_member pv level m tail :
  wf_str m.1 → wf_json m.2 →
  value_end tail →
  reads_back pv level m.2 →
  parse_member pv (encode_member (encode level) m ++ tail) = Ok (m, tail).
Proof.
  intros Hkey Hwf Htail Hm. destruct m as [k x].
  unfold encode_member. cbn [fst snd] in *.
  rewrite <- !app_assoc.
  destruct (parse_encode_str k ([":"%char; SPACE] ++ encode level x ++ tail))
    as (r & -> & Hr); [done|].
  cbn [parse_member]. change (Ascii.eqb DQUOTE DQUOTE) with true. cbn iota.
  rewrite Hr.
  change ([":"%char; SPACE] ++ ?t) with (":"%char :: SPACE :: t).
  rewrite skip_ws_visible by done.
  change (Ascii.eqb ":" ":") with true. cbn iota.
  change (skip_ws (SPACE :: ?t)) with (skip_ws t).
  by rewrite skip_ws_encode, Hm.
Qed.

Lemma encode_member_visible level m t :
  skip_ws (encode_member (encode level) m ++ t) =
  encode_member (encode level) m ++ t.
Proof. done. Qed.

Lemma parse_members_close pv fuel k rest :
  parse_members pv (S fuel) (newline_indent k ++ "}"%char :: rest) =
  Ok ([], rest).
Proof. cbn [parse_members]. by rewrite skip_ws_newline_indent. Qed.

Lemma parse_members_comma pv fuel level t :
  parse_members pv (S fuel) (","%char :: newline_indent level ++ t) =
  match parse_member pv (skip_ws t) with
  | Ok (m, s') =>
    match parse_members pv fuel s' with
    | Ok (ms, rest) => Ok (m :: ms, rest)
    | Bad => Bad
    | Beyond => Beyond
    end
  | Bad => Bad
  | Beyond => Beyond
  end.
Proof.
  cbn [parse_members]. rewrite skip_ws_visible by done.
  change (Ascii.eqb "," "}") with false. change (Ascii.eqb "," ",") with true.
  cbn iota. by rewrite skip_ws_newline_indent.
Qed.

Lemma parse_encode_members pv level k rest ms : ∀ fuel,
  Forall (λ m, wf_str m.1 ∧ wf_json m.2) ms →
  Forall (λ m, reads_back pv level m.2) ms →
  (length ms < fuel)%nat →
  parse_members pv fuel
    (encode_members (encode level) level ms ++
     newline_indent k ++ "}"%char :: rest) =
  Ok (ms, rest).
Proof.
  induction ms as [|m ms IH]; intros fuel Hwf Hall Hfuel;
    (destruct fuel as [|fuel]; [simpl in Hfuel; lia|]).
  - apply parse_members_close.
  - apply Forall_cons in Hall as [Hm Hms].
    apply Forall_cons in Hwf as [[Hkey Hwfm] Hwfms].
    change (encode_members (encode level) level (m :: ms))
      with ([","%char] ++ newline_indent level ++
            encode_member (encode level) m ++
            encode_members (encode level) level ms).
    rewrite <- !app_assoc.
    change ([","%char] ++ ?t) with (","%char :: t).
    rewrite parse_members_comma, encode_member_visible.
    rewrite parse_encode_member by (done || apply value_end_members).
    rewrite IH; [done|done|done|]. simpl in Hfuel. lia.
Qed.

(** A dictionary with distinct keys is rebuilt as it was written. *)
Lemma dict_set_fresh k v ms :
  k ∉ ms.*1 → dict_set k v ms = ms ++ [(k, v)].
Proof.
  induction ms as [|[k' v'] ms IH]; [done|]. cbn [fmap list_fmap fst].
  intros Hk. apply not_elem_of_cons in Hk as [Hne Hk]. cbn [dict_set].
  rewrite bool_decide_eq_false_2 by done. cbn [app]. by rewrite IH.
Qed.

Lemma dict_of_pairs_nodup ms : NoDup ms.*1 → dict_of_pairs ms = ms.
Proof.
  unfold dict_of_pairs.
  assert (∀ acc, NoDup (acc.*1 ++ ms.*1) →
            foldl (λ d kv, dict_set kv.1 kv.2 d) acc ms = acc ++ ms) as H.
  { induction ms as [|[k v] ms IH]; intros acc Hnd.
    - by rewrite app_nil_r.
    - cbn [foldl fst snd]. cbn [fmap list_fmap fst] in Hnd.
      rewrite dict_set_fresh.
      + rewrite IH; [by rewrite <- app_assoc|].
        rewrite fmap_app, <- app_assoc. exact Hnd.
      + apply NoDup_app in Hnd as (_ & Hdisj & _).
        intros Hin. apply (Hdisj k Hin). left. }
  intros Hnd. by apply (H []).
Qed.

Lemma encode_elements_length enc level xs :
  (length xs ≤ length (encode_elements enc level xs))%nat ∧
  ∀ y, y ∈ xs →
    (length (enc y) ≤ length (encode_elements enc level xs))%nat.
Proof.
  induction xs as [|x xs [IHn IHy]].
  - split; [done|]. by intros y Hy%elem_of_nil.
  - change (encode_elements enc level (x :: xs))
      with ([","%char] ++ newline_indent level ++ enc x ++
            encode_elements enc level xs).
    rewrite !length_app. cbn [length]. split; [lia|].
    intros y [->|Hy]%elem_of_cons; [lia|]. specialize (IHy y Hy). lia.
Qed.

Lemma encode_members_length enc level ms :
  (length ms ≤ length (encode_members enc level ms))%nat ∧
  ∀ m, m ∈ ms →
    (length (enc m.2) ≤ length (encode_members enc level ms))%nat.
Proof.
  induction ms as [|x ms [IHn IHy]].
  - split; [done|]. by intros y Hy%elem_of_nil.
  - change (encode_members enc level (x :: ms))
      with ([","%char] ++ newline_indent level ++ encode_member enc x ++
            encode_members enc level ms).
    unfold encode_member. rewrite !length_app. cbn [length].
    split; [lia|].
    intros y [->|Hy]%elem_of_cons; [lia|]. specialize (IHy y Hy). lia.
Qed.

(** **** Values *)

Lemma parse_encode v :
  wf_json v →
  ∀ level fuel rest,
    (length (encode level v) ≤ fuel)%nat →
    value_end rest →
    parse_value fuel (encode level v ++ rest) = Ok (v, rest).
Proof.
  induction v as [|b|z|negative i f|s|l IH|ms IH] using json_ind;
    intros Hwf level fuel rest Hfuel Hrest.
  - destruct fuel; [simpl in Hfuel; lia|done].
  - destruct fuel; [destruct b; simpl in Hfuel; lia|]. by destruct b.
  - destruct (encode_head level (JInt z) Hwf) as (c & r & Hz & Hc).
    destruct fuel; [rewrite Hz in Hfuel; simpl in Hfuel; lia|].
    cbn [encode].
    rewrite parse_value_number by apply encode_int_number.
    by apply parse_number_encode.
  - destruct (encode_head level (JFloat negative i f) Hwf)
      as (c & r & Hz & Hc).
    destruct fuel; [rewrite Hz in Hfuel; simpl in Hfuel; lia|].
    inversion Hwf as [| | |? ? ? Hcan| | |]; subst. cbn [encode].
    rewrite parse_value_number by by apply encode_float_number.
    by apply parse_number_float.
  - destruct fuel; [simpl in Hfuel; lia|]. cbn [encode].
    inversion Hwf as [| | | |? Hs| |]; subst.
    destruct (parse_encode_str s rest Hs) as (r & -> & Hr).
    cbn [parse_value]. change (Ascii.eqb DQUOTE DQUOTE) with true. cbn iota.
    by rewrite Hr.
  - inversion Hwf as [| | | | |l' Hall|]; subst.
    destruct fuel; [destruct l; simpl in Hfuel; lia|].
    destruct l as [|x xs]; [done|].
    apply Forall_cons in IH as [IHx IHxs].
    apply Forall_cons in Hall as [Hx Hxs].
    cbn [encode] in *. rewrite !length_app in Hfuel. cbn [length] in Hfuel.
    destruct (encode_elements_length (encode (S level)) (S level) xs)
      as [Hlen Helem].
    rewrite <- !app_assoc.
    change (["["%char] ++ ?t) with ("["%char :: t).
    change (["]"%char] ++ ?t) with ("]"%char :: t).
    cbn [parse_value].
    change (Ascii.eqb "[" DQUOTE) with false.
    change (Ascii.eqb "[" "[") with true. cbn iota.
    rewrite skip_ws_newline_indent, skip_ws_encode by done.
    destruct (encode_head (S level) x Hx) as (c & r & Hcr & Hc).
    apply value_start_visible in Hc as (_ & Hclose & _).
    rewrite Hcr at 1. rewrite <- app_comm_cons. rewrite Hclose.
    rewrite IHx; [|done|lia|apply value_end_elements].
    rewrite parse_encode_elements; [done|done| |lia].
    apply Forall_forall. intros y Hy t Ht.
    rewrite Forall_forall in IHxs. rewrite Forall_forall in Hxs.
    apply IHxs; [done|by apply Hxs| |done].
    specialize (Helem y Hy). lia.
  - inversion Hwf as [| | | | | |ms' Hnodup Hall]; subst.
    destruct fuel; [destruct ms; simpl in Hfuel; lia|].
    destruct ms as [|m ms]; [done|].
    apply Forall_cons in IH as [IHm IHms].
    apply Forall_cons in Hall as [[Hkey Hm] Hms].
    cbn [encode] in *. unfold encode_member at 1 in Hfuel.
    rewrite !length_app in Hfuel. cbn [length] in Hfuel.
    destruct (encode_members_length (encode (S level)) (S level) ms)
      as [Hlen Helem].
    rewrite <- !app_assoc.
    change (["{"%char] ++ ?t) with ("{"%char :: t).
    change (["}"%char] ++ ?t) with ("}"%char :: t).
    cbn [parse_value].
    change (Ascii.eqb "{" DQUOTE) with false.
    change (Ascii.eqb "{" "[") with false.
    change (Ascii.eqb "{" "{") with true. cbn iota.
    rewrite skip_ws_newline_indent, encode_member_visible.
    assert (∃ r, encode_member (encode (S level)) m ++
                 encode_members (encode (S level)) (S level) ms ++
                 newline_indent level ++ "}"%char :: rest = DQUOTE :: r)
      as [r Hr] by (by eexists).
    rewrite Hr at 1. change (Ascii.eqb DQUOTE "}") with false. cbn iota.
    rewrite parse_encode_member; [|done|done|apply value_end_members|].
    + rewrite parse_encode_members;
        [by rewrite dict_of_pairs_nodup|done| |lia].
      apply Forall_forall. intros y Hy t Ht.
      rewrite Forall_forall in IHms. rewrite Forall_forall in Hms.
      apply IHms; [done|by apply Hms| |done].
      specialize (Helem y Hy). lia.
    + intros t Ht. apply IHm; [done|lia|done].
Qed.

(** **** The text that is written *)

Lemma hex_digit_plain n : plain (hex_digit n) = true.
Proof. unfold hex_digit. by repeat case_match. Qed.

Lemma escape_u_plain n : Forall (λ x, plain x) (escape_u n).
Proof.
  unfold escape_u.
  repeat (constructor; [done || by rewrite hex_digit_plain|]). constructor.
Qed.

Lemma escape_code_plain n : Forall (λ x, plain x) (escape_code n).
Proof.
  unfold escape_code.
  repeat (case_match; [by repeat constructor|]).
  case_match eqn:Hplain.
  { apply andb_true_iff in Hplain as [H32 H126].
    constructor; [|constructor]. unfold plain.
    rewrite N_ascii_embedding
      by (apply N.leb_le in H126; lia).
    by rewrite H32, H126, orb_true_r. }
  case_match; [apply escape_u_plain|].
  apply Forall_app. split; apply escape_u_plain.
Qed.

Lemma escape_plain s : Forall (λ x, plain x) (escape s).
Proof.
  induction s as [|c s IH]; [constructor|].
  change (escape (c :: s)) with (escape_code c ++ escape s).
  apply Forall_app. split; [apply escape_code_plain|done].
Qed.

Lemma encode_str_plain s : Forall (λ x, plain x) (encode_str s).
Proof.
  unfold encode_str. constructor; [done|]. apply Forall_app.
  split; [apply escape_plain|by repeat constructor].
Qed.

Lemma digits_of_uint_plain d : Forall (λ x, plain x) (digits_of_uint d).
Proof. induction d; cbn [digits_of_uint]; by constructor. Qed.

Lemma encode_int_plain z : Forall (λ x, plain x) (encode_int z).
Proof.
  unfold encode_int. destruct (Z.to_int z);
    [|constructor; [done|]]; apply digits_of_uint_plain.
Qed.

Lemma encode_float_plain negative i f :
  Forall (λ x, plain x) (encode_float negative i f).
Proof.
  unfold encode_float. apply Forall_app. split.
  - destruct negative; by repeat constructor.
  - apply Forall_app. split; [apply digits_of_uint_plain|].
    constructor; [done|apply digits_of_uint_plain].
Qed.

Lemma newline_indent_plain level : Forall (λ x, plain x) (newline_indent level).
Proof.
  unfold newline_indent. constructor; [done|].
  apply Forall_replicate. done.
Qed.

Lemma encode_plain v : ∀ level, Forall (λ x, plain x) (encode level v).
Proof.
  induction v as [|b|z|negative i f|s|l IH|ms IH] using json_ind;
    intros level.
  - by repeat constructor.
  - destruct b; by repeat constructor.
  - apply encode_int_plain.
  - apply encode_float_plain.
  - apply encode_str_plain.
  - destruct l as [|x xs]; [by repeat constructor|].
    apply Forall_cons in IH as [Hx Hxs]. cbn [encode].
    repeat (apply Forall_app; split);
      try apply newline_indent_plain; try (by repeat constructor); try apply Hx.
    induction Hxs as [|y ys Hy _ IHys]; [constructor|].
    cbn [encode_elements].
    repeat (apply Forall_app; split);
      try apply newline_indent_plain; try (by repeat constructor);
      try apply Hy; try apply IHys.
  - destruct ms as [|m ms]; [by repeat constructor|].
    apply Forall_cons in IH as [Hm Hms]. cbn [encode]. unfold encode_member.
    repeat (apply Forall_app; split);
      try apply newline_indent_plain; try apply encode_str_plain;
      try (by repeat constructor); try apply Hm.
    induction Hms as [|y ys Hy _ IHys]; [constructor|].
    cbn [encode_members]. unfold encode_member.
    repeat (apply Forall_app; split);
      try apply newline_indent_plain; try apply encode_str_plain;
      try (by repeat constructor); try apply Hy; try apply IHys.
Qed.

Lemma plain_is_ascii c : plain c = true → is_ascii c = true.
Proof. destruct c as [[] [] [] [] [] [] [] []]; done. Qed.

Lemma encode_is_ascii level v : forallb is_ascii (encode level v) = true.
Proof.
  apply Is_true_true, forallb_True.
  eapply Forall_impl; [apply encode_plain|].
  intros c Hc. apply Is_true_true, plain_is_ascii. by apply Is_true_true.
Qed.

(** [json.load] gives back what [json.dump] wrote. *)
Lemma loads_dumps v : wf_json v → loads (dumps v) = Ok v.
Proof.
  intros Hwf. unfold loads, dumps.
  rewrite String.list_ascii_of_string_of_list_ascii, encode_is_ascii.
  pose proof (skip_ws_encode 0 v [] Hwf) as Hskip.
  rewrite app_nil_r in Hskip. rewrite Hskip.
  pose proof (parse_encode v Hwf 0 (S (length (encode 0 v))) []) as Hparse.
  rewrite app_nil_r in Hparse. rewrite Hparse; [done|lia|done].
Qed.

(** **** Saving, then loading *)

Lemma save_to_returns env fs path shown v :
  (save_to env fs path shown v).1.2 = Returned tt →
  (save_to env fs path shown v).2 = <[path := dumps v]> fs.
Proof.
  unfold save_to. cbn [fst snd].
  destruct (writable env path); [done|].
  destruct (isfile fs path); done.
Qed.

Lemma load_from_saved fs path shown v :
  wf_json v →
  load_from (<[path := dumps v]> fs) path shown =
  Loads ([Log INFO (MsgCacheLoaded shown)], Returned v).
Proof.
  intros Hwf. unfold load_from. rewrite lookup_insert_eq.
  change (default "" (Some (dumps v))) with (dumps v).
  by rewrite loads_dumps.
Qed.

Lemma isfile_saved (fs : Files) path contents :
  isfile (<[path := contents]> fs) path = true.
Proof.
  unfold isfile. apply bool_decide_eq_true_2. rewrite lookup_insert_eq. eauto.
Qed.

Lemma wf_str_code_points s :
  Forall (λ c, is_ascii c = true) (String.list_ascii_of_string s) →
  wf_str (code_points s).
Proof.
  unfold code_points.
  induction 1 as [|c l Hc%is_ascii_bound _ IH]; [done|].
  cbn [fmap list_fmap wf_str]. split_and!; [lia| |done].
  intros Hhigh. rewrite not_high_outside in Hhigh by lia. done.
Qed.

(** The chapters the organizer makes are well formed when what the
    server sent is. *)
Lemma wf_chapter_json id title description is_published children :
  wf_json id → wf_json title → wf_json description →
  wf_json is_published → Forall wf_json children →
  wf_json (chapter_json id title description is_published children).
Proof.
  intros Hid Htitle Hdescription Hpublished Hchildren.
  apply wf_dict; [apply (bool_decide_unpack _); by vm_compute|].
  repeat (apply Forall_cons; split;
          [split; [by apply wf_str_code_points, (bool_decide_unpack _)
                  |first [done|by apply wf_list]]|]).
  apply Forall_nil_2.
Qed.

(** C7.  When the curriculum is saved with [--save] and the save
    succeeds, loading with the same [--load] argument (the same path, or
    the default file for both) logs that the file was loaded and returns
    a value that is the saved curriculum itself: the same number of
    chapters, the same number of children in every chapter, chapters and
    children in the same order.  The curriculum is any value that
    [json.load] or the server's reply can give, within the floats the
    model holds. *)
Theorem save_then_load_restores_curriculum
    (env : Env) (stdout_is_file : bool) (fs : Files) (a : PathArg)
    (course_curriculum : json) :
  arg_truthy a = true →
  wf_json course_curriculum →
  (main_save env fs a course_curriculum).1.2 = Returned tt →
  ∃ shown loaded,
    main_load env stdout_is_file (main_save env fs a course_curriculum).2 a =
      Loads ([Log INFO (MsgCacheLoaded shown)], Returned loaded) ∧
    length (chapters_of loaded) = length (chapters_of course_curriculum) ∧
    (length ∘ children_of) <$> chapters_of loaded =
      (length ∘ children_of) <$> chapters_of course_curriculum ∧
    loaded = course_curriculum.
Proof.
  intros Ha Hwf Hsaved. unfold main_save, main_load in *. rewrite Ha in *.
  destruct a as [| |path]; [done|..];
    rewrite (save_to_returns _ _ _ _ _ Hsaved), isfile_saved,
      (load_from_saved _ _ _ _ Hwf); by eexists _, _.
Qed.

Lemma save_then_load_restores_curriculum_witness :
  ∃ shown loaded,
    main_load (ex_env (λ _, NoReply)) false
      (main_save (ex_env (λ _, NoReply)) ∅ (ArgPath "cache.json")
         ex_cache).2 (ArgPath "cache.json") =
      Loads ([Log INFO (MsgCacheLoaded shown)], Returned loaded) ∧
    length (chapters_of loaded) = length (chapters_of ex_cache) ∧
    (length ∘ children_of) <$> chapters_of loaded =
      (length ∘ children_of) <$> chapters_of ex_cache ∧
    loaded = ex_cache.
Proof.
  apply (save_then_load_restores_curriculum (ex_env (λ _, NoReply)) false ∅
           (ArgPath "cache.json") ex_cache); [reflexivity| |reflexivity].
  apply wf_list.
  repeat (apply Forall_cons; split; [|try apply Forall_nil_2]);
    apply wf_chapter_json; repeat constructor;
    try (apply (bool_decide_unpack _); by vm_compute);
    cbn; repeat split; done.
Defined.

(** ** Worker pool *)

(** A pool never runs more tasks than its bound. *)
Lemma pool_step_bound w st st' :
  pool_step w st st' →
  (length (running st) ≤ w)%nat → (length (running st') ≤ w)%nat.
Proof.
  intros Hstep Hle. destruct Hstep as [st t|st t rest Hq Hlt|st b t a Hr];
    cbn [running].
  - done.
  - rewrite length_app. cbn [length]. lia.
  - rewrite Hr, !length_app in *. cbn [length] in Hle. lia.
Qed.

Lemma pool_bound w st :
  rtc (pool_step w) pool_empty st → (length (running st) ≤ w)%nat.
Proof.
  revert st. apply (rtc_ind_r (λ st, (length (running st) ≤ w)%nat)).
  - cbn. lia.
  - intros st st' _ Hstep IH. by apply (pool_step_bound w st st').
Qed.

(** With one worker the order of the tasks is kept: a step adds a task
    at the end or leaves the order as it is. *)
Lemma pool_one_worker_order st st' :
  (length (running st) ≤ 1)%nat →
  pool_step 1 st st' →
  pool_order st' = pool_order st ∨ ∃ t, pool_order st' = pool_order st ++ [t].
Proof.
  intros Hle Hstep. unfold pool_order.
  destruct Hstep as [st t|st t rest Hq Hlt|st b t a Hr];
    cbn [queued running finished].
  - right. exists t. by rewrite !app_assoc.
  - left. by rewrite Hq, <- !app_assoc.
  - left. rewrite Hr in *. rewrite length_app in Hle. cbn [length] in Hle.
    destruct b as [|? ?]; [|simpl in Hle; lia].
    destruct a as [|? ?]; [|simpl in Hle; lia].
    by rewrite <- !app_assoc.
Qed.

(** C5 on the code: the pool of [download_course] is created with the
    literal bound 1, whatever [--threads] says.  With [--threads 4] the
    bound is not the configured size; in no state of the pool do two
    lecture tasks run at the same time, and the tasks are run in the
    order in which they were submitted. *)
Theorem pool_bound_ignores_threads :
  arg_threads ex_args = 4 ∧
  max_workers = 1%nat ∧
  Z.of_nat max_workers ≠ arg_threads ex_args ∧
  (∀ st, pool_reachable st → (length (running st) ≤ 1)%nat) ∧
  (∀ st st', pool_reachable st → pool_step max_workers st st' →
     pool_order st' = pool_order st ∨
     ∃ t, pool_order st' = pool_order st ++ [t]).
Proof.
  split_and!; [done..| |].
  - intros st Hst. by apply (pool_bound max_workers).
  - intros st st' Hst Hstep. apply pool_one_worker_order; [|done].
    by apply (pool_bound max_workers).
Qed.

Lemma pool_bound_ignores_threads_witness :
  (length (running {| queued := [2%nat]; running := [1%nat];
                      finished := [] |}) ≤ 1)%nat.
Proof.
  apply (proj1 (proj2 (proj2 (proj2 pool_bound_ignores_threads)))).
  unfold pool_reachable.
  eapply rtc_l; [apply (pool_submit _ pool_empty 1%nat)|].
  eapply rtc_l; [apply (pool_submit _ _ 2%nat)|].
  eapply rtc_l; [eapply (pool_start _ _ 1%nat [2%nat]);
                 [done|unfold max_workers; cbn; lia]|].
  apply rtc_refl.
Defined.

(** * Further properties *)

(** ** Organizer: composition, ignored items, conservation *)

Lemma drop_orphans_keep pre post :
  existsb is_chapter pre = true →
  drop_orphans (pre ++ post) = drop_orphans pre ++ post.
Proof.
  induction pre as [|x pre IH]; [done|]. cbn [existsb app drop_orphans].
  destruct (is_chapter x); [done|]. exact IH.
Qed.

Lemma drop_orphans_none pre :
  existsb is_chapter pre = false → drop_orphans pre = [].
Proof.
  induction pre as [|x pre IH]; [done|]. cbn [existsb drop_orphans].
  intros [Hx Hpre]%orb_false_iff. rewrite Hx. by apply IH.
Qed.

Lemma orphan_items_cut pre chap post :
  is_chapter chap = true →
  orphan_items (pre ++ chap :: post) = orphan_items pre.
Proof.
  intros Hc. induction pre as [|a pre IH]; cbn [app orphan_items].
  - by rewrite Hc.
  - by rewrite IH.
Qed.

Lemma org_loop_chapter_from st chap post :
  is_chapter chap = true →
  curriculum (foldl org_step st (chap :: post)) =
  curriculum st ++ curriculum (org_loop (chap :: post)).
Proof.
  intros Hch. unfold org_loop. cbn [foldl].
  rewrite (org_loop_from_open post (org_step st chap) (curriculum st)
             (new_chapter chap));
    [|unfold org_step; by rewrite Hch..].
  rewrite (org_loop_from_open post (org_step org_init chap) []
             (new_chapter chap));
    [|unfold org_step; by rewrite Hch..].
  done.
Qed.

(** X1.  A listing can be organized piecewise: cut before a chapter
    item, the curriculum of the whole is the curriculum of the first
    part followed by the curriculum of the second, the lecture counts
    add up, and the anomalies are those of the first part. *)
Theorem organize_splits_at_chapter (pre post : list RawItem) (chap : RawItem) :
  is_chapter chap = true →
  (organize_curriculum (pre ++ chap :: post)).1 =
    (organize_curriculum pre).1 ++ (organize_curriculum (chap :: post)).1 ∧
  (∃ a b, reported_lectures pre = [a] ∧
          reported_lectures (chap :: post) = [b] ∧
          reported_lectures (pre ++ chap :: post) = [(a + b)%nat]) ∧
  reported_anomalies (pre ++ chap :: post) = reported_anomalies pre.
Proof.
  intros Hch. split_and!.
  - unfold organize_curriculum. cbn [fst]. rewrite org_loop_app.
    by apply org_loop_chapter_from.
  - eexists _, _. rewrite !reported_lectures_total, !org_loop_total.
    split_and!; [done..|]. f_equal.
    destruct (existsb is_chapter pre) eqn:Hpre.
    + rewrite drop_orphans_keep, filter_app, length_app by done.
      cbn [drop_orphans]. by rewrite Hch.
    + rewrite drop_orphans_app, (drop_orphans_none pre) by done. done.
  - rewrite !reported_anomalies_orphans. by rewrite orphan_items_cut.
Qed.

Lemma organize_splits_at_chapter_witness :
  (organize_curriculum ([ex_L0; ex_A; ex_L1] ++ ex_B :: [ex_L2])).1 =
  (organize_curriculum [ex_L0; ex_A; ex_L1]).1 ++
  (organize_curriculum (ex_B :: [ex_L2])).1.
Proof.
  exact (proj1 (organize_splits_at_chapter [ex_L0; ex_A; ex_L1] [ex_L2] ex_B
                  eq_refl)).
Defined.

Lemma org_step_unrecognised st item :
  recognised item = false → org_step st item = st.
Proof.
  unfold recognised. intros [Hc Hl]%orb_false_iff.
  unfold org_step. by rewrite Hc, Hl.
Qed.

Lemma org_loop_recognised items : ∀ st,
  foldl org_step st (filter (λ i, recognised i) items) =
  foldl org_step st items.
Proof.
  induction items as [|x items IH]; intros st; [done|].
  destruct (recognised x) eqn:Hx.
  - rewrite filter_cons_True by (by rewrite Hx). cbn [foldl]. apply IH.
  - rewrite filter_cons_False by (rewrite Hx; by intros []). cbn [foldl].
    by rewrite org_step_unrecognised.
Qed.

(** X2.  Items whose class tag is neither chapter, lecture nor practice
    (a quiz, say) have no effect whatsoever: the curriculum, the counts
    and the warnings are those of the listing without them. *)
Theorem organize_ignores_other_classes (items : list RawItem) :
  organize_curriculum (filter (λ i, recognised i) items) =
  organize_curriculum items.
Proof.
  unfold organize_curriculum, org_loop. by rewrite org_loop_recognised.
Qed.

Lemma elem_of_concat_intro {A} (x : A) (l : list A) (ls : list (list A)) :
  l ∈ ls → x ∈ l → x ∈ concat ls.
Proof.
  intros Hl Hx. induction ls as [|l' ls IH]; [by apply elem_of_nil in Hl|].
  cbn [concat]. apply elem_of_app.
  apply elem_of_cons in Hl as [->|Hl]; [by left|right; by apply IH].
Qed.

(** X3.  The organizer invents nothing: every child of an output chapter
    is a lecture or practice item of the input (never a chapter item),
    and every output chapter carries the id, title, description and
    publication flag of a chapter item of the input. *)
Theorem organize_invents_nothing (items : list RawItem) (c : Chapter) :
  c ∈ (organize_curriculum items).1 →
  (∀ child, child ∈ ch_children c →
     child ∈ items ∧ is_lecture_like child = true ∧
     is_chapter child = false) ∧
  ∃ item, item ∈ items ∧ is_chapter item = true ∧ header c = new_chapter item.
Proof.
  intros Hc. split.
  - intros child Hchild.
    assert (child ∈ concat (ch_children <$> (organize_curriculum items).1))
      as Hin.
    { apply (elem_of_concat_intro _ (ch_children c)); [|done].
      by apply list_elem_of_fmap_2. }
    rewrite organize_children in Hin.
    apply list_elem_of_filter in Hin as [Hll Hin].
    apply Is_true_true in Hll. split_and!; [|done|by apply lecture_like_not_chapter].
    clear -Hin. induction items as [|x items IH]; [done|].
    cbn [drop_orphans] in Hin. destruct (is_chapter x); [done|].
    right. by apply IH.
  - assert (header c ∈ header <$> (organize_curriculum items).1) as Hin
      by by apply list_elem_of_fmap_2.
    rewrite organize_headers in Hin.
    apply list_elem_of_fmap in Hin as (item & Hhdr & Hitem).
    apply list_elem_of_filter in Hitem as [Hch Hitem].
    exists item. split_and!; [done|by apply Is_true_true|done].
Qed.

Lemma organize_invents_nothing_witness :
  ∃ item, item ∈ [ex_L0; ex_A; ex_L1] ∧ is_chapter item = true ∧
          header (append_child ex_L1 (new_chapter ex_A)) = new_chapter item.
Proof.
  apply (proj2 (organize_invents_nothing [ex_L0; ex_A; ex_L1]
                  (append_child ex_L1 (new_chapter ex_A))
                  ltac:(vm_compute; left))).
Defined.

Lemma reported_chapters_length items :
  reported_chapters items = [length (organize_curriculum items).1].
Proof.
  unfold reported_chapters, organize_curriculum. cbn [fst snd].
  rewrite org_log_orphans, omap_app. cbn.
  induction (orphan_items items) as [|x l IH]; [done|]. exact IH.
Qed.

Lemma lecture_like_partition items :
  length (filter (λ i, is_lecture_like i) items) =
  (length (orphan_items items) +
   length (filter (λ i, is_lecture_like i) (drop_orphans items)))%nat.
Proof.
  induction items as [|x items IH]; [done|]. cbn [orphan_items drop_orphans].
  destruct (is_chapter x) eqn:Hc.
  - done.
  - destruct (is_lecture_like x) eqn:Hl.
    + rewrite filter_cons_True by (by rewrite Hl). cbn [length]. lia.
    + rewrite filter_cons_False by (rewrite Hl; by intros []). done.
Qed.

(** X4.  Nothing is lost without notice: the reported chapter count is
    the number of chapter items of the input, and every lecture or
    practice item of the input is either a child of some output chapter
    or the subject of one anomaly warning. *)
Theorem organize_accounts_for_every_item (items : list RawItem) :
  reported_chapters items = [length (filter (λ i, is_chapter i) items)] ∧
  length (filter (λ i, is_lecture_like i) items) =
    (length (concat (ch_children <$> (organize_curriculum items).1)) +
     length (reported_anomalies items))%nat.
Proof.
  split.
  - rewrite reported_chapters_length. f_equal.
    pose proof (organize_headers items) as Hh.
    apply (f_equal length) in Hh. by rewrite !length_fmap in Hh.
  - rewrite organize_children, reported_anomalies_orphans, length_fmap.
    rewrite lecture_like_partition. lia.
Qed.

(** ** Fetcher: failures and cursors that never end *)

Section FetcherFailures.
Variable env : Env.

Lemma fetch_loop_linked stop chain : ∀ fuel all_results total_count trace,
  linked_pages env chain stop →
  ∃ trace',
    fetch_loop env (length chain + fuel) (first_url chain stop)
      all_results total_count trace =
    fetch_loop env fuel stop
      (all_results ++ concat (page_items <$> chain.*2))
      (total_after total_count chain.*2) (trace ++ trace') ∧
    requests trace' = chain.*1.
Proof.
  induction chain as [|[u p] rest IH]; intros fuel acc total trace Hlinked.
  - exists []. cbn. by rewrite !app_nil_r.
  - destruct Hlinked as (Hu & Hget & Hdetail & Hnext & Hrest).
    cbn [length Nat.add first_url].
    rewrite (fetch_loop_step env _ _ p) by done. rewrite Hnext.
    edestruct (IH fuel) as (trace' & -> & Hreq); [exact Hrest|].
    cbn [fmap list_fmap concat snd fst total_after foldl].
    rewrite <- !app_assoc. eexists. split; [reflexivity|].
    rewrite !requests_app, Hreq. by destruct (total =? 0).
Qed.

Lemma fetch_loop_not_found fuel u p all_results total_count trace :
  truthy (Some u) = true →
  get_listing env u = Json p →
  pg_detail p = Some "Not found." →
  fetch_loop env (S fuel) (Some u) all_results total_count trace =
  Some (trace ++ [HttpGet u; Log CRITICAL MsgCurriculumNotFound],
        Raised (SystemExit 1)).
Proof.
  intros Hu Hget Hdetail. cbn [fetch_loop]. rewrite Hu.
  change (default "" (Some u)) with u. rewrite Hget.
  by rewrite bool_decide_eq_true_2.
Qed.

Lemma fetch_loop_no_reply fuel u all_results total_count trace :
  truthy (Some u) = true →
  get_listing env u = NoReply →
  fetch_loop env (S fuel) (Some u) all_results total_count trace =
  Some (trace ++ [HttpGet u; Log CRITICAL MsgRequestFailed],
        Raised (PyException "AttributeError")).
Proof.
  intros Hu Hget. cbn [fetch_loop]. rewrite Hu.
  change (default "" (Some u)) with u. by rewrite Hget.
Qed.

(** X5.  A page carrying the not-found marker is fatal wherever it comes
    in the pagination: after the pages before it have been fetched, the
    fetch logs the critical message and ends with [SystemExit(1)]; the
    items accumulated so far are not organized and no further request is
    made. *)
Theorem fetch_not_found_is_fatal (course_id : Z)
    (chain : list (string * Page)) (u : string) (p : Page) (fuel : nat) :
  linked_pages env chain (Some u) →
  first_url chain (Some u) = Some (CURRICULUM_URL env course_id) →
  truthy (Some u) = true →
  get_listing env u = Json p →
  pg_detail p = Some "Not found." →
  (length chain < fuel)%nat →
  ∃ trace,
    fetch_course_curriculum env fuel course_id =
      Some (trace ++ [HttpGet u; Log CRITICAL MsgCurriculumNotFound],
            Raised (SystemExit 1)) ∧
    requests trace = chain.*1.
Proof.
  intros Hlinked Hfirst Hu Hget Hdetail Hfuel.
  replace fuel with (length chain + S (fuel - S (length chain)))%nat by lia.
  unfold fetch_course_curriculum. rewrite <- Hfirst.
  edestruct (fetch_loop_linked (Some u) chain) as (trace' & -> & Hreq);
    [exact Hlinked|].
  rewrite (fetch_loop_not_found _ _ p) by done.
  exists ([Log INFO MsgFetchingCurriculum; ProgressAddTask 0] ++ trace').
  split; [done|]. by rewrite requests_app, Hreq.
Qed.

(** X6.  A request that fails during pagination is not turned into a
    clean exit by the fetcher: [request] logs the critical message and
    returns nothing, and the fetch ends with an [AttributeError]. *)
Theorem fetch_request_failure_raises (course_id : Z)
    (chain : list (string * Page)) (u : string) (fuel : nat) :
  linked_pages env chain (Some u) →
  first_url chain (Some u) = Some (CURRICULUM_URL env course_id) →
  truthy (Some u) = true →
  get_listing env u = NoReply →
  (length chain < fuel)%nat →
  ∃ trace,
    fetch_course_curriculum env fuel course_id =
      Some (trace ++ [HttpGet u; Log CRITICAL MsgRequestFailed],
            Raised (PyException "AttributeError")) ∧
    requests trace = chain.*1.
Proof.
  intros Hlinked Hfirst Hu Hget Hfuel.
  replace fuel with (length chain + S (fuel - S (length chain)))%nat by lia.
  unfold fetch_course_curriculum. rewrite <- Hfirst.
  edestruct (fetch_loop_linked (Some u) chain) as (trace' & -> & Hreq);
    [exact Hlinked|].
  rewrite fetch_loop_no_reply by done.
  exists ([Log INFO MsgFetchingCurriculum; ProgressAddTask 0] ++ trace').
  split; [done|]. by rewrite requests_app, Hreq.
Qed.

Lemma fetch_loop_never_ends (urls : string → Prop) :
  cursors_never_end env urls →
  ∀ fuel u all_results total_count trace,
    urls u →
    fetch_loop env fuel (Some u) all_results total_count trace = None.
Proof.
  intros Hclosed. induction fuel as [|fuel IH];
    intros u acc total trace Hu;
    destruct (Hclosed u Hu) as (Htruthy & p & u' & Hget & Hdetail & Hnext & Hu').
  - cbn [fetch_loop]. by rewrite Htruthy.
  - rewrite (fetch_loop_step env _ _ p) by done. rewrite Hnext. by apply IH.
Qed.

(** X7.  When the cursors never come to an end (a cycle of "next" URLs,
    for instance) the fetch never returns: however many requests it is
    allowed, the loop is still running. *)
Theorem fetch_never_returns_on_endless_cursors (urls : string → Prop)
    (course_id : Z) (fuel : nat) :
  cursors_never_end env urls →
  urls (CURRICULUM_URL env course_id) →
  fetch_course_curriculum env fuel course_id = None.
Proof.
  intros Hclosed Hstart. unfold fetch_course_curriculum.
  by rewrite (fetch_loop_never_ends urls).
Qed.

End FetcherFailures.

Lemma fetch_not_found_is_fatal_witness :
  ∃ trace,
    fetch_course_curriculum ex_broken_env 2 7 =
      Some (trace ++ [HttpGet "https://api/page2";
                      Log CRITICAL MsgCurriculumNotFound],
            Raised (SystemExit 1)) ∧
    requests trace = ["https://api/page1"].
Proof.
  apply (fetch_not_found_is_fatal ex_broken_env 7
           [("https://api/page1", ex_page1)] "https://api/page2"
           ex_page_gone 2).
  - cbn. split_and!; done.
  - reflexivity.
  - reflexivity.
  - reflexivity.
  - reflexivity.
  - cbn. lia.
Defined.

Lemma fetch_request_failure_raises_witness :
  ∃ trace,
    fetch_course_curriculum ex_broken_env 2 8 =
      Some (trace ++ [HttpGet "https://api/missing";
                      Log CRITICAL MsgRequestFailed],
            Raised (PyException "AttributeError")) ∧
    requests trace = ["https://api/page0"].
Proof.
  apply (fetch_request_failure_raises ex_broken_env 8
           [("https://api/page0", ex_page0)] "https://api/missing" 2).
  - cbn. split_and!; done.
  - reflexivity.
  - reflexivity.
  - reflexivity.
  - cbn. lia.
Defined.

Lemma fetch_never_returns_on_endless_cursors_witness :
  fetch_course_curriculum ex_broken_env 1000 9 = None.
Proof.
  apply (fetch_never_returns_on_endless_cursors ex_broken_env
           (λ u, u = "https://api/loop") 9 1000).
  - intros u ->. split; [reflexivity|].
    exists ex_page_loop, "https://api/loop". split_and!; done.
  - reflexivity.
Defined.

(** ** Tasks: what a task does and in which order *)

Lemma bind_events {A B} (m : M A) (f : A → M B) :
  (m ≫= f).1 =
  m.1 ++ match m.2 with Returned a => (f a).1 | Raised _ => [] end.
Proof.
  unfold mbind, M_bind. destruct m.2; cbn [fst]; [done|].
  by rewrite app_nil_r.
Qed.

Lemma omap_quiet {B} (f : Event → option B) (P : Event → Prop) l :
  (∀ e, P e → f e = None) → Forall P l → omap f l = [].
Proof.
  intros HP Hall. induction Hall as [|e l He _ IH]; [done|].
  cbn. by rewrite (HP e He).
Qed.

Ltac events_step :=
  first
    [ apply bind_events_Forall; [|intros ?]
    | case_match
    | progress (cbn [fst mret M_ret emit raise log call])
    | apply Forall_nil_2
    | apply Forall_cons; split; [done|] ].

Section TaskSteps.
Variable env : Env.

(** What follows the fetch of the lecture detail in [process_lecture]. *)
Lemma after_fetch_Forall (P : Event → Prop) lecture course_id folder_path
    temp lindex key n (decoded : LectureDetail + string) :
  (∀ lvl msg, no_announcement (Log lvl msg) → P (Log lvl msg)) →
  (∀ e, nonempty_payload e → no_announcement e → quiet e → P e) →
  Forall P
    (log INFO (MsgDownloadingLecture (item_title lecture) lindex n) ;;
     match decoded with
     | inr exn => raise (PyException exn)
     | inl lect_info =>
       (if (0 <? length (li_captions lect_info))%nat then
          log INFO (MsgDownloadingCaptions (length (li_captions lect_info))) ;;
          call env (CallDownloadCaptions (li_captions lect_info) folder_path
                      (output_name env lindex lecture) (captions env))
        else mret tt) ;;
       (if (0 <? length (item_supplementary_assets lecture))%nat then
          log INFO (MsgDownloadingAssets
                      (length (item_supplementary_assets lecture))) ;;
          call env (CallProcessAssets (item_supplementary_assets lecture)
                      folder_path course_id (li_id lect_info))
        else mret tt) ;;
       download_media env lecture lect_info temp lindex key
     end).1.
Proof.
  intros Hlog HP.
  assert (∀ l : list Caption, (0 <? length l)%nat = true → l ≠ []) as Hc
    by (by intros [|? ?]).
  assert (∀ l : list Asset, (0 <? length l)%nat = true → l ≠ []) as Ha
    by (by intros [|? ?]).
  apply bind_events_Forall; [repeat constructor; by apply Hlog|intros _].
  destruct decoded as [lect_info|exn]; [|apply Forall_nil_2].
  apply bind_events_Forall; [|intros _].
  { destruct (0 <? length (li_captions lect_info))%nat eqn:Hlen;
      [|apply Forall_nil_2].
    apply bind_events_Forall; [repeat constructor; by apply Hlog|intros _].
    repeat constructor. apply HP; cbn; auto. }
  apply bind_events_Forall; [|intros _].
  { destruct (0 <? length (item_supplementary_assets lecture))%nat eqn:Hlen;
      [|apply Forall_nil_2].
    apply bind_events_Forall; [repeat constructor; by apply Hlog|intros _].
    repeat constructor. apply HP; cbn; auto. }
  unfold download_media.
  repeat first
    [ apply bind_events_Forall; [|intros ?]
    | case_match
    | apply Forall_nil_2
    | progress (cbn [fst mret M_ret emit raise log call])
    | apply Forall_cons; split; [first [by apply Hlog|apply HP; done]|] ].
Qed.

Lemma fetch_lecture_info_Forall (P : Event → Prop) course_id lecture_id :
  (∀ lvl msg, no_announcement (Log lvl msg) → P (Log lvl msg)) →
  P (HttpGet (LECTURE_URL env course_id lecture_id)) →
  Forall P (fetch_lecture_info env course_id lecture_id).1.
Proof.
  intros Hlog Hget. unfold fetch_lecture_info.
  repeat first
    [ apply bind_events_Forall; [|intros ?]
    | case_match
    | apply Forall_nil_2
    | progress (cbn [fst mret M_ret emit raise log call])
    | apply Forall_cons; split; [first [by apply Hlog|exact Hget]|] ].
Qed.

Lemma create_directory_Forall (P : Event → Prop) path :
  (∀ lvl msg, no_announcement (Log lvl msg) → P (Log lvl msg)) →
  P (MakeDirs path) →
  Forall P (create_directory env path).1.
Proof.
  intros Hlog Hmk. unfold create_directory.
  repeat first
    [ apply bind_events_Forall; [|intros ?]
    | case_match
    | apply Forall_nil_2
    | progress (cbn [fst mret M_ret emit raise log call])
    | apply Forall_cons; split; [first [by apply Hlog|exact Hmk]|] ].
Qed.

(** Every event of a task satisfies [P] when the logs, the directory
    creation, the request and the collaborator calls do. *)
Lemma process_lecture_Forall (P : Event → Prop) lecture course_id
    folder_path lindex key n :
  (∀ lvl msg, no_announcement (Log lvl msg) → P (Log lvl msg)) →
  (∀ path, P (MakeDirs path)) →
  (∀ url, P (HttpGet url)) →
  (∀ e, nonempty_payload e → no_announcement e → quiet e → P e) →
  Forall P (process_lecture env lecture course_id folder_path lindex key n).1.
Proof.
  intros Hlog Hmk Hget HP. unfold process_lecture.
  apply bind_events_Forall; [by apply create_directory_Forall|intros _].
  case_match; [|apply Forall_nil_2].
  apply bind_events_Forall; [by apply fetch_lecture_info_Forall|intros li].
  by apply after_fetch_Forall.
Qed.

End TaskSteps.

Section TaskProperties.
Variable env : Env.

Lemma create_directory_made path :
  made_directories (create_directory env path).1 = [path] ∧
  requests (create_directory env path).1 = [].
Proof. unfold create_directory. by destruct (makedirs env path). Qed.

Lemma fetch_lecture_info_shape course_id lecture_id :
  ∃ logs, (fetch_lecture_info env course_id lecture_id).1 =
            HttpGet (LECTURE_URL env course_id lecture_id) :: logs ∧
          Forall quiet logs.
Proof.
  unfold fetch_lecture_info. destruct (get_lecture env _);
    eexists; (split; [reflexivity|]); repeat constructor.
Qed.

(** The trace of a task: the directory creation, then, for a lecture
    whose directory could be made, the request followed by events that
    create no directory and make no request. *)
Lemma process_lecture_shape lecture course_id folder_path lindex key n :
  let temp := path_join folder_path (pretty (item_id lecture)) in
  ∃ tail,
    (process_lecture env lecture course_id folder_path lindex key n).1 =
      (create_directory env temp).1 ++
      (if match (create_directory env temp).2 with
          | Returned _ => is_lecture lecture
          | Raised _ => false
          end
       then HttpGet (LECTURE_URL env course_id (item_id lecture)) :: tail
       else []) ∧
    Forall quiet tail.
Proof.
  intros temp. unfold process_lecture. fold temp. rewrite bind_events.
  destruct (create_directory env temp).2 as [[]|e]; [|by exists []].
  destruct (is_lecture lecture); [|by exists []].
  rewrite bind_events.
  destruct (fetch_lecture_info_shape course_id (item_id lecture))
    as (logs & -> & Hlogs).
  eexists. split; [rewrite <- app_comm_cons; reflexivity|].
  apply Forall_app. split; [done|].
  destruct (fetch_lecture_info env course_id (item_id lecture)).2 as [li|];
    [|apply Forall_nil_2].
  by apply after_fetch_Forall.
Qed.

Lemma process_lecture_made lecture course_id folder_path lindex key n :
  made_directories
    (process_lecture env lecture course_id folder_path lindex key n).1 =
  [path_join folder_path (pretty (item_id lecture))].
Proof.
  destruct (process_lecture_shape lecture course_id folder_path lindex key n)
    as (tail & -> & Htail).
  unfold made_directories. rewrite omap_app.
  destruct (create_directory_made
              (path_join folder_path (pretty (item_id lecture)))) as [Hm _].
  unfold made_directories in Hm. rewrite Hm.
  case_match; [|done]. cbn.
  rewrite (omap_quiet _ quiet); [done| |done]. by intros [].
Qed.

Lemma process_lecture_requests lecture course_id folder_path lindex key n :
  makedirs env (path_join folder_path (pretty (item_id lecture))) ≠ DirFailed →
  requests
    (process_lecture env lecture course_id folder_path lindex key n).1 =
  if is_lecture lecture
  then [LECTURE_URL env course_id (item_id lecture)] else [].
Proof.
  intros Hdir.
  destruct (process_lecture_shape lecture course_id folder_path lindex key n)
    as (tail & -> & Htail).
  rewrite requests_app.
  destruct (create_directory_made
              (path_join folder_path (pretty (item_id lecture)))) as [_ Hr].
  rewrite Hr, (create_directory_returns env _ Hdir).
  destruct (is_lecture lecture); [|done]. cbn.
  unfold requests in *. rewrite (omap_quiet _ quiet); [done| |done].
  by intros [].
Qed.

Lemma omap_concat_imap {B} (proj : Event → option B)
    (h : RawItem → list B) (l : list RawItem) : ∀ g : nat → RawItem → M unit,
  (∀ i x, x ∈ l → omap proj (g i x).1 = h x) →
  omap proj (concat (fst <$> imap g l)) = concat (h <$> l).
Proof.
  induction l as [|x l IH]; intros g Hg; [done|].
  cbn [imap fmap list_fmap concat]. rewrite omap_app, Hg by left.
  f_equal. apply IH. intros i y Hy. apply Hg. by right.
Qed.

Lemma concat_singletons {A B} (d : A → B) (l : list A) :
  concat ((λ x, [d x]) <$> l) = d <$> l.
Proof. induction l as [|x l IH]; [done|]. cbn. by rewrite IH. Qed.

Lemma concat_lectures {B} (d : RawItem → B) (l : list RawItem) :
  concat ((λ x, if is_lecture x then [d x] else []) <$> l) =
  d <$> filter (λ i, is_lecture i) l.
Proof.
  induction l as [|x l IH]; [done|]. cbn [fmap list_fmap concat].
  destruct (is_lecture x) eqn:Hx.
  - rewrite filter_cons_True by (by rewrite Hx). cbn. by rewrite IH.
  - rewrite filter_cons_False by (rewrite Hx; by intros []). by rewrite IH.
Qed.

Lemma chapter_directories course_id key mindex total chapter :
  made_directories (chapter_events env course_id key mindex total chapter) =
  child_directory env mindex chapter <$> ch_children chapter.
Proof.
  unfold chapter_events, chapter_tasks, made_directories. cbn [omap list_omap].
  rewrite (omap_concat_imap _
             (λ child, [child_directory env mindex chapter child])).
  - apply concat_singletons.
  - intros i x _. apply process_lecture_made.
Qed.

(** X8.  Whatever happens to its tasks, a chapter creates exactly one
    directory per child, lecture or not, in the order of the children:
    the subdirectory of the chapter folder named by the child's id. *)
Theorem chapter_makes_one_directory_per_child
    (course_id : Z) (key : option string) (mindex total : nat)
    (chapter : Chapter) :
  made_directories
    (download_chapter env course_id key mindex total chapter).1 =
  (λ child, path_join (chapter_folder env mindex chapter)
              (pretty (item_id child))) <$> ch_children chapter.
Proof. apply chapter_directories. Qed.

(** X9.  When directories can be made, the lecture-detail endpoint is
    requested once for every lecture-class child of the chapter, in
    order, and for nothing else: practice items never reach the
    network. *)
Theorem chapter_requests_only_lectures
    (course_id : Z) (key : option string) (mindex total : nat)
    (chapter : Chapter) :
  (∀ path, makedirs env path ≠ DirFailed) →
  requests (download_chapter env course_id key mindex total chapter).1 =
  (λ child, LECTURE_URL env course_id (item_id child)) <$>
    filter (λ i, is_lecture i) (ch_children chapter).
Proof.
  intros Hdirs.
  change (download_chapter env course_id key mindex total chapter).1
    with (chapter_events env course_id key mindex total chapter).
  unfold chapter_events, chapter_tasks, requests. cbn [omap list_omap].
  rewrite (omap_concat_imap _
             (λ child, if is_lecture child
                       then [LECTURE_URL env course_id (item_id child)]
                       else [])).
  - apply concat_lectures.
  - intros i x _. by apply process_lecture_requests.
Qed.

(** X10.  The captions come before the media and nothing guards them:
    when the caption collaborator raises, the task ends with that
    exception right there; the supplementary assets are not processed
    and no stream download is attempted for the lecture. *)
Theorem caption_failure_skips_the_media
    (lecture : RawItem) (course_id : Z) (folder_path : string) (lindex : nat)
    (key : option string) (n : nat) (lect_info : LectureDetail) (x : Exn) :
  let temp := path_join folder_path (pretty (item_id lecture)) in
  let caption_call :=
    CallDownloadCaptions (li_captions lect_info) folder_path
      (output_name env lindex lecture) (captions env) in
  is_lecture lecture = true →
  makedirs env temp = DirCreated →
  get_lecture env (LECTURE_URL env course_id (item_id lecture)) =
    Json lect_info →
  li_captions lect_info ≠ [] →
  collaborator env caption_call = Some x →
  process_lecture env lecture course_id folder_path lindex key n =
  ([MakeDirs temp;
    HttpGet (LECTURE_URL env course_id (item_id lecture));
    Log INFO (MsgDownloadingLecture (item_title lecture) lindex n);
    Log INFO (MsgDownloadingCaptions (length (li_captions lect_info)));
    caption_call],
   Raised x).
Proof.
  intros temp caption_call Hlec Hdir Hget Hcaps Hfail.
  unfold process_lecture, create_directory, fetch_lecture_info.
  fold temp. rewrite Hlec, Hdir, Hget.
  unfold mbind, M_bind, log, emit, mret, M_ret. cbn [fst snd app].
  assert ((0 <? length (li_captions lect_info))%nat = true) as ->.
  { by destruct (li_captions lect_info). }
  unfold call. fold caption_call. rewrite Hfail. done.
Qed.

(** X11.  A lecture without captions triggers no caption download and a
    lecture without supplementary assets no asset download: neither
    collaborator is ever called with an empty list. *)
Theorem collaborators_never_get_empty_lists
    (lecture : RawItem) (course_id : Z) (folder_path : string) (lindex : nat)
    (key : option string) (n : nat) :
  Forall nonempty_payload
    (process_lecture env lecture course_id folder_path lindex key n).1.
Proof. apply process_lecture_Forall; done. Qed.

(** X12.  The DRM warning is logged exactly when it applies: for a paid
    lecture that has a DASH source while no key was given; never for a
    free lecture, never when a key is present, never when there is
    nothing to download. *)
Theorem drm_warning_exactly_when_needed
    (lecture : RawItem) (lect_info : LectureDetail) (dir : string)
    (lindex : nat) (key : option string) :
  Log WARNING MsgDrmProtected ∈
    (download_media env lecture lect_info dir lindex key).1 ↔
  item_is_free lecture = false ∧
  is_Some (first_src DASH_TYPE (li_media_sources lect_info)) ∧
  key = None.
Proof.
  unfold download_media.
  destruct (item_is_free lecture).
  - destruct (first_src HLS_TYPE _); cbn; split;
      try (by intros (? & _)); intros Hin;
      by repeat (apply elem_of_cons in Hin as [?|Hin]; [done|]);
      apply elem_of_nil in Hin.
  - destruct (first_src DASH_TYPE _) as [url|].
    + destruct key as [k|]; cbn; split.
      * intros Hin.
        by repeat (apply elem_of_cons in Hin as [?|Hin]; [done|]);
          apply elem_of_nil in Hin.
      * by intros (_ & _ & ?).
      * intros _. split_and!; [done|by eexists|done].
      * intros _. left.
    + destruct (first_src MP4_TYPE _); cbn; split;
        try (by intros (_ & [? ?] & _)); intros Hin;
        by repeat (apply elem_of_cons in Hin as [?|Hin]; [done|]);
        apply elem_of_nil in Hin.
Qed.

Lemma tasks_Forall (P : Event → Prop) (l : list RawItem) :
  ∀ g : nat → RawItem → M unit,
  (∀ i x, Forall P (g i x).1) →
  Forall P (concat (fst <$> imap g l)).
Proof.
  induction l as [|x l IH]; intros g Hg; [apply Forall_nil_2|].
  cbn [imap fmap list_fmap concat]. apply Forall_app. split; [apply Hg|].
  apply IH. intros i y. apply Hg.
Qed.

Lemma chapter_events_announcements course_id key mindex total chapter :
  chapter_announcements
    (chapter_events env course_id key mindex total chapter) =
  [(ch_title chapter, mindex, total)].
Proof.
  unfold chapter_events, chapter_announcements. cbn [omap list_omap].
  f_equal. apply (omap_quiet _ no_announcement).
  - intros [lvl []| | | | | | | | | |]; try done; by destruct lvl.
  - unfold chapter_tasks. apply tasks_Forall. intros i x.
    apply process_lecture_Forall; done.
Qed.

Lemma download_chapters_announcements course_id key total chapters :
  ∀ mindex, ∃ k,
    chapter_announcements
      (download_chapters env course_id key mindex total chapters).1 =
    take k (imap (λ i chapter, (ch_title chapter, (mindex + i)%nat, total))
              chapters) ∧
    ((download_chapters env course_id key mindex total chapters).2 =
       Returned tt → k = length chapters).
Proof.
  induction chapters as [|ch rest IH]; intros mindex; [by exists 0%nat|].
  cbn [download_chapters]. rewrite bind_events.
  unfold chapter_announcements. rewrite omap_app.
  change (download_chapter env course_id key mindex total ch).1
    with (chapter_events env course_id key mindex total ch).
  pose proof (chapter_events_announcements course_id key mindex total ch)
    as Hch.
  unfold chapter_announcements in Hch. rewrite Hch. clear Hch.
  cbn [imap]. rewrite Nat.add_0_r.
  destruct (download_chapter env course_id key mindex total ch) as [tr [[]|e]]
    eqn:Hrun.
  - destruct (IH (S mindex)) as (k & Hk & Hret). exists (S k).
    cbn [snd fst take app]. split.
    + unfold chapter_announcements in Hk. rewrite Hk. do 2 f_equal.
      apply imap_ext. intros i x _. cbn. do 2 f_equal. lia.
    + intros H. cbn [length]. f_equal. apply Hret.
      unfold mbind, M_bind in H. cbn in H.
      by destruct (download_chapters env course_id key (S mindex) total rest)
        as [? []].
  - exists 1%nat. cbn [snd fst take app]. split; [by rewrite take_0|].
    unfold mbind, M_bind. cbn. done.
Qed.

(** X13.  Chapters are announced in curriculum order, numbered from 1,
    each with the total number of chapters; a run that is cut short has
    announced a prefix of them, a run that returns all of them; no task
    ever logs such an announcement. *)
Theorem chapters_are_announced_in_order
    (course_id : Z) (key : option string) (cur : Curriculum) :
  ∃ k,
    chapter_announcements (download_course env course_id key cur).1 =
    take k (imap (λ i chapter, (ch_title chapter, S i, length cur)) cur) ∧
    ((download_course env course_id key cur).2 = Returned tt →
     k = length cur).
Proof.
  destruct (download_chapters_announcements course_id key (length cur) cur 1)
    as (k & Hk & Hret).
  exists k. split; [|exact Hret]. exact Hk.
Qed.

End TaskProperties.

Lemma chapter_requests_only_lectures_witness :
  (∀ path, makedirs (ex_env (λ _, Json (ex_detail [ex_hls]))) path
           ≠ DirFailed) ∧
  requests
    (download_chapter (ex_env (λ _, Json (ex_detail [ex_hls]))) 7 None 1 1
       (append_child ex_P1 (append_child ex_L1 (new_chapter ex_A)))).1 =
  (λ child, LECTURE_URL (ex_env (λ _, Json (ex_detail [ex_hls]))) 7
              (item_id child)) <$>
    filter (λ i, is_lecture i)
      (ch_children
         (append_child ex_P1 (append_child ex_L1 (new_chapter ex_A)))).
Proof.
  split; [done|]. apply chapter_requests_only_lectures. done.
Defined.

Lemma caption_failure_skips_the_media_witness :
  process_lecture ex_captions_fail_env ex_L1 7 "out/Course/1. A" 1 None 2 =
  ([MakeDirs (path_join "out/Course/1. A" (pretty (item_id ex_L1)));
    HttpGet (LECTURE_URL ex_captions_fail_env 7 (item_id ex_L1));
    Log INFO (MsgDownloadingLecture (item_title ex_L1) 1 2);
    Log INFO (MsgDownloadingCaptions (length (li_captions ex_detail_captions)));
    CallDownloadCaptions (li_captions ex_detail_captions) "out/Course/1. A"
      (output_name ex_captions_fail_env 1 ex_L1)
      (captions ex_captions_fail_env)],
   Raised (PyException "HTTPError")).
Proof.
  apply (caption_failure_skips_the_media ex_captions_fail_env ex_L1 7
           "out/Course/1. A" 1 None 2 ex_detail_captions
           (PyException "HTTPError")); done.
Defined.

(** ** Cache: what the parser returns *)

Lemma hex_value_bound c a : hex_value c = Some a → (a < 16)%N.
Proof.
  destruct c as [[] [] [] [] [] [] [] []]; vm_compute; by intros [= <-].
Qed.

Lemma hex4_value_bound h1 h2 h3 h4 u :
  hex4_value h1 h2 h3 h4 = Some u → (u < 65536)%N.
Proof.
  unfold hex4_value.
  destruct (hex_value h1) as [a|] eqn:Ha; [|done].
  destruct (hex_value h2) as [b|] eqn:Hb; [|done].
  destruct (hex_value h3) as [c|] eqn:Hc; [|done].
  destruct (hex_value h4) as [d|] eqn:Hd; [|done].
  apply hex_value_bound in Ha, Hb, Hc, Hd. intros [= <-]. lia.
Qed.

Lemma join_surrogates_bounds u u2 :
  is_high u = true → is_low u2 = true →
  (65536 ≤ join_surrogates u u2 < 1114112)%N.
Proof.
  intros Hu%is_high_bounds Hu2%is_low_bounds. unfold join_surrogates. lia.
Qed.

Lemma unescape_bound e c : unescape e = Some c → (c ≤ 92)%N.
Proof.
  unfold unescape. repeat case_match; intros [= <-]; lia.
Qed.

Lemma prepend_Ok c r s rest :
  prepend c r = Ok (s, rest) → ∃ s', s = c :: s' ∧ r = Ok (s', rest).
Proof.
  destruct r as [[s' rest']| |]; [|done..]. intros [= <- <-]. by eexists.
Qed.

(** One turn of the string parser: the closing quote, or one code point
    and the parser on what follows. *)
Lemma parse_string_body_step t s rest :
  parse_string_body t = Ok (s, rest) →
  s = [] ∨
  ∃ x t' s',
    s = x :: s' ∧ parse_string_body t' = Ok (s', rest) ∧
    (length t' < length t)%nat ∧ (x < 1114112)%N ∧
    (is_high x = true → no_low_escape t') ∧
    (no_low_escape t → is_low x = false).
Proof.
  intros H. destruct t as [|c r]; [done|]. cbn [parse_string_body] in H.
  repeat case_match; try done;
    try (left; congruence);
    apply prepend_Ok in H as (s' & -> & H);
    right; eexists _, _, s'; (split; [done|]); (split; [exact H|]);
    (split; [cbn [length]; lia|]).
  all: repeat match goal with
       | H : (_ =? _)%char = true |- _ => apply Ascii.eqb_eq in H; subst
       | H : (_ =? _)%char = false |- _ => apply Ascii.eqb_neq in H
       | H : hex4_value _ _ _ _ = Some _ |- _ =>
         pose proof (hex4_value_bound _ _ _ _ _ H); revert H
       | H : unescape _ = Some _ |- _ => apply unescape_bound in H
       | H : is_ascii _ = true |- _ => apply is_ascii_bound in H
       end; intros.
  all: try match goal with
       | Hh : is_high ?u = true, Hl : is_low ?u2 = true
         |- context [join_surrogates ?u ?u2] =>
         pose proof (join_surrogates_bounds u u2 Hh Hl)
       end.
  all: split; [lia|].
  all: split;
    [first
       [ by intros _
       | intros _; by apply no_low_escape_plain
       | intros _; by apply no_low_escape_short
       | intros _ _ _; eexists; by split
       | intros Hh; congruence
       | intros Hh; rewrite not_high_outside in Hh by lia; done ]
    |first
       [ intros _; apply not_low_outside; lia
       | cbn [no_low_escape]; intros Hn;
         destruct (Hn eq_refl eq_refl) as (? & ? & ?); congruence ]].
Qed.

Lemma parse_string_body_wf_aux n : ∀ t s rest,
  (length t ≤ n)%nat →
  parse_string_body t = Ok (s, rest) →
  wf_str s ∧ (no_low_escape t → head_not_low s).
Proof.
  induction n as [|n IH]; intros t s rest Hlen Hparse.
  { destruct t; [done|]. cbn [length] in Hlen. lia. }
  destruct (parse_string_body_step t s rest Hparse)
    as [->|(x & t' & s' & -> & Hrest & Hshorter & Hx & Hhigh & Hlow)];
    [done|].
  destruct (IH t' s' rest ltac:(lia) Hrest) as [Hwf Hhead].
  split; [|done]. split_and!; [done| |done].
  intros Hx'. by apply Hhead, Hhigh.
Qed.

Lemma parse_string_body_wf t s rest :
  parse_string_body t = Ok (s, rest) → wf_str s.
Proof. intros H. by eapply parse_string_body_wf_aux. Qed.

Lemma dict_set_keys k v (d : list (pystr * json)) :
  (dict_set k v d).*1 = if bool_decide (k ∈ d.*1) then d.*1 else d.*1 ++ [k].
Proof.
  induction d as [|[k' v'] d IH]; [done|]. cbn [dict_set].
  destruct (decide (k = k')) as [<-|Hk].
  - rewrite bool_decide_eq_true_2 by done. cbn [fmap list_fmap fst].
    rewrite bool_decide_eq_true_2; [done|left].
  - rewrite (bool_decide_eq_false_2 (k = k')) by done.
    cbn [fmap list_fmap fst].
    change (list_fmap _ _ fst ?l) with (l.*1). rewrite IH.
    destruct (bool_decide (k ∈ d.*1)) eqn:Hd.
    + apply bool_decide_eq_true_1 in Hd.
      rewrite bool_decide_eq_true_2; [done|by right].
    + apply bool_decide_eq_false_1 in Hd.
      rewrite bool_decide_eq_false_2; [done|].
      intros [?|?]%elem_of_cons; done.
Qed.

Lemma dict_set_NoDup k v (d : list (pystr * json)) :
  NoDup d.*1 → NoDup (dict_set k v d).*1.
Proof.
  intros Hd. rewrite dict_set_keys. case_bool_decide as Hk; [done|].
  apply NoDup_app. split_and!; [done| |apply NoDup_singleton].
  intros x Hx ->%list_elem_of_singleton. done.
Qed.

Lemma dict_set_Forall (P : pystr * json → Prop) k v
    (d : list (pystr * json)) :
  P (k, v) → Forall P d → Forall P (dict_set k v d).
Proof.
  intros Hv. induction 1 as [|[k' v'] d Hm Hd IH]; cbn [dict_set].
  - by repeat constructor.
  - case_bool_decide; constructor; done.
Qed.

Lemma dict_of_pairs_wf (pairs : list (pystr * json)) :
  Forall (λ m, wf_str m.1 ∧ wf_json m.2) pairs →
  NoDup (dict_of_pairs pairs).*1 ∧
  Forall (λ m, wf_str m.1 ∧ wf_json m.2) (dict_of_pairs pairs).
Proof.
  unfold dict_of_pairs.
  assert (∀ acc : list (pystr * json),
            NoDup acc.*1 → Forall (λ m, wf_str m.1 ∧ wf_json m.2) acc →
            Forall (λ m, wf_str m.1 ∧ wf_json m.2) pairs →
            NoDup (foldl (λ d kv, dict_set kv.1 kv.2 d) acc pairs).*1 ∧
            Forall (λ m, wf_str m.1 ∧ wf_json m.2)
              (foldl (λ d kv, dict_set kv.1 kv.2 d) acc pairs)) as Hgen.
  { induction pairs as [|[k v] pairs IH]; intros acc Hnd Hacc Hall; [done|].
    apply Forall_cons in Hall as [Hv Hall]. cbn [foldl]. apply IH.
    - by apply dict_set_NoDup.
    - by apply dict_set_Forall.
    - done. }
  intros Hall. apply Hgen; [apply NoDup_nil_2|done|done].
Qed.

Lemma number_tail_wf negative i s v rest :
  number_tail negative i s = Ok (v, rest) → wf_json v.
Proof.
  unfold number_tail. destruct (starts_fraction s).
  - destruct (take_digits (tail s)) as [f s3].
    destruct (starts_exponent s3); [done|].
    destruct (canonical_float i f) eqn:Hcan; [|done].
    intros [= <- _]. by constructor.
  - destruct (starts_exponent s); [done|]. intros [= <- _]. constructor.
Qed.

Lemma parse_number_wf s v rest : parse_number s = Ok (v, rest) → wf_json v.
Proof.
  unfold parse_number.
  destruct (match s with
            | [] => (false, s)
            | c :: r => if Ascii.eqb c "-" then (true, r) else (false, s)
            end) as [negative s1].
  destruct (match s1 with
            | [] => (Decimal.Nil, s1)
            | c :: r => if Ascii.eqb c "0" then (Decimal.D0 Decimal.Nil, r)
                        else take_digits s1
            end) as [d rest'].
  destruct d; [done|..]; apply number_tail_wf.
Qed.

Section ParserWf.
Variable pv : text → Parsed (json * text).
Hypothesis pv_wf : ∀ s v rest, pv s = Ok (v, rest) → wf_json v.

Lemma parse_elements_wf fuel : ∀ s vs rest,
  parse_elements pv fuel s = Ok (vs, rest) → Forall wf_json vs.
Proof.
  induction fuel as [|fuel IH]; intros s vs rest; [done|]. cbn [parse_elements].
  destruct (skip_ws s) as [|c r]; [done|].
  destruct (Ascii.eqb c "]"); [by intros [= <- _]|].
  destruct (Ascii.eqb c ","); [|done].
  destruct (pv (skip_ws r)) as [[v s']| |] eqn:Hv; [|done..].
  destruct (parse_elements pv fuel s') as [[vs' rest']| |] eqn:Hvs; [|done..].
  intros [= <- _]. constructor; eauto.
Qed.

Lemma parse_member_wf s m rest :
  parse_member pv s = Ok (m, rest) → wf_str m.1 ∧ wf_json m.2.
Proof.
  unfold parse_member. destruct s as [|c r]; [done|].
  destruct (Ascii.eqb c DQUOTE); [|done].
  destruct (parse_string_body r) as [[k s1]| |] eqn:Hk; [|done..].
  destruct (skip_ws s1) as [|c' r']; [done|].
  destruct (Ascii.eqb c' ":"); [|done].
  destruct (pv (skip_ws r')) as [[v rest']| |] eqn:Hv; [|done..].
  intros [= <- _]. split; [by eapply parse_string_body_wf|eauto].
Qed.

Lemma parse_members_wf fuel : ∀ s ms rest,
  parse_members pv fuel s = Ok (ms, rest) →
  Forall (λ m, wf_str m.1 ∧ wf_json m.2) ms.
Proof.
  induction fuel as [|fuel IH]; intros s ms rest; [done|]. cbn [parse_members].
  destruct (skip_ws s) as [|c r]; [done|].
  destruct (Ascii.eqb c "}"); [by intros [= <- _]|].
  destruct (Ascii.eqb c ","); [|done].
  destruct (parse_member pv (skip_ws r)) as [[m s']| |] eqn:Hm; [|done..].
  destruct (parse_members pv fuel s') as [[ms' rest']| |] eqn:Hms; [|done..].
  intros [= <- _]. constructor; eauto using parse_member_wf.
Qed.

End ParserWf.

Lemma parse_value_wf fuel : ∀ s v rest,
  parse_value fuel s = Ok (v, rest) → wf_json v.
Proof.
  induction fuel as [|fuel IH]; intros s v rest; [done|]. cbn [parse_value].
  destruct s as [|c r]; [done|].
  destruct (Ascii.eqb c DQUOTE).
  { destruct (parse_string_body r) as [[str rest']| |] eqn:Hstr; [|done..].
    intros [= <- _]. constructor. by eapply parse_string_body_wf. }
  destruct (Ascii.eqb c "[").
  { destruct (skip_ws r) as [|c' r'] eqn:Hr; [done|].
    destruct (Ascii.eqb c' "]"); [intros [= <- _]; by repeat constructor|].
    destruct (parse_value fuel (c' :: r')) as [[x s']| |] eqn:Hx; [|done..].
    destruct (parse_elements (parse_value fuel) fuel s')
      as [[xs rest']| |] eqn:Hxs; [|done..].
    intros [= <- _]. constructor. constructor; [by eapply IH|].
    by eapply parse_elements_wf. }
  destruct (Ascii.eqb c "{").
  { destruct (skip_ws r) as [|c' r'] eqn:Hr; [done|].
    destruct (Ascii.eqb c' "}"); [intros [= <- _]; by repeat constructor|].
    destruct (parse_member (parse_value fuel) (c' :: r'))
      as [[m s']| |] eqn:Hm; [|done..].
    destruct (parse_members (parse_value fuel) fuel s')
      as [[ms rest']| |] eqn:Hms; [|done..].
    intros [= <- _].
    destruct (dict_of_pairs_wf (m :: ms)) as [Hnd Hall].
    { constructor; [by eapply parse_member_wf|by eapply parse_members_wf]. }
    by constructor. }
  intros H.
  assert (parse_number (c :: r) = Ok (v, rest) ∨ wf_json v) as [Hn|]; [|
    by eapply parse_number_wf|done].
  revert H. generalize (float_constant (c :: r)). intros fc.
  repeat (match goal with
          | |- context [match ?l with [] => _ | _ :: _ => _ end] =>
            is_var l; destruct l
          | |- context [match ?a with Ascii _ _ _ _ _ _ _ _ => _ end] =>
            is_var a; destruct a
          | |- context [if ?b then _ else _] => is_var b; destruct b
          end; try done; try (by left);
          try (intros [= <- _]; right; constructor)).
Qed.

Lemma loads_wf s v : loads s = Ok v → wf_json v.
Proof.
  unfold loads. destruct (forallb is_ascii _); [|done].
  destruct (parse_value _ _) as [[v' rest]| |] eqn:Hv; [|done..].
  case_bool_decide; [|done]. intros [= <-]. by eapply parse_value_wf.
Qed.

Lemma main_load_wf env stdout_is_file fs load trace v :
  main_load env stdout_is_file fs load = Loads (trace, Returned v) →
  wf_json v.
Proof.
  unfold main_load. destruct (arg_truthy load); [|done].
  assert (∀ path shown,
            load_from fs path shown = Loads (trace, Returned v) → wf_json v)
    as Hl.
  { intros path shown. unfold load_from.
    destruct (loads _) as [v'| |] eqn:Hv; [|done..].
    intros [= _ <-]. by eapply loads_wf. }
  destruct load as [| |path];
    (destruct (isfile fs _); [by apply Hl|]); by repeat case_match.
Qed.

(** X15.  A cache that was loaded with [--load] and is saved in the
    same run with [--save] is copied faithfully: loading the file just
    written gives the value the run worked with. *)
Theorem loaded_cache_is_copied_faithfully
    (env : Env) (stdout_is_file : bool) (fs : Files) (load save : PathArg)
    (trace : list Event) (v : json) :
  main_load env stdout_is_file fs load = Loads (trace, Returned v) →
  arg_truthy save = true →
  (main_save env fs save v).1.2 = Returned tt →
  ∃ shown,
    main_load env stdout_is_file (main_save env fs save v).2 save =
    Loads ([Log INFO (MsgCacheLoaded shown)], Returned v).
Proof.
  intros Hwf%main_load_wf Hsave Hsaved.
  unfold main_save, main_load in *. rewrite Hsave in *.
  destruct save as [| |path]; [done|..];
    rewrite (save_to_returns _ _ _ _ _ Hsaved), isfile_saved,
      (load_from_saved _ _ _ _ Hwf); by eexists.
Qed.

Lemma loaded_cache_is_copied_faithfully_witness :
  let fs : Files := {["old.json" := ex_cache_text]} in
  let v := JList [JFloat false (Decimal.D1 Decimal.Nil) (Decimal.D5 Decimal.Nil);
                  JStr [99; 97; 102; 233; 32; 128512]%N;
                  JDict [(code_points "a", JInt (-2))]] in
  main_load (ex_env (λ _, NoReply)) false fs (ArgPath "old.json") =
    Loads ([Log INFO (MsgCacheLoaded "old.json")], Returned v) ∧
  ∃ shown,
    main_load (ex_env (λ _, NoReply)) false
      (main_save (ex_env (λ _, NoReply)) fs (ArgPath "new.json") v).2
      (ArgPath "new.json") =
    Loads ([Log INFO (MsgCacheLoaded shown)], Returned v).
Proof.
  intros fs v. split; [by vm_compute|].
  apply (loaded_cache_is_copied_faithfully (ex_env (λ _, NoReply)) false fs
           (ArgPath "old.json") (ArgPath "new.json")
           [Log INFO (MsgCacheLoaded "old.json")]); by vm_compute.
Defined.

(** ** Directories of a run *)

Lemma list_ascii_app (a b : string) :
  String.list_ascii_of_string (a +:+ b) =
  String.list_ascii_of_string a ++ String.list_ascii_of_string b.
Proof.
  induction a as [|c a IH]; [done|].
  change (String c a +:+ b) with (String c (a +:+ b)).
  cbn [String.list_ascii_of_string app]. by f_equal.
Qed.

Lemma path_join_sep a b :
  starts_with_sep b = false → path_join a b = a +:+ sep_after a +:+ b.
Proof.
  unfold path_join, sep_after. intros ->.
  by destruct (String.eqb a "" || ends_with_sep a).
Qed.

Lemma pretty_N_char_digit n : is_decimal (pretty_N_char n) = true.
Proof. unfold pretty_N_char. repeat case_match; done. Qed.

Lemma pretty_N_go_digits (x : N) : ∀ s,
  Forall (λ c, is_decimal c) (String.list_ascii_of_string s) →
  Forall (λ c, is_decimal c) (String.list_ascii_of_string (pretty_N_go x s)).
Proof.
  induction (N.lt_wf_0 x) as [x _ IH]. intros s Hs.
  destruct (decide (x = 0%N)) as [->|Hx]; [by rewrite pretty_N_go_0|].
  rewrite pretty_N_go_step by lia.
  apply IH; [apply N.div_lt; lia|]. cbn. constructor; [|done].
  by rewrite pretty_N_char_digit.
Qed.

Lemma pretty_nat_digits (n : nat) :
  Forall (λ c, is_decimal c) (String.list_ascii_of_string (pretty n)).
Proof.
  unfold pretty, pretty_nat, pretty, pretty_N. case_decide.
  - by repeat constructor.
  - by apply pretty_N_go_digits.
Qed.

Lemma pretty_nat_not_sep (n : nat) : starts_with_sep (pretty n +:+ ". ") = false.
Proof.
  pose proof (pretty_nat_digits n) as Hd.
  destruct (pretty n) as [|c s]; [done|]. cbn in *.
  apply Forall_cons in Hd as [Hc _].
  destruct (Ascii.eqb c "/") eqn:Heq; [|done].
  apply Ascii.eqb_eq in Heq as ->. done.
Qed.

(** Two runs of digits, each followed by a full stop. *)
Lemma digits_before_stop (d1 d2 x y : text) :
  Forall (λ c, is_decimal c) d1 → Forall (λ c, is_decimal c) d2 →
  d1 ++ "."%char :: x = d2 ++ "."%char :: y → d1 = d2.
Proof.
  intros H1. revert d2. induction H1 as [|c d1 Hc H1 IH]; intros d2 H2 Heq.
  - destruct H2 as [|c' d2 Hc' H2]; [done|]. cbn in Heq.
    injection Heq as <- _. done.
  - destruct H2 as [|c' d2 Hc' H2]; cbn in Heq.
    + injection Heq as -> _. done.
    + injection Heq as -> Heq. f_equal. by apply IH.
Qed.

Section Directories.
Variable env : Env.

(** The directory of a child, read from the left: a prefix that is the
    same for all, the number of the chapter, a full stop. *)
Lemma child_directory_shape (mindex : nat) (chapter : Chapter) (child : RawItem) :
  ∃ tail,
    String.list_ascii_of_string (child_directory env mindex chapter child) =
    String.list_ascii_of_string (COURSE_DIR env +:+ sep_after (COURSE_DIR env))
    ++ String.list_ascii_of_string (pretty mindex) ++ "."%char :: tail.
Proof.
  unfold child_directory, chapter_folder.
  rewrite (path_join_sep _ (pretty (item_id child)))
    by apply pretty_Z_not_sep.
  rewrite (path_join_sep (COURSE_DIR env)).
  2:{ pose proof (pretty_nat_not_sep mindex) as H.
      destruct (pretty mindex); [done|]. done. }
  rewrite !list_ascii_app. cbn [String.list_ascii_of_string app].
  eexists. rewrite <- !app_assoc. reflexivity.
Qed.

Lemma child_directory_chapter mindex mindex' chapter chapter' child child' :
  child_directory env mindex chapter child =
  child_directory env mindex' chapter' child' →
  mindex = mindex'.
Proof.
  intros Heq.
  destruct (child_directory_shape mindex chapter child) as [t Ht].
  destruct (child_directory_shape mindex' chapter' child') as [t' Ht'].
  rewrite Heq, Ht' in Ht. apply app_inv_head in Ht.
  apply digits_before_stop in Ht; [|apply pretty_nat_digits..].
  apply (f_equal String.string_of_list_ascii) in Ht.
  rewrite !String.string_of_list_ascii_of_string in Ht.
  by apply (inj pretty) in Ht.
Qed.

Lemma child_directory_id mindex chapter child child' :
  child_directory env mindex chapter child =
  child_directory env mindex chapter child' →
  item_id child = item_id child'.
Proof.
  unfold child_directory. intros Heq.
  apply path_join_inj in Heq; [|apply pretty_Z_not_sep..].
  by apply (inj pretty) in Heq.
Qed.

(** The directories of the chapters from [mindex] on. *)
Lemma chapters_directories_from course_id key total chapters : ∀ mindex dir,
  dir ∈ made_directories
          (chapters_events env course_id key mindex total chapters) →
  ∃ i chapter child,
    (mindex ≤ i)%nat ∧ dir = child_directory env i chapter child.
Proof.
  induction chapters as [|ch rest IH]; intros mindex dir; cbn [chapters_events].
  - intros []%elem_of_nil.
  - unfold made_directories. rewrite omap_app.
    fold (made_directories (chapter_events env course_id key mindex total ch)).
    fold (made_directories
            (chapters_events env course_id key (S mindex) total rest)).
    rewrite (chapter_directories env). intros [Hin|Hin]%elem_of_app.
    + apply list_elem_of_fmap in Hin as (child & -> & _).
      by exists mindex, ch, child.
    + apply IH in Hin as (i & c & child & Hi & ->).
      exists i, c, child. split; [lia|done].
Qed.

Lemma chapters_directories_NoDup course_id key total chapters : ∀ mindex,
  Forall (λ chapter, NoDup (item_id <$> ch_children chapter)) chapters →
  NoDup (made_directories
           (chapters_events env course_id key mindex total chapters)).
Proof.
  induction chapters as [|ch rest IH]; intros mindex Hids;
    cbn [chapters_events]; [apply NoDup_nil_2|].
  apply Forall_cons in Hids as [Hch Hrest].
  unfold made_directories. rewrite omap_app.
  fold (made_directories (chapter_events env course_id key mindex total ch)).
  fold (made_directories
          (chapters_events env course_id key (S mindex) total rest)).
  rewrite (chapter_directories env). apply NoDup_app. split_and!.
  - revert Hch. generalize (ch_children ch). intros l.
    induction l as [|x l IHl]; [intros _; apply NoDup_nil_2|].
    cbn [fmap list_fmap]. rewrite !NoDup_cons. intros [Hx Hl].
    split; [|by apply IHl].
    intros (y & Heq & Hy)%list_elem_of_fmap. apply Hx.
    apply child_directory_id in Heq. rewrite Heq.
    apply list_elem_of_fmap. by exists y.
  - intros dir (child & -> & _)%list_elem_of_fmap
      (i & c & child' & Hi & Heq)%chapters_directories_from.
    apply child_directory_chapter in Heq. lia.
  - by apply IH.
Qed.

Lemma download_chapters_events_prefix course_id key total chapters :
  ∀ mindex, ∃ k,
    (download_chapters env course_id key mindex total chapters).1 =
    chapters_events env course_id key mindex total (take k chapters).
Proof.
  induction chapters as [|ch rest IH]; intros mindex; [by exists 0%nat|].
  cbn [download_chapters]. rewrite bind_events.
  change (download_chapter env course_id key mindex total ch).1
    with (chapter_events env course_id key mindex total ch).
  destruct (download_chapter env course_id key mindex total ch).2 as [[]|e].
  - destruct (IH (S mindex)) as [k ->]. by exists (S k).
  - exists 1%nat. cbn [take chapters_events]. destruct rest; by rewrite ?app_nil_r.
Qed.

(** X16.  Directories of different chapters differ, whatever the titles
    and the ids; so when no chapter lists an id twice, a run creates no
    directory twice. *)
Theorem run_makes_no_directory_twice
    (course_id : Z) (key : option string) (cur : Curriculum) :
  Forall (λ chapter, NoDup (item_id <$> ch_children chapter)) cur →
  NoDup (made_directories (download_course env course_id key cur).1).
Proof.
  intros Hids. unfold download_course.
  destruct (download_chapters_events_prefix course_id key (length cur) cur 1)
    as [k ->].
  apply chapters_directories_NoDup. by apply Forall_take.
Qed.

End Directories.

Lemma run_makes_no_directory_twice_witness :
  NoDup (made_directories
           (download_course ex_failing_env 7 None
              [append_child ex_L2 (append_child ex_L1 (new_chapter ex_A));
               append_child ex_L1 (new_chapter ex_A)]).1).
Proof.
  apply run_makes_no_directory_twice.
  apply (bool_decide_unpack _). by vm_compute.
Defined.

(** ** The start of [main] *)

Lemma split_commas_join s :
  String.concat "," ((split_commas s).1 :: (split_commas s).2) = s.
Proof.
  induction s as [|c s IH]; [done|]. cbn [split_commas].
  destruct (split_commas s) as [first others]. cbn [fst snd] in IH.
  destruct (Ascii.eqb c ","%char) eqn:Hc.
  - apply Ascii.eqb_eq in Hc as ->. cbn [fst snd].
    change (String.concat "," (EmptyString :: first :: others))
      with (String "," (String.concat "," (first :: others))).
    by rewrite IH.
  - cbn [fst snd]. rewrite <- IH. by destruct others.
Qed.

Lemma split_commas_comma_free s :
  Forall comma_free ((split_commas s).1 :: (split_commas s).2).
Proof.
  induction s as [|c s IH].
  - repeat constructor. unfold comma_free. cbn. apply not_elem_of_nil.
  - cbn [split_commas]. destruct (split_commas s) as [first others].
    cbn [fst snd] in IH. apply Forall_cons in IH as [Hfirst Hothers].
    destruct (Ascii.eqb c ","%char) eqn:Hc; cbn [fst snd].
    + repeat constructor; try done. unfold comma_free. cbn.
      apply not_elem_of_nil.
    + constructor; [|done]. apply Ascii.eqb_neq in Hc.
      unfold comma_free in *. cbn. by intros [?|?]%elem_of_cons.
Qed.

Lemma split_commas_length s : length (split_commas s).2 = commas s.
Proof.
  unfold commas. induction s as [|c s IH]; [done|]. cbn [split_commas].
  destruct (split_commas s) as [first others]. cbn [fst snd] in IH.
  cbn [String.list_ascii_of_string].
  destruct (Ascii.eqb c ","%char) eqn:Hc; cbn [fst snd].
  - apply Ascii.eqb_eq in Hc as ->. rewrite filter_cons_True by done.
    cbn [length]. by rewrite IH.
  - apply Ascii.eqb_neq in Hc. by rewrite filter_cons_False.
Qed.

Lemma str_split_eq s : str_split s = (split_commas s).1 :: (split_commas s).2.
Proof. unfold str_split. by destruct (split_commas s). Qed.

(** X17.  The caption labels of [--captions]: the argument is cut at
    every comma and nowhere else, nothing is trimmed or dropped, so
    joining the labels with commas gives the argument back, no label
    holds a comma, and there is one label more than there are commas. *)
Theorem caption_labels_are_the_comma_fields (args : Args) (s : string) :
  arg_captions args = Some s → s ≠ "" →
  String.concat "," (main_captions args) = s ∧
  Forall comma_free (main_captions args) ∧
  length (main_captions args) = S (commas s).
Proof.
  intros Hs Hne. unfold main_captions. rewrite Hs. cbn [truthy default].
  apply String.eqb_neq in Hne. rewrite Hne. cbn [negb].
  rewrite str_split_eq. split_and!.
  - apply split_commas_join.
  - apply split_commas_comma_free.
  - cbn [length]. by rewrite split_commas_length.
Qed.

Lemma caption_labels_are_the_comma_fields_witness :
  String.concat ","
    (main_captions
       {| arg_id := Some 7; arg_url := None; arg_key := None;
          arg_cookies := "cookies.txt"; arg_load := ArgAbsent;
          arg_save := ArgAbsent; arg_threads := 4;
          arg_captions := Some "en_US, fr_FR,," |}) = "en_US, fr_FR,," ∧
  Forall comma_free
    (main_captions
       {| arg_id := Some 7; arg_url := None; arg_key := None;
          arg_cookies := "cookies.txt"; arg_load := ArgAbsent;
          arg_save := ArgAbsent; arg_threads := 4;
          arg_captions := Some "en_US, fr_FR,," |}) ∧
  length
    (main_captions
       {| arg_id := Some 7; arg_url := None; arg_key := None;
          arg_cookies := "cookies.txt"; arg_load := ArgAbsent;
          arg_save := ArgAbsent; arg_threads := 4;
          arg_captions := Some "en_US, fr_FR,," |}) =
  S (commas "en_US, fr_FR,,").
Proof. by apply caption_labels_are_the_comma_fields. Defined.

(** The six ways through [check_prerequisites]. *)
Lemma check_prerequisites_cases env host fs cookie_path :
  let checked := check_prerequisites env host fs cookie_path in
  (isfile fs (cookie_file env cookie_path) = false ∧
   ∃ n, checked = ([Note ERROR n], Returned false)) ∨
  (isfile fs (cookie_file env cookie_path) = true ∧
   ((∃ exn, run_tool host FFMPEG = NotStarted exn ∧
            checked = ([RunTool FFMPEG], Raised (PyException exn))) ∨
    (∃ status, run_tool host FFMPEG = Exited status ∧ status ≠ 0 ∧
               checked = ([RunTool FFMPEG; Note ERROR MsgNoFfmpeg],
                          Returned false)) ∨
    (run_tool host FFMPEG = Exited 0 ∧
     ((∃ exn, run_tool host N_M3U8DL_RE = NotStarted exn ∧
              checked = ([RunTool FFMPEG; RunTool N_M3U8DL_RE],
                         Raised (PyException exn))) ∨
      (∃ status, run_tool host N_M3U8DL_RE = Exited status ∧ status ≠ 0 ∧
                 checked = ([RunTool FFMPEG; RunTool N_M3U8DL_RE;
                             Note ERROR MsgNoDownloader], Returned false)) ∨
      (run_tool host N_M3U8DL_RE = Exited 0 ∧
       checked = ([RunTool FFMPEG; RunTool N_M3U8DL_RE], Returned true)))))).
Proof.
  intros checked. subst checked. unfold check_prerequisites, cookie_file.
  destruct (truthy cookie_path); cbn [negb andb].
  - destruct (isfile fs (default "" cookie_path)); cbn [negb];
      [|left; split; [done|by eexists]].
    right. split; [done|].
    destruct (run_tool host FFMPEG) as [status|exn]; [|left; by eexists].
    right. destruct (Z.eqb_spec status 0) as [->|Hs]; cbn [negb];
      [|left; by eexists].
    right. split; [done|].
    destruct (run_tool host N_M3U8DL_RE) as [status'|exn]; [|left; by eexists].
    right. destruct (Z.eqb_spec status' 0) as [->|Hs']; cbn [negb];
      [|left; by eexists].
    by right.
  - destruct (isfile fs (path_join (HOME_DIR env) "cookies.txt")); cbn [negb];
      [|left; split; [done|by eexists]].
    right. split; [done|].
    destruct (run_tool host FFMPEG) as [status|exn]; [|left; by eexists].
    right. destruct (Z.eqb_spec status 0) as [->|Hs]; cbn [negb];
      [|left; by eexists].
    right. split; [done|].
    destruct (run_tool host N_M3U8DL_RE) as [status'|exn]; [|left; by eexists].
    right. destruct (Z.eqb_spec status' 0) as [->|Hs']; cbn [negb];
      [|left; by eexists].
    by right.
Qed.

(** X18.  [check_prerequisites] returns [True] exactly when the cookie
    file is there and both programs exit with status 0. *)
Theorem prerequisites_hold_exactly_when
    (env : Env) (host : Host) (fs : Files) (cookie_path : option string) :
  (check_prerequisites env host fs cookie_path).2 = Returned true ↔
  isfile fs (cookie_file env cookie_path) = true ∧
  run_tool host FFMPEG = Exited 0 ∧
  run_tool host N_M3U8DL_RE = Exited 0.
Proof.
  destruct (check_prerequisites_cases env host fs cookie_path)
    as [[Hf [n ->]]|[Hf [(exn & Hff & ->)|[(st & Hff & Hst & ->)|
         [Hff [(exn & Hn & ->)|[(st & Hn & Hst & ->)|[Hn ->]]]]]]]];
    cbn [snd]; split; try done; try (intros (? & ? & ?); congruence).
Qed.

(** X19.  What [check_prerequisites] runs and how it fails.  Without
    the cookie file no program is run; with it [ffmpeg] is run, and
    [n_m3u8dl-re] after it exactly when [ffmpeg] exited with status 0.
    When the function returns [False] it has logged one ERROR, as the
    last thing it did, and the message tells the cause: the cookie file,
    the first program or the second.  When it raises, it has logged
    nothing: the exception is that of the program run last, which could
    not be started (one that is not installed), and which the handlers
    for a non-zero exit status do not catch. *)
Theorem prerequisites_failure_modes
    (env : Env) (host : Host) (fs : Files) (cookie_path : option string) :
  let checked := check_prerequisites env host fs cookie_path in
  let cookie := isfile fs (cookie_file env cookie_path) in
  tools_run checked.1 =
    (if cookie
     then FFMPEG ::
          (if succeeded (run_tool host FFMPEG) then [N_M3U8DL_RE] else [])
     else []) ∧
  match checked.2 with
  | Returned true => notes checked.1 = []
  | Returned false =>
    ∃ before n,
      checked.1 = before ++ [Note ERROR n] ∧ notes before = [] ∧
      n = (if negb cookie
           then (if truthy cookie_path then MsgCookieMissing
                 else MsgNoCookieOption)
           else if succeeded (run_tool host FFMPEG) then MsgNoDownloader
           else MsgNoFfmpeg)
  | Raised e =>
    notes checked.1 = [] ∧ cookie = true ∧
    ∃ argv exn, last (tools_run checked.1) = Some argv ∧
                run_tool host argv = NotStarted exn ∧ e = PyException exn
  end.
Proof.
  intros checked cookie. subst checked cookie.
  unfold check_prerequisites, cookie_file.
  destruct (truthy cookie_path); cbn [negb andb];
    (match goal with
     | |- context [isfile fs ?file] => destruct (isfile fs file)
     end);
    cbn [negb];
    destruct (run_tool host FFMPEG) as [status|exn] eqn:Hff;
    cbn [succeeded];
    try destruct (Z.eqb_spec status 0) as [->|Hs];
    destruct (run_tool host N_M3U8DL_RE) as [status'|exn'] eqn:Hn;
    try destruct (Z.eqb_spec status' 0) as [->|Hs'];
    cbn [negb fst snd];
    (split; [done|]);
    first
      [ done
      | by exists [], MsgCookieMissing
      | by exists [], MsgNoCookieOption
      | by exists [RunTool FFMPEG], MsgNoFfmpeg
      | by exists [RunTool FFMPEG; RunTool N_M3U8DL_RE], MsgNoDownloader
      | split_and!; [done|done|by exists FFMPEG, exn]
      | split_and!; [done|done|by exists N_M3U8DL_RE, exn'] ].
Qed.

Lemma prerequisites_ok env host fs cookie_path :
  (check_prerequisites env host fs cookie_path).2 = Returned true →
  isfile fs (cookie_file env cookie_path) = true ∧
  run_tool host FFMPEG = Exited 0 ∧
  run_tool host N_M3U8DL_RE = Exited 0.
Proof.
  destruct (check_prerequisites_cases env host fs cookie_path)
    as [[Hf [n ->]]|[Hf [(exn & Hff & ->)|[(st & Hff & Hst & ->)|
         [Hff [(exn & Hn & ->)|[(st & Hn & Hst & ->)|[Hn ->]]]]]]]];
    cbn [snd]; done.
Qed.

(** X20.  A command line that names no course, or a key without a
    colon, ends [main] by a plain return after one ERROR message: the
    exit status is 0, no program has been run and no cookie file read.
    An id of 0 counts as no id. *)
Theorem usage_errors_touch_nothing
    (env : Env) (host : Host) (fs : Files) (argc : nat) (args : Args) :
  argc ≠ 1%nat →
  (truthy (arg_url args) = false ∧ id_given args = false) ∨
  key_malformed args = true →
  let started := main_start env host fs argc args in
  started.2 = Returned false ∧
  Forall (λ a, outward a = false) started.1 ∧
  ∃ n, last started.1 = Some (Note ERROR n).
Proof.
  intros Hargc Hbad started. subst started. unfold main_start.
  apply Nat.eqb_neq in Hargc. rewrite Hargc.
  destruct (negb (truthy (arg_url args)) && negb (id_given args)) eqn:Hnone.
  { split_and!; [done|by repeat constructor|by eexists]. }
  destruct Hbad as [[Hurl Hid]|Hkey]; [by rewrite Hurl, Hid in Hnone|].
  rewrite Hkey. cbn [fst snd]. split_and!; [done| |].
  - apply Forall_app. split; [|by repeat constructor].
    case_match; by repeat constructor.
  - rewrite last_snoc. by eexists.
Qed.

Lemma usage_errors_touch_nothing_witness :
  let args :=
    {| arg_id := Some 0; arg_url := None; arg_key := Some "abc:def";
       arg_cookies := "cookies.txt"; arg_load := ArgAbsent;
       arg_save := ArgAbsent; arg_threads := 4; arg_captions := None |} in
  let started := main_start (ex_env (λ _, NoReply)) ex_host ∅ 3 args in
  started.2 = Returned false ∧
  Forall (λ a, outward a = false) started.1 ∧
  ∃ n, last started.1 = Some (Note ERROR n).
Proof.
  intros args.
  apply (usage_errors_touch_nothing (ex_env (λ _, NoReply)) ex_host ∅ 3 args);
    [done|by left].
Defined.

(** X21.  What holds when [main] gets past its checks: there is a
    course to work on, a non-zero id, or else a non-empty URL; the key,
    when given, holds a colon; the cookie file exists and was read last;
    both programs exited with status 0. *)
Theorem past_the_checks
    (env : Env) (host : Host) (fs : Files) (argc : nat) (args : Args) :
  let started := main_start env host fs argc args in
  started.2 = Returned true →
  match course_id_source args with
  | FromId course_id => course_id ≠ 0 ∧ arg_id args = Some course_id
  | FromUrl course_url => truthy course_url = true
  end ∧
  (∀ key, arg_key args = Some key → has_colon key = true) ∧
  isfile fs (cookie_file env (cookie_path_of host args)) = true ∧
  run_tool host FFMPEG = Exited 0 ∧
  run_tool host N_M3U8DL_RE = Exited 0 ∧
  last started.1 = Some (LoadCookies (cookie_path_of host args)).
Proof.
  intros started. subst started. unfold main_start.
  destruct (argc =? 1)%nat; [done|].
  destruct (negb (truthy (arg_url args)) && negb (id_given args)) eqn:Hnone;
    [done|].
  destruct (key_malformed args) eqn:Hkey; [done|].
  pose proof (prerequisites_ok env host fs (cookie_path_of host args)) as Hok.
  destruct (check_prerequisites env host fs (cookie_path_of host args)).2
    as [[]|e]; [|done..].
  destruct (cookies_load host (cookie_path_of host args)); [|done].
  intros _. cbn [fst]. destruct (Hok eq_refl) as (Hfile & Hff & Hn).
  split_and!; try done.
  - unfold course_id_source, id_given in *.
    destruct (arg_id args) as [i|]; cbn [default].
    + destruct (decide (i = 0)) as [->|Hi].
      * cbn in *. by destruct (truthy (arg_url args)).
      * apply Z.eqb_neq in Hi as Hi'. rewrite Hi'. done.
    + by destruct (truthy (arg_url args)).
  - intros key Hk. unfold key_malformed in Hkey. rewrite Hk in Hkey.
    by destruct (has_colon key).
  - by rewrite !app_assoc, last_snoc.
Qed.

Lemma past_the_checks_witness :
  let args :=
    {| arg_id := Some 0; arg_url := Some "https://www.udemy.com/course/x/";
       arg_key := Some "abc:def"; arg_cookies := "cookies.txt";
       arg_load := ArgAbsent; arg_save := ArgAbsent; arg_threads := 4;
       arg_captions := None |} in
  let fs : Files := {["cookies.txt" := "# Netscape HTTP Cookie File"]} in
  let started := main_start (ex_env (λ _, NoReply)) ex_host fs 5 args in
  match course_id_source args with
  | FromId course_id => course_id ≠ 0 ∧ arg_id args = Some course_id
  | FromUrl course_url => truthy course_url = true
  end ∧
  (∀ key, arg_key args = Some key → has_colon key = true) ∧
  isfile fs (cookie_file (ex_env (λ _, NoReply)) (cookie_path_of ex_host args))
    = true ∧
  run_tool ex_host FFMPEG = Exited 0 ∧
  run_tool ex_host N_M3U8DL_RE = Exited 0 ∧
  last started.1 = Some (LoadCookies (cookie_path_of ex_host args)).
Proof.
  intros args fs.
  apply (past_the_checks (ex_env (λ _, NoReply)) ex_host fs 5 args).
  by vm_compute.
Defined.

Section FetchInMain.
Variable env : Env.

Lemma fetch_loop_raised fuel : ∀ url all_results total_count trace trace' e,
  fetch_loop env fuel url all_results total_count trace =
    Some (trace', Raised e) →
  (e = SystemExit 1 ∧ ∃ msg, last trace' = Some (Log CRITICAL msg)) ∨
  (∃ name, e = PyException name).
Proof.
  induction fuel as [|fuel IH]; intros url all_results total_count trace trace' e;
    cbn [fetch_loop]; (destruct (truthy url); [|done]); [done|].
  destruct (get_listing env (default "" url)) as [| |response|exn].
  - intros [= <- <-]. right. by eexists.
  - intros [= <- <-]. right. by eexists.
  - case_bool_decide.
    + intros [= <- <-]. left. split; [done|].
      change (trace ++ [?a; ?b]) with (trace ++ [a] ++ [b]).
      rewrite (app_assoc _ [_] [_]), last_snoc. by eexists.
    + apply IH.
  - intros [= <- <-]. right. by eexists.
Qed.

(** X22.  Whatever goes wrong while the curriculum is fetched, [main]
    ends with exit status 1, and the last thing it does before is to
    log a CRITICAL message: that of the fetcher when the fetcher exits
    by itself, its own when the fetcher lets an exception escape. *)
Theorem fetch_failures_exit_with_status_1
    (fuel : nat) (course_id : Z) (trace : list Act) (e : Exn) :
  main_fetch env fuel course_id = Some (trace, Raised e) →
  e = SystemExit 1 ∧ ∃ a, last trace = Some a ∧ is_critical a = true.
Proof.
  unfold main_fetch, fetch_course_curriculum.
  destruct (fetch_loop env fuel _ _ _ _) as [[trace0 [[all_results total]|e0]]|]
    eqn:Hloop; [| |done].
  - by destruct (organize_curriculum all_results).
  - apply fetch_loop_raised in Hloop
      as [[-> [msg Hlast]]|[name ->]].
    + intros [= <- <-]. split; [done|]. exists (Did (Log CRITICAL msg)).
      split; [|done]. by rewrite fmap_last, Hlast.
    + intros [= <- <-]. split; [done|]. eexists. by rewrite last_snoc.
Qed.

End FetchInMain.

Lemma fetch_failures_exit_with_status_1_witness :
  ∃ trace,
    main_fetch ex_broken_env 2 8 = Some (trace, Raised (SystemExit 1)) ∧
    ∃ a, last trace = Some a ∧ is_critical a = true.
Proof.
  eexists. split; [by vm_compute|].
  eapply (fetch_failures_exit_with_status_1 ex_broken_env 2 8 _
            (SystemExit 1)).
  by vm_compute.
Defined.

(** ** Course id: what the two regular expressions find *)

Lemma match_here_chr c pat s g :
  match_here (Chr c :: pat) s = Some g ↔
  ∃ r, s = c :: r ∧ match_here pat r = Some g.
Proof.
  cbn [match_here]. destruct s as [|x r].
  - split; [done|]. by intros (? & ? & _).
  - destruct (Ascii.eqb x c) eqn:Hx.
    + apply Ascii.eqb_eq in Hx as ->. split; [by exists r|].
      by intros (? & [= <-] & ?).
    + apply Ascii.eqb_neq in Hx. split; [done|].
      by intros (? & [= ? _] & _).
Qed.

Lemma match_here_chars (l : text) pat s g :
  match_here ((Chr <$> l) ++ pat) s = Some g ↔
  ∃ r, s = l ++ r ∧ match_here pat r = Some g.
Proof.
  revert s. induction l as [|c l IH]; intros s.
  - split; [by exists s|]. by intros (? & -> & ?).
  - cbn [fmap list_fmap app]. rewrite match_here_chr. split.
    + intros (r & -> & (r' & -> & Hr')%IH). by exists r'.
    + intros (r & -> & Hr). exists (l ++ r). split; [done|].
      apply IH. by exists r.
Qed.

Lemma match_here_lit str pat s g :
  match_here (lit str ++ pat) s = Some g ↔
  ∃ r, s = String.list_ascii_of_string str ++ r ∧ match_here pat r = Some g.
Proof. apply match_here_chars. Qed.

Lemma match_here_plus_sound cls group pat : ∀ s g,
  match_here (Plus cls group :: pat) s = Some g →
  ∃ run r g',
    s = run ++ r ∧ run ≠ [] ∧ Forall (λ c, cls c) run ∧
    match_here pat r = Some g' ∧
    g = if group then run ++ g' else g'.
Proof.
  induction s as [|x s IH]; intros g; [done|].
  cbn [match_here]. destruct (cls x) eqn:Hx; [|done].
  change ((fix more (s : text) : option text :=
             match s with
             | [] => None
             | x :: r =>
               if cls x
               then match more r with
                    | Some g => Some (if group then x :: g else g)
                    | None =>
                      match match_here pat r with
                      | Some g => Some (if group then x :: g else g)
                      | None => None
                      end
                    end
               else None
             end) s) with (match_here (Plus cls group :: pat) s).
  destruct (match_here (Plus cls group :: pat) s) as [g1|] eqn:Hmore.
  - intros [= <-]. destruct (IH _ eq_refl) as (run & r & g' & -> & _ & Hrun & Hr & ->).
    exists (x :: run), r, g'.
    split_and!; try done; try (constructor; [by rewrite Hx|done]);
      by destruct group.
  - destruct (match_here pat s) as [g1|] eqn:Hrest; [|done].
    intros [= <-]. exists [x], s, g1.
    split_and!; try done; try (constructor; [by rewrite Hx|done]);
      by destruct group.
Qed.

Lemma match_here_plus_stop cls group pat r :
  stops cls r → match_here (Plus cls group :: pat) r = None.
Proof. destruct r as [|y r]; [done|]. cbn. by intros ->. Qed.

Lemma match_here_plus_complete (cls : ascii → bool) group pat run r g' :
  run ≠ [] → Forall (λ c, cls c) run → stops cls r →
  match_here pat r = Some g' →
  match_here (Plus cls group :: pat) (run ++ r) =
  Some (if group then run ++ g' else g').
Proof.
  intros Hne Hrun Hstop Hr. induction Hrun as [|x run Hx Hrun IH]; [done|].
  cbn [match_here app]. rewrite (Is_true_true_1 _ Hx).
  change ((fix more (s : text) : option text :=
             match s with
             | [] => None
             | x :: r =>
               if cls x
               then match more r with
                    | Some g => Some (if group then x :: g else g)
                    | None =>
                      match match_here pat r with
                      | Some g => Some (if group then x :: g else g)
                      | None => None
                      end
                    end
               else None
             end) (run ++ r))
    with (match_here (Plus cls group :: pat) (run ++ r)).
  destruct run as [|y run].
  - cbn [app]. rewrite match_here_plus_stop by done. rewrite Hr.
    by destruct group.
  - rewrite IH by done. by destruct group.
Qed.

Lemma search_sound pat : ∀ s g,
  search pat s = Some g →
  ∃ before r, s = before ++ r ∧ match_here pat r = Some g.
Proof.
  induction s as [|x s IH]; intros g; cbn [search].
  - destruct (match_here pat []) eqn:H; [|done]. intros [= <-]. by exists [], [].
  - destruct (match_here pat (x :: s)) eqn:H.
    + intros [= <-]. by exists [], (x :: s).
    + intros (before & r & -> & Hr)%IH. by exists (x :: before), r.
Qed.

Lemma search_complete pat before r g :
  match_here pat r = Some g → is_Some (search pat (before ++ r)).
Proof.
  intros Hr. induction before as [|x before IH].
  - destruct r; cbn [app search]; rewrite Hr; by eexists.
  - cbn [app search]. destruct (match_here pat (x :: before ++ r)); [by eexists|done].
Qed.

Lemma search_skip c pat before r :
  c ∉ before → search (Chr c :: pat) (before ++ r) = search (Chr c :: pat) r.
Proof.
  induction before as [|x before IH]; [done|].
  intros [Hx Hbefore]%not_elem_of_cons. cbn [app search].
  destruct (match_here (Chr c :: pat) (x :: before ++ r)) eqn:Hm; [|by apply IH].
  apply match_here_chr in Hm as (? & [= ? _] & _). done.
Qed.

Lemma search_here pat s g : match_here pat s = Some g → search pat s = Some g.
Proof. intros H. destruct s; cbn [search]; by rewrite H. Qed.

Lemma search_first pat (P : text → text → Prop) :
  (∀ s g, match_here pat s = Some g ↔ P g s) →
  ∀ s g, search pat s = Some g ↔ first_match P s g.
Proof.
  intros HP s g. split.
  - revert g. induction s as [|x s IH]; intros g; cbn [search].
    + destruct (match_here pat []) eqn:H; [|done]. intros [= <-].
      exists [], []. split_and!; [done|by apply HP|].
      intros pre r g' Hnil Hr. by destruct pre, r.
    + destruct (match_here pat (x :: s)) eqn:H.
      * intros [= <-]. exists [], (x :: s). split_and!; [done|by apply HP|].
        intros pre r g' Hnil Hr. by destruct pre, r.
      * intros (before & rest & -> & Hrest & Hleft)%IH.
        exists (x :: before), rest. split_and!; [done|done|].
        intros pre r g' Hsplit Hr HPr. destruct pre as [|y pre].
        -- cbn [app] in Hsplit. subst r. apply HP in HPr.
           cbn [app] in HPr. congruence.
        -- injection Hsplit as -> ->. by eapply Hleft.
  - intros (before & rest & -> & Hrest & Hleft).
    induction before as [|x before IH].
    + apply search_here. by apply HP.
    + cbn [app search].
      destruct (match_here pat (x :: before ++ rest)) as [g'|] eqn:H.
      * exfalso. apply (Hleft [] (x :: before) g'); [done|done|].
        by apply HP.
      * apply IH. intros pre r g' -> Hr. by apply (Hleft (x :: pre)).
Qed.

Lemma first_match_None pat (P : text → text → Prop) s :
  (∀ s g, match_here pat s = Some g ↔ P g s) →
  search pat s = None → ∀ g, ¬ first_match P s g.
Proof.
  intros HP Hnone g Hg. apply (search_first pat P HP) in Hg. congruence.
Qed.

Lemma match_meta s url : match_here META s = Some url ↔ tag_at url s.
Proof.
  split.
  - unfold META. rewrite match_here_lit. intros (r1 & -> & H1).
    cbn [app] in H1.
    apply match_here_plus_sound in H1
      as (ws1 & r2 & g2 & -> & Hne1 & Hws1 & H2 & ->).
    apply match_here_lit in H2 as (r3 & -> & H3).
    apply match_here_chr in H3 as (r4 & -> & H4).
    apply match_here_lit in H4 as (r5 & -> & H5). cbn [app] in H5.
    apply match_here_chr in H5 as (r6 & -> & H6).
    apply match_here_plus_sound in H6
      as (ws2 & r7 & g7 & -> & Hne2 & Hws2 & H7 & ->).
    apply match_here_lit in H7 as (r8 & -> & H8).
    apply match_here_chr in H8 as (r9 & -> & H9).
    apply match_here_plus_sound in H9
      as (run & r10 & g10 & -> & Hne & Hrun & H10 & ->).
    apply match_here_chr in H10 as (after & -> & [= <-]).
    exists ws1, ws2, after. rewrite app_nil_r. split_and!; try done.
    + unfold og_image_tag. by rewrite <- !app_assoc.
    + intros Hin. rewrite Forall_forall in Hrun. apply Hrun in Hin. done.
  - intros (ws1 & ws2 & after & -> & [Hne1 Hws1] & [Hne2 Hws2] & Hne & Hurl).
    unfold META, og_image_tag. rewrite <- !app_assoc.
    apply match_here_lit. eexists. split; [done|]. cbn [app].
    rewrite (match_here_plus_complete _ _ _ ws1 _ url); [done..| |]; [done|].
    apply match_here_lit. eexists. split; [done|].
    apply match_here_chr. eexists. split; [done|].
    apply match_here_lit. eexists. split; [done|]. cbn [app].
    apply match_here_chr. eexists. split; [done|].
    rewrite (match_here_plus_complete _ _ _ ws2 _ url); [done..| |]; [done|].
    apply match_here_lit. eexists. split; [done|].
    apply match_here_chr. eexists. split; [done|].
    rewrite <- (app_nil_r url) at 2.
    apply (match_here_plus_complete not_quote true); try done.
    apply Forall_forall. intros c Hc. unfold not_quote.
    destruct (Ascii.eqb c DQUOTE) eqn:Hq; [|done].
    apply Ascii.eqb_eq in Hq as ->. done.
Qed.

Lemma match_number s number :
  match_here NUMBER s = Some number ↔ number_at number s.
Proof.
  split.
  - unfold NUMBER. intros (r1 & -> & H1)%match_here_chr.
    apply match_here_plus_sound in H1
      as (run & r2 & g2 & -> & Hne & Hrun & H2 & ->).
    apply match_here_chr in H2 as (q & -> & [= <-]).
    exists q. rewrite app_nil_r. done.
  - intros (q & -> & [Hne Hds]). unfold NUMBER. apply match_here_chr.
    eexists. split; [done|]. rewrite <- (app_nil_r number) at 2.
    by apply (match_here_plus_complete is_decimal true).
Qed.

(** X23.  What [extract_course_id] makes of a page.  It returns digits
    exactly when the first [og:image] tag of the page has a content
    with a part made of a slash, digits and an underscore, and then the
    digits of the first such part; a page without the tag, and a page
    whose first tag has no such part, end the program with status 1,
    later tags being of no help. *)
Theorem extract_course_id_outcome (content_str : string) :
  let page := String.list_ascii_of_string content_str in
  match extract_course_id content_str with
  | (trace, Returned number) =>
    ∃ url,
      first_match tag_at page url ∧
      first_match number_at url (String.list_ascii_of_string number) ∧
      trace = [Note INFO (MsgCourseIdExtracted number)]
  | (trace, Raised e) =>
    e = SystemExit 1 ∧
    ((trace = [Note CRITICAL MsgNoImageTag] ∧
      ∀ url, ¬ first_match tag_at page url) ∨
     (trace = [Note CRITICAL MsgNoNumberInImage] ∧
      ∃ url, first_match tag_at page url ∧
             ∀ number, ¬ first_match number_at url number))
  end.
Proof.
  intros page. unfold extract_course_id. fold page.
  destruct (search META page) as [url|] eqn:Hmeta.
  - apply (search_first META tag_at match_meta) in Hmeta.
    destruct (search NUMBER url) as [number|] eqn:Hnumber.
    + exists url. rewrite String.list_ascii_of_string_of_list_ascii.
      split_and!; [done| |done].
      by apply (search_first NUMBER number_at match_number).
    + split; [done|]. right. split; [done|]. exists url. split; [done|].
      by apply (first_match_None NUMBER number_at _ match_number).
  - split; [done|]. left. split; [done|].
    by apply (first_match_None META tag_at _ match_meta).
Qed.

(** X24.  The converse, for use: a page whose first [og:image] tag has
    a content whose first slash-digits-underscore part holds the digits
    [ds] gives the course id [ds], as a string and as it is written,
    leading zeros included. *)
Theorem first_image_tag_gives_the_id
    (content_str : string) (url ds : text) :
  first_match tag_at (String.list_ascii_of_string content_str) url →
  first_match number_at url ds →
  extract_course_id content_str =
  ([Note INFO (MsgCourseIdExtracted (String.string_of_list_ascii ds))],
   Returned (String.string_of_list_ascii ds)).
Proof.
  intros Htag Hnumber. unfold extract_course_id.
  apply (search_first META tag_at match_meta) in Htag. rewrite Htag.
  apply (search_first NUMBER number_at match_number) in Hnumber.
  by rewrite Hnumber.
Qed.

Lemma first_image_tag_gives_the_id_witness :
  extract_course_id ex_course_page =
  ([Note INFO (MsgCourseIdExtracted "567828")], Returned "567828").
Proof.
  apply (first_image_tag_gives_the_id ex_course_page
           (String.list_ascii_of_string
              "https://img-c.udemycdn.com/course/480x270/567828_67d0.jpg")
           (String.list_ascii_of_string "567828")).
  - apply (search_first META tag_at match_meta). by vm_compute.
  - apply (search_first NUMBER number_at match_number). by vm_compute.
Defined.

(** ** Tasks: why a task fails *)

Section Culprits.
Variable env : Env.

Lemma culprit_app e l t : culprit env e t → culprit env e (l ++ t).
Proof.
  intros [[-> [msg [H|H]]]|[(c & Hc & H & Hx)|
                            (url & exn & title & lindex & n & Hget & -> & Hin & H)]].
  - left. split; [done|]. exists msg. left. by rewrite last_app, H.
  - left. split; [done|]. exists msg. right. by rewrite last_app, H.
  - right. left. exists c. by rewrite last_app, H.
  - right. right. exists url, exn, title, lindex, n.
    split_and!; [done|done|set_solver|by rewrite last_app, H].
Qed.

Lemma accountable_bind {A B} (m : M A) (f : A → M B) :
  accountable env m → (∀ a, m.2 = Returned a → accountable env (f a)) →
  accountable env (m ≫= f).
Proof.
  intros Hm Hf e. unfold mbind, M_bind.
  destruct m.2 as [a|e0] eqn:Hout; cbn [fst snd].
  - intros He. by apply culprit_app, (Hf a).
  - intros [= <-]. by apply Hm.
Qed.

Lemma accountable_returned {A} (m : M A) a :
  m.2 = Returned a → accountable env m.
Proof. intros H e. by rewrite H. Qed.

Lemma accountable_call c : is_call c = true → accountable env (call env c).
Proof.
  intros Hc e. unfold call. cbn [fst snd].
  destruct (collaborator env c) as [x|] eqn:Hx; [|done].
  intros [= <-]. right. left. by exists c.
Qed.

Lemma accountable_create_directory path :
  accountable env (create_directory env path).
Proof.
  unfold create_directory. destruct (makedirs env path);
    [by eapply accountable_returned..|].
  intros e [= <-]. left. split; [done|]. eexists. by left.
Qed.

Lemma accountable_fetch_lecture_info course_id lecture_id :
  accountable env (fetch_lecture_info env course_id lecture_id).
Proof.
  unfold fetch_lecture_info. destruct (get_lecture env _);
    [| |by eapply accountable_returned..];
    intros e [= <-]; left; (split; [done|]); eexists; by right.
Qed.

Lemma fetch_lecture_info_other course_id lecture_id exn :
  (fetch_lecture_info env course_id lecture_id).2 = Returned (inr exn) →
  get_lecture env (LECTURE_URL env course_id lecture_id) = JsonOther exn.
Proof.
  unfold fetch_lecture_info. destruct (get_lecture env _); try done.
  by intros [= ->].
Qed.

Lemma accountable_download_media lecture lect_info dir lindex key :
  accountable env (download_media env lecture lect_info dir lindex key).
Proof.
  unfold download_media. destruct (item_is_free lecture).
  - destruct (first_src HLS_TYPE _); [by apply accountable_call|].
    by eapply accountable_returned.
  - destruct (first_src DASH_TYPE _).
    + apply accountable_bind; [|intros _ _; by apply accountable_call].
      destruct key; by eapply accountable_returned.
    + destruct (first_src MP4_TYPE _); by eapply accountable_returned.
Qed.

(** X25.  Why a task fails.  A task raises nothing of its own but
    [SystemExit(1)], and the end of its trace tells which of three
    things happened: an ERROR or CRITICAL message was logged and the
    task exited with status 1; a collaborator call raised, and the
    exception is the collaborator's; or the server answered the request
    for the lecture detail with a JSON value from which the captions
    cannot be read, and the exception of that read leaves the task with
    nothing logged but the INFO line of the lecture. *)
Theorem task_failures_have_three_sources
    (lecture : RawItem) (course_id : Z) (folder_path : string) (lindex : nat)
    (key : option string) (n : nat) (e : Exn) :
  (process_lecture env lecture course_id folder_path lindex key n).2 =
    Raised e →
  culprit env e
    (process_lecture env lecture course_id folder_path lindex key n).1.
Proof.
  revert e. change (accountable env
    (process_lecture env lecture course_id folder_path lindex key n)).
  unfold process_lecture.
  apply accountable_bind; [apply accountable_create_directory|intros _ _].
  destruct (is_lecture lecture); [|by eapply accountable_returned].
  intros e He. rewrite bind_events.
  destruct (fetch_lecture_info env course_id (item_id lecture)).2
    as [[lect_info|exn]|e0] eqn:Hfetch.
  - apply culprit_app. revert e He.
    unfold mbind at 1. unfold M_bind at 1. rewrite Hfetch. cbn [fst snd].
    intros e He. revert e He.
    change (accountable env
      (log INFO (MsgDownloadingLecture (item_title lecture) lindex n) ;;
       (if (0 <? length (li_captions lect_info))%nat then
          log INFO (MsgDownloadingCaptions (length (li_captions lect_info))) ;;
          call env (CallDownloadCaptions (li_captions lect_info) folder_path
                      (output_name env lindex lecture) (captions env))
        else mret tt) ;;
       (if (0 <? length (item_supplementary_assets lecture))%nat then
          log INFO (MsgDownloadingAssets
                      (length (item_supplementary_assets lecture))) ;;
          call env (CallProcessAssets (item_supplementary_assets lecture)
                      folder_path course_id (li_id lect_info))
        else mret tt) ;;
       download_media env lecture lect_info
         (path_join folder_path (pretty (item_id lecture))) lindex key)).
    apply accountable_bind; [by eapply accountable_returned|intros _ _].
    apply accountable_bind; [|intros _ _].
    { destruct (0 <? length (li_captions lect_info))%nat;
        [|by eapply accountable_returned].
      apply accountable_bind; [by eapply accountable_returned|intros _ _].
      by apply accountable_call. }
    apply accountable_bind; [|intros _ _; apply accountable_download_media].
    destruct (0 <? length (item_supplementary_assets lecture))%nat;
      [|by eapply accountable_returned].
    apply accountable_bind; [by eapply accountable_returned|intros _ _].
    by apply accountable_call.
  - apply fetch_lecture_info_other in Hfetch as Hget.
    revert He. unfold mbind at 1. unfold M_bind at 1. rewrite Hfetch.
    cbn. intros [= <-]. right. right.
    exists (LECTURE_URL env course_id (item_id lecture)), exn,
      (item_title lecture), lindex, n.
    split_and!; [done|done|..]; rewrite Hget; cbn; [set_solver|done].
  - revert He. unfold mbind at 1. unfold M_bind at 1. rewrite Hfetch.
    cbn [fst snd]. intros [= <-]. rewrite app_nil_r.
    by apply accountable_fetch_lecture_info.
Qed.

End Culprits.

Lemma task_failures_have_three_sources_witness :
  culprit ex_denied_env (PyException "KeyError")
    (process_lecture ex_denied_env ex_L1 7 "out/Course/1. A" 1 None 2).1.
Proof.
  apply task_failures_have_three_sources. by vm_compute.
Defined.

(** ** Cache: the file is plain ASCII *)

(** X26.  The only file [main] writes under [--save] is the cache file,
    at most once, and its text is plain ASCII whatever the titles hold:
    printable characters and line breaks only. *)
Theorem cache_file_is_plain_ascii
    (env : Env) (fs : Files) (save : PathArg) (v : json) :
  Forall (λ file,
            Forall (λ c, plain c) (String.list_ascii_of_string file.2))
    (files_written (main_save env fs save v).1.1) ∧
  (length (files_written (main_save env fs save v).1.1) ≤ 1)%nat.
Proof.
  assert (∀ path shown,
            Forall (λ file,
                      Forall (λ c, plain c)
                        (String.list_ascii_of_string file.2))
              (files_written (save_to env fs path shown v).1.1) ∧
            (length (files_written (save_to env fs path shown v).1.1) ≤ 1)%nat)
    as Hsave.
  { intros path shown. unfold save_to. cbn [fst snd].
    destruct (isfile fs path), (writable env path); cbn;
      (split; [|lia]); repeat constructor; cbn [snd]; unfold dumps;
      rewrite String.list_ascii_of_string_of_list_ascii; apply encode_plain. }
  unfold main_save. destruct (arg_truthy save); [|cbn; split; [constructor|lia]].
  destruct save; apply Hsave.
Qed.
